(** * Patronus text clustering: a shallow embedding of the numeric core

    Source files: [src/utils/dataProcessing.js], [src/utils/naturalWrapper.js]
    and [src/utils/textClustering.js].

    JavaScript numbers are IEEE 754 binary64 values, so they are modelled by the
    primitive type [float]; array lengths, loop counters and cluster ids, which
    are small integers in the source, are [nat] or [Z] (a cluster id can be
    [-1], the result of [indexOf] when nothing is found).  [Math.random] is a
    stream of draws threaded through the code as explicit state. *)

From Stdlib Require Import String Ascii List ZArith Lia Bool DecimalString.
From Stdlib Require Import Floats.
From Stdlib Require Import Reals Lra.
From Stdlib Require Import Permutation.
From Stdlib Require Uint63.
Import ListNotations.
Local Open Scope string_scope.
Local Open Scope list_scope.

Set Implicit Arguments.

(* ================================================================= *)
(** ** JavaScript numbers *)

Module JS.

Definition number := float.

(** [undefined] coerced by an arithmetic operator. *)
Definition undefined_number : float := nan.

(** [x === y] on numbers: NaN differs from itself, [+0 === -0]. *)
Definition strict_eq (x y : float) : bool := (x =? y)%float.

Definition isNaN (x : float) : bool := is_nan x.
Definition isFinite (x : float) : bool := is_finite x.

Definition Math_sqrt (x : float) : float := PrimFloat.sqrt x.

(** [Math.pow(x, 2)], taken to be the correctly rounded square. *)
Definition Math_pow2 (x : float) : float := (x * x)%float.

Definition is_neg_zero (x : float) : bool :=
  match classify x with NZero => true | _ => false end.
Definition is_pos_zero (x : float) : bool :=
  match classify x with PZero => true | _ => false end.

(** One step of [Math.min]'s scan: [lowest] is the running minimum. *)
Definition min_step (lowest x : float) : float :=
  if is_nan lowest then lowest
  else if is_nan x then nan
  else if is_neg_zero x && is_pos_zero lowest then x
  else if (x <? lowest)%float then x
  else lowest.

(** [Math.min(...xs)]; [Infinity] for no argument. *)
Definition Math_min (xs : list float) : float := fold_left min_step xs infinity.

(** [xs.indexOf(x)], by strict equality; [-1] when absent. *)
Fixpoint indexOf_from (xs : list float) (x : float) (k : Z) : Z :=
  match xs with
  | [] => (-1)%Z
  | y :: ys => if strict_eq y x then k else indexOf_from ys x (k + 1)%Z
  end.
Definition indexOf (xs : list float) (x : float) : Z := indexOf_from xs x 0%Z.

(** An array length or a count as a number (exact below 2^53). *)
Definition of_nat (n : nat) : float := of_uint63 (Uint63.of_Z (Z.of_nat n)).

(** The integer [Math.floor(x)], when [x] is finite. *)
Definition floorZ (x : float) : option Z :=
  match Prim2SF x with
  | S754_zero _ => Some 0%Z
  | S754_finite s m e =>
      let v := if s then Zneg m else Zpos m in
      Some (if (0 <=? e)%Z then v * 2 ^ e else v / 2 ^ (- e))%Z
  | _ => None
  end.

(** [Math.floor(x)] used as an array index: [None] stands for an index
    ([NaN], an infinity, a negative number) at which every array reads
    [undefined]. *)
Definition floor_index (x : float) : option nat :=
  match floorZ x with
  | Some z => if (0 <=? z)%Z then Some (Z.to_nat z) else None
  | None => None
  end.

(** [a[i]] read as a number: [NaN] past the end. *)
Definition get (a : list float) (i : nat) : float := nth i a undefined_number.

End JS.

(* ================================================================= *)
(** ** [Math.random] as explicit state *)

Record RNG := mkRNG { draws : nat -> float; cursor : nat }.

Definition Math_random (g : RNG) : float * RNG :=
  (draws g (cursor g), mkRNG (draws g) (S (cursor g))).

(** Exceptions the modelled code can raise. *)
Inductive exn := TypeError | Error (msg : string).

Inductive result (A : Type) := Ok (a : A) | Throw (e : exn).
Arguments Ok {A} a.
Arguments Throw {A} e.

Definition bind {A B} (r : result A) (f : A -> result B) : result B :=
  match r with Ok a => f a | Throw e => Throw e end.

Notation "'do' x <- c1 ; c2" := (bind c1 (fun x => c2))
  (at level 60, x name, c1 at next level, right associativity).

Fixpoint mapM {A B} (f : A -> result B) (xs : list A) : result (list B) :=
  match xs with
  | [] => Ok []
  | x :: xs' => do y <- f x; do ys <- mapM f xs'; Ok (y :: ys)
  end.

Definition vec := list float.

(* ================================================================= *)
(** ** Strings

    A string is a sequence of code units; the model has the code units
    0..255 (Latin-1). *)

Module Str.

(** The white space of [\s] and of [trim] among the code units 0..255. *)
Definition is_space (c : ascii) : bool :=
  let n := nat_of_ascii c in
  ((9 <=? n) && (n <=? 13) || (n =? 32) || (n =? 160))%nat.

Definition lower_char (c : ascii) : ascii :=
  let n := nat_of_ascii c in
  if ((65 <=? n) && (n <=? 90)
      || (192 <=? n) && (n <=? 222) && negb (n =? 215))%nat
  then ascii_of_nat (n + 32) else c.

Fixpoint toLowerCase (s : string) : string :=
  match s with
  | EmptyString => EmptyString
  | String c s' => String (lower_char c) (toLowerCase s')
  end.

Fixpoint drop_spaces (s : string) : string :=
  match s with
  | String c s' => if is_space c then drop_spaces s' else s
  | EmptyString => EmptyString
  end.

(** [s.replace(/\s+/g, ' ')]; [in_run] says that the previous code unit was
    white space. *)
Fixpoint collapse_from (in_run : bool) (s : string) : string :=
  match s with
  | EmptyString => EmptyString
  | String c s' =>
      if is_space c then
        if in_run then collapse_from true s'
        else String " " (collapse_from true s')
      else String c (collapse_from false s')
  end.
Definition collapse_spaces (s : string) : string := collapse_from false s.

Fixpoint rev_onto (s acc : string) : string :=
  match s with
  | EmptyString => acc
  | String c s' => rev_onto s' (String c acc)
  end.

(** [s.trim()]. *)
Definition trim (s : string) : string :=
  rev_onto (drop_spaces (rev_onto (drop_spaces s) "")) "".

(** [s.split(/\s+/)]: the pieces between the runs of white space, the empty
    pieces at both ends included. [cur] is the piece being read and [in_run]
    says that the previous code unit was white space. *)
Fixpoint split_from (in_run : bool) (cur : string) (s : string) : list string :=
  match s with
  | EmptyString => [cur]
  | String c s' =>
      if is_space c then
        if in_run then split_from true cur s'
        else cur :: split_from true "" s'
      else split_from false (cur ++ String c "")%string s'
  end.
Definition split_spaces (s : string) : list string := split_from false "" s.

(** [Boolean(s)] on a string. *)
Definition truthy (s : string) : bool := negb (s =? "")%string.

Definition endsWith (s suffix : string) : bool :=
  (String.length suffix <=? String.length s)%nat
  && (substring (String.length s - String.length suffix) (String.length suffix) s
      =? suffix)%string.

Definition is_alnum (c : ascii) : bool :=
  let n := nat_of_ascii c in
  ((48 <=? n) && (n <=? 57) || (65 <=? n) && (n <=? 90)
   || (97 <=? n) && (n <=? 122))%nat.

Fixpoint all_chars (p : ascii -> bool) (s : string) : bool :=
  match s with
  | EmptyString => true
  | String c s' => p c && all_chars p s'
  end.

(** [/^[a-z0-9]+$/i.test(s)]. *)
Definition test_alnum (s : string) : bool := truthy s && all_chars is_alnum s.

(** [String(i)] for an array index. *)
Definition of_index (i : nat) : string := NilZero.string_of_uint (Nat.to_uint i).

(** [s.includes(sub)] on strings: [sub] occurs somewhere in [s]. *)
Fixpoint string_includes (s sub : string) : bool :=
  match s with
  | EmptyString => (sub =? "")%string
  | String _ s' => prefix sub s || string_includes s' sub
  end.

End Str.

(* ================================================================= *)
(** ** [naturalWrapper.js]: the fallbacks used when [natural] is not loaded *)

Module NaturalWrapper.
Import Str.

Definition defaultStopwords : list string :=
  ["a"; "about"; "above"; "after"; "again"; "against"; "all"; "am"; "an";
   "and"; "any"; "are"; "aren't"; "as"; "at"; "be"; "because"; "been";
   "before"; "being"; "below"; "between"; "both"; "but"; "by"; "can"; "can't";
   "cannot"; "could"; "couldn't"; "did"; "didn't"; "do"; "does"; "doesn't";
   "doing"; "don't"; "down"; "during"; "each"; "few"; "for"; "from";
   "further"; "had"; "hadn't"; "has"; "hasn't"; "have"; "haven't"; "having";
   "he"; "he'd"; "he'll"; "he's"; "her"; "here"; "here's"; "hers"; "herself";
   "him"; "himself"; "his"; "how"; "how's"; "i"; "i'd"; "i'll"; "i'm"; "i've";
   "if"; "in"; "into"; "is"; "isn't"; "it"; "it's"; "its"; "itself"; "let's";
   "me"; "more"; "most"; "mustn't"; "my"; "myself"; "no"; "nor"; "not"; "of";
   "off"; "on"; "once"; "only"; "or"; "other"; "ought"; "our"; "ours";
   "ourselves"; "out"; "over"; "own"; "same"; "shan't"; "she"; "she'd";
   "she'll"; "she's"; "should"; "shouldn't"; "so"; "some"; "such"; "than";
   "that"; "that's"; "the"; "their"; "theirs"; "them"; "themselves"; "then";
   "there"; "there's"; "these"; "they"; "they'd"; "they'll"; "they're";
   "they've"; "this"; "those"; "through"; "to"; "too"; "under"; "until"; "up";
   "very"; "was"; "wasn't"; "we"; "we'd"; "we'll"; "we're"; "we've"; "were";
   "weren't"; "what"; "what's"; "when"; "when's"; "where"; "where's"; "which";
   "while"; "who"; "who's"; "whom"; "why"; "why's"; "with"; "won't"; "would";
   "wouldn't"; "you"; "you'd"; "you'll"; "you're"; "you've"; "your"; "yours";
   "yourself"; "yourselves"].

(** [MockTokenizer.tokenize]: [text.split(/\s+/).filter(Boolean)]. *)
Definition tokenize (text : string) : list string :=
  filter truthy (split_spaces text).

(** [mockPorterStemmer]: the first rule whose suffix ends the lower-cased
    word is applied. *)
Definition simpleRules : list (string * string) :=
  [("ing", ""); ("ed", ""); ("s", ""); ("es", ""); ("ly", ""); ("ies", "y")].

Fixpoint apply_rules (rules : list (string * string)) (result : string) : string :=
  match rules with
  | [] => result
  | (suffix, replacement) :: rest =>
      if endsWith result suffix then
        (substring 0 (String.length result - String.length suffix) result
         ++ replacement)%string
      else apply_rules rest result
  end.

Definition stem (word : string) : string :=
  if truthy word then apply_rules simpleRules (toLowerCase word) else "".

Definition stopwords : list string := defaultStopwords.

Definition includes (l : list string) (s : string) : bool :=
  existsb (fun x => (x =? s)%string) l.

(** Names every object inherits from [Object.prototype]: [this.terms[word]]
    is truthy for them although [terms] has no such key of its own. *)
Definition inherited_names : list string :=
  ["constructor"; "hasOwnProperty"; "isPrototypeOf"; "propertyIsEnumerable";
   "toLocaleString"; "toString"; "valueOf"; "__proto__"; "__defineGetter__";
   "__defineSetter__"; "__lookupGetter__"; "__lookupSetter__"].

(** [MockTfIdf]: [terms] maps a word to its count per document index, in the
    order the words were first seen. *)
Record MockTfIdf := mkTfIdf {
  docs : list string;
  terms : list (string * list (nat * nat))
}.

Definition new_TfIdf : MockTfIdf := mkTfIdf [] [].

Fixpoint bump_doc (docIndex : nat) (counts : list (nat * nat)) : list (nat * nat) :=
  match counts with
  | [] => [(docIndex, 1)]
  | (d, c) :: rest =>
      if (d =? docIndex)%nat then (d, S c) :: rest
      else (d, c) :: bump_doc docIndex rest
  end.

Fixpoint bump_word (docIndex : nat) (word : string)
    (ts : list (string * list (nat * nat))) : list (string * list (nat * nat)) :=
  match ts with
  | [] => [(word, [(docIndex, 1)])]
  | (w, counts) :: rest =>
      if (w =? word)%string then (w, bump_doc docIndex counts) :: rest
      else (w, counts) :: bump_word docIndex word rest
  end.

(** The body of [words.forEach]. For an inherited name the counter is kept
    on the inherited object, outside [terms]; such a word is never listed
    by [listTerms]. *)
Definition count_word (docIndex : nat) (ts : list (string * list (nat * nat)))
    (word : string) : list (string * list (nat * nat)) :=
  if includes inherited_names word then ts else bump_word docIndex word ts.

Definition addDocument (t : MockTfIdf) (text : string) : MockTfIdf :=
  if negb (truthy text) then mkTfIdf (docs t ++ [""]) (terms t)
  else
    let docs' := docs t ++ [text] in
    let words := filter truthy (split_spaces text) in
    let docIndex := length docs' - 1 in
    mkTfIdf docs' (fold_left (count_word docIndex) words (terms t)).

(** The canonical numeric keys (array indices), which [Object.keys] lists
    first, in ascending order. *)
Definition is_digit (c : ascii) : bool :=
  let n := nat_of_ascii c in ((48 <=? n) && (n <=? 57))%nat.

Fixpoint digits_value (s : string) (acc : N) : N :=
  match s with
  | EmptyString => acc
  | String c s' => digits_value s' (acc * 10 + N.of_nat (nat_of_ascii c - 48))%N
  end.

Definition array_index (key : string) : option N :=
  match key with
  | EmptyString => None
  | String c rest =>
      if all_chars is_digit key
         && (negb (nat_of_ascii c =? 48)%nat || (rest =? "")%string)
         && (String.length key <=? 10)%nat
         && (digits_value key 0 <=? 4294967294)%N
      then Some (digits_value key 0) else None
  end.

Fixpoint insert_index {V} (n : N) (kv : string * V) (l : list (N * (string * V)))
  : list (N * (string * V)) :=
  match l with
  | [] => [(n, kv)]
  | (m, x) :: rest =>
      if (n <? m)%N then (n, kv) :: l else (m, x) :: insert_index n kv rest
  end.

(** [Object.entries(o)] for an object filled in the order of [o]. *)
Definition Object_entries {V} (o : list (string * V)) : list (string * V) :=
  let indexed :=
    fold_left (fun acc kv =>
                 match array_index (fst kv) with
                 | Some n => insert_index n kv acc
                 | None => acc
                 end) o [] in
  map snd indexed
  ++ filter (fun kv => match array_index (fst kv) with Some _ => false | None => true end) o.

(** [{ term, tfidf }]. *)
Record term_weight := mkTerm { term : string; tfidf : float }.

(** [l.sort(lt)], stable; [before x y] says that the comparator is negative
    on [(x, y)]. *)
Fixpoint insert_sorted {A} (before : A -> A -> bool) (x : A) (sorted : list A) : list A :=
  match sorted with
  | [] => [x]
  | y :: rest =>
      if before x y then x :: sorted else y :: insert_sorted before x rest
  end.
Definition stable_sort {A} (before : A -> A -> bool) (l : list A) : list A :=
  fold_left (fun acc x => insert_sorted before x acc) l [].

Definition count_in (docIndex : nat) (counts : list (nat * nat)) : nat :=
  match find (fun dc => (fst dc =? docIndex)%nat) counts with
  | Some dc => snd dc
  | None => 0
  end.

(** [this.docs[docIndex].split(/\s+/).length || 1]. *)
Definition doc_length (t : MockTfIdf) (docIndex : nat) : nat :=
  match length (split_spaces (nth docIndex (docs t) "")) with
  | O => 1
  | n => n
  end.

Definition listTerms (t : MockTfIdf) (docIndex : nat) : list term_weight :=
  if (length (docs t) <=? docIndex)%nat then []
  else
    let result :=
      flat_map (fun kv =>
                  match count_in docIndex (snd kv) with
                  | O => []
                  | c => [mkTerm (fst kv)
                            (JS.of_nat c / JS.of_nat (doc_length t docIndex))%float]
                  end)
               (Object_entries (terms t)) in
    stable_sort (fun a b => (tfidf b - tfidf a <? zero)%float) result.

(** [tfidf(term, docIndex)], for a term that names no inherited property
    (the terms of [listTerms] are such): 0 for a term without a key or
    without a count for the document. *)
Definition MockTfIdf_tfidf (t : MockTfIdf) (word : string) (docIndex : nat) : float :=
  match find (fun kv => (fst kv =? word)%string) (terms t) with
  | None => zero
  | Some kv =>
      match count_in docIndex (snd kv) with
      | O => zero
      | c => (JS.of_nat c / JS.of_nat (doc_length t docIndex))%float
      end
  end.

(** [MockSentimentAnalyzer]: the lexicon and [getSentiment]. *)
Definition simpleAFINN : list (string * float) :=
  [("good", 3); ("nice", 3); ("great", 4); ("excellent", 5); ("wonderful", 4);
   ("bad", -3); ("terrible", -4); ("awful", -4); ("horrible", -5); ("poor", -2);
   ("love", 4); ("hate", -4); ("like", 2); ("dislike", -2);
   ("happy", 3); ("sad", -3); ("angry", -4); ("pleased", 3);
   ("best", 5); ("worst", -5); ("better", 2); ("worse", -2)]%float.

Definition lexicon_value (word : string) : option float :=
  match find (fun kv => (fst kv =? word)%string) simpleAFINN with
  | Some kv => Some (snd kv)
  | None => None
  end.

(** [score] and [validTokens] after the loop over the tokens, for tokens
    that name no inherited property. *)
Definition sentiment_totals (tokens : list string) : float * nat :=
  fold_left (fun acc token =>
               match lexicon_value (toLowerCase token) with
               | Some v => ((fst acc + v)%float, S (snd acc))
               | None => acc
               end) tokens (zero, 0).

(** [getSentiment(tokens)]. A token whose lower-case form names an
    inherited property is added to the score as a string, and the quotient
    is [NaN]; without a word of the lexicon the score is drawn. *)
Definition getSentiment (tokens : list string) (g : RNG) : float * RNG :=
  match tokens with
  | [] => (zero, g)
  | _ =>
      if existsb (fun token => includes inherited_names (toLowerCase token)) tokens
      then (nan, g)
      else
        let (score, validTokens) := sentiment_totals tokens in
        match validTokens with
        | O => let (u, g') := Math_random g in
               ((u * 0x1.999999999999ap-2 - 0x1.999999999999ap-3)%float, g')
        | _ => ((score / JS.of_nat (validTokens * 5))%float, g)
        end
  end.

End NaturalWrapper.

(* ================================================================= *)
(** ** The k-means skeleton shared by both clusterers

    [kmeans] ([dataProcessing.js]) and [kMeansWithVectors]
    ([textClustering.js]) are the same text up to the distance function, the
    formula of the new centroid and the guard in front; the common part is
    written once, over those two. A centroid is [None] when the seed was read
    past the end of the input ([undefined]). *)

Section Lloyd.
Import JS.

Variable dist : vec -> option vec -> result float.
Variable new_centroid : list vec -> vec.

(** The scan [while (r > 0 && j < n) { r -= distances[j] * distances[j]; j++ }]. *)
Fixpoint pick (distances : list float) (r : float) (j : nat) : nat :=
  match distances with
  | [] => j
  | d :: ds => if (zero <? r)%float then pick ds (r - d * d)%float (S j) else j
  end.

(** Distance of every point to its nearest centroid chosen so far. *)
Definition nearest_distances (points : list vec) (centroids : list (option vec))
  : result (list float) :=
  mapM (fun point =>
          do ds <- mapM (fun c => dist point c) centroids;
          Ok (Math_min ds)) points.

(** The k-means++ loop [for (let i = 1; i < k; i++)]; [todo] is [k - 1].
    ([n - 1] is only computed for a non-empty input.) *)
Fixpoint seed_rest (points : list vec) (todo : nat)
    (centroids : list (option vec)) (g : RNG) : result (list (option vec)) * RNG :=
  match todo with
  | O => (Ok centroids, g)
  | S todo' =>
      match nearest_distances points centroids with
      | Throw e => (Throw e, g)
      | Ok distances =>
          let sumDistSquared :=
            fold_left (fun sum d => (sum + d * d)%float) distances zero in
          let (u, g') := Math_random g in
          let r := (u * sumDistSquared)%float in
          let j := pick distances r 0 in
          let n := length points in
          seed_rest points todo'
            (centroids ++ [nth_error points (Nat.min j (n - 1))]) g'
      end
  end.

(** The first seed, [points[Math.floor(Math.random() * n)]]. *)
Definition first_seed (points : list vec) (g : RNG) : option vec * RNG :=
  let (u, g') := Math_random g in
  (match floor_index (u * of_nat (length points))%float with
   | Some i => nth_error points i
   | None => None
   end, g').

(** The assignment pass of one iteration: the new assignments, and whether
    one of them differs from the old one. *)
Fixpoint assign (points : list vec) (centroids : list (option vec))
    (assignments : list Z) : result (list Z * bool) :=
  match points, assignments with
  | p :: ps, a :: as_ =>
      do dists <- mapM (fun c => dist p c) centroids;
      let closestCentroid := indexOf dists (Math_min dists) in
      do rest <- assign ps centroids as_;
      Ok (closestCentroid :: fst rest,
          if (a =? closestCentroid)%Z then snd rest else true)
  | _, _ => Ok ([], false)
  end.

(** [points.filter((_, i) => assignments[i] === j)]. *)
Definition assigned (points : list vec) (assignments : list Z) (j : nat) : list vec :=
  map fst (filter (fun pa => (snd pa =? Z.of_nat j)%Z) (combine points assignments)).

(** The centroid pass [for (let j = 0; j < k; j++)]: a cluster without
    points keeps its centroid. *)
Definition update_centroids (points : list vec) (assignments : list Z)
    (k : nat) (centroids : list (option vec)) : list (option vec) :=
  map (fun jc =>
         if (fst jc <? k)%nat then
           match assigned points assignments (fst jc) with
           | [] => snd jc
           | ps => Some (new_centroid ps)
           end
         else snd jc)
      (combine (seq 0 (length centroids)) centroids).

(** The variables of the main loop. *)
Record loop_state := mkLoop {
  centroids : list (option vec);
  assignments : list Z;
  iterations : nat;
  changed : bool
}.

Definition lloyd_step (points : list vec) (k : nat) (st : loop_state)
  : result loop_state :=
  do r <- assign points (centroids st) (assignments st);
  Ok (mkLoop (update_centroids points (fst r) k (centroids st))
             (fst r) (S (iterations st)) (snd r)).

(** [while (changed && iterations < maxIterations)]; [fuel] is what is left
    of [maxIterations]. *)
Fixpoint lloyd (points : list vec) (k : nat) (fuel : nat) (st : loop_state)
  : result loop_state :=
  match fuel with
  | O => Ok st
  | S fuel' =>
      if changed st then
        do st' <- lloyd_step points k st; lloyd points k fuel' st'
      else Ok st
  end.

(** The seeds, in the order they are drawn. *)
Definition seeds (points : list vec) (k : nat) (g : RNG)
  : result (list (option vec)) * RNG :=
  let (c0, g1) := first_seed points g in
  seed_rest points (k - 1) [c0] g1.

Definition initial_state (points : list vec) (cs : list (option vec)) : loop_state :=
  mkLoop cs (repeat 0%Z (length points)) 0 true.

(** Seeding followed by the main loop; the state at the [return]. *)
Definition cluster (points : list vec) (k maxIterations : nat) (g : RNG)
  : result loop_state * RNG :=
  match seeds points k g with
  | (Throw e, g') => (Throw e, g')
  | (Ok cs, g') => (lloyd points k maxIterations (initial_state points cs), g')
  end.

End Lloyd.

(** [{ centroids, assignments }]. *)
Record kmeans_result := mkResult {
  res_centroids : list (option vec);
  res_assignments : list Z
}.

Definition returned (r : result loop_state * RNG) : result kmeans_result * RNG :=
  match r with
  | (Ok st, g) => (Ok (mkResult (centroids st) (assignments st)), g)
  | (Throw e, g) => (Throw e, g)
  end.

(** Number of documents assigned to cluster [j]. *)
Definition cluster_size (assignments : list Z) (j : nat) : nat :=
  length (filter (fun a => (a =? Z.of_nat j)%Z) assignments).

(* ================================================================= *)
(** ** [dataProcessing.js] *)

Module DataProcessing.
Import JS Str NaturalWrapper.

(** The filter of [preprocessText]. *)
Definition keep_token (token : string) : bool :=
  (2 <? String.length token)%nat
  && negb (includes stopwords token)
  && test_alnum token.

(** The tokens of [preprocessText] before they are joined. *)
Definition filteredTokens (text : string) : list string :=
  let processed := toLowerCase text in
  let processed := trim (collapse_spaces processed) in
  map stem (filter keep_token (tokenize processed)).

Definition preprocessText (text : string) : string :=
  if negb (truthy text) then ""
  else String.concat " " (filteredTokens text).

(** *** [cosineSimilarity] *)

(** What [cosineSimilarity] is called on: an array of numbers
    ([performTextClustering]) or an object from terms to weights
    ([clusterTexts]). *)
Inductive jsvec := Arr (a : list float) | Obj (o : list (string * float)).

(** [o[key]] on an object filled in the order of [o]. *)
Definition prop (o : list (string * float)) (key : string) : option float :=
  match find (fun kv => (fst kv =? key)%string) o with
  | Some kv => Some (snd kv)
  | None => None
  end.

(** [v.length]: the element count of an array; for an object its property
    of that name, if any. *)
Inductive length_value := LenCount (n : nat) | LenNumber (w : float) | LenUndefined.

Definition js_length (v : jsvec) : length_value :=
  match v with
  | Arr a => LenCount (length a)
  | Obj o => match prop o "length" with
             | Some w => LenNumber w
             | None => LenUndefined
             end
  end.

(** [v[i]] as an operand of [*]: [undefined] counts as [NaN]. *)
Definition elem (v : jsvec) (i : nat) : float :=
  match v with
  | Arr a => get a i
  | Obj o => match prop o (of_index i) with
             | Some x => x
             | None => undefined_number
             end
  end.

(** Smallest integer not below a positive finite number. *)
Definition ceilZ (x : float) : option Z :=
  match Prim2SF x with
  | S754_zero _ => Some 0%Z
  | S754_finite s m e =>
      let v := if s then Zneg m else Zpos m in
      Some (if (0 <=? e)%Z then v * 2 ^ e else - ((- v) / 2 ^ (- e)))%Z
  | _ => None
  end.

(** How often the body of [for (let i = 0; i < bound; i++)] runs; [None]
    when the loop does not end (a bound above 2^53, where [i++] no longer
    changes [i]). *)
Definition trips (bound : length_value) : option nat :=
  match bound with
  | LenCount n => Some n
  | LenUndefined => Some 0
  | LenNumber w =>
      if (zero <? w)%float then
        match ceilZ w with
        | Some c => if (c <=? 2 ^ 53)%Z then Some (Z.to_nat c) else None
        | None => None
        end
      else Some 0
  end.

(** The three sums after [n] rounds of the loop. *)
Definition cosine_sums (n : nat) (vecA vecB : jsvec) : float * float * float :=
  fold_left (fun acc i =>
               let '(dotProduct, normA, normB) := acc in
               ((dotProduct + elem vecA i * elem vecB i)%float,
                (normA + elem vecA i * elem vecA i)%float,
                (normB + elem vecB i * elem vecB i)%float))
            (seq 0 n) (zero, zero, zero).

Definition cosine_value (sums : float * float * float) : float :=
  let '(dotProduct, normA, normB) := sums in
  if strict_eq normA zero || strict_eq normB zero then zero
  else (dotProduct / (Math_sqrt normA * Math_sqrt normB))%float.

(** [None]: the call does not return. *)
Definition cosineSimilarity (vecA vecB : jsvec) : option float :=
  match trips (js_length vecA) with
  | Some n => Some (cosine_value (cosine_sums n vecA vecB))
  | None => None
  end.

(** *** [simpleMDS] *)

Definition learningRate : float := 0x1.999999999999ap-4%float.   (* 0.1 *)
Definition sweeps : nat := 50.
Definition epsilon : float := 0x1.0c6f7a0b5ed8dp-20%float.       (* 1e-6 *)

(** [m] draws of [Math.random() * 2 - 1]. *)
Fixpoint random_coords (m : nat) (g : RNG) : vec * RNG :=
  match m with
  | O => ([], g)
  | S m' =>
      let (u, g1) := Math_random g in
      let (rest, g2) := random_coords m' g1 in
      ((u * 2 - 1)%float :: rest, g2)
  end.

Fixpoint random_points (n dimensions : nat) (g : RNG) : list vec * RNG :=
  match n with
  | O => ([], g)
  | S n' =>
      let (p, g1) := random_coords dimensions g in
      let (rest, g2) := random_points n' dimensions g1 in
      (p :: rest, g2)
  end.

Definition matrix := list (list float).

(** [m[i][j]] as an operand. *)
Definition entry (m : matrix) (i j : nat) : float := get (nth i m []) j.

Definition embeddingDist (dimensions : nat) (pi pj : vec) : float :=
  Math_sqrt (fold_left (fun acc d => (acc + Math_pow2 (get pi d - get pj d))%float)
               (seq 0 dimensions) zero).

(** [1 - distanceMatrix[i][j]]. *)
Definition targetDist (distanceMatrix : matrix) (i j : nat) : float :=
  (1 - entry distanceMatrix i j)%float.

Definition discrepancy (distanceMatrix : matrix) (dimensions : nat)
    (points : list vec) (i j : nat) : float :=
  (embeddingDist dimensions (nth i points []) (nth j points [])
   - targetDist distanceMatrix i j)%float.

Definition set_nth {A} (i : nat) (x : A) (l : list A) : list A :=
  if (i <? length l)%nat then firstn i l ++ x :: skipn (S i) l else l.

(** The body of the two inner loops, for the pair [(i, j)]. *)
Definition mds_pair (distanceMatrix : matrix) (dimensions : nat)
    (points : list vec) (ij : nat * nat) : list vec :=
  let (i, j) := ij in
  let pi := nth i points [] in
  let pj := nth j points [] in
  let dist := embeddingDist dimensions pi pj in
  let diff := discrepancy distanceMatrix dimensions points i j in
  if (dist <? epsilon)%float then points
  else
    let grad := fun d => (learningRate * diff * (get pi d - get pj d) / dist)%float in
    let pi' := map (fun d => (get pi d - grad d)%float) (seq 0 dimensions) in
    let pj' := map (fun d => (get pj d + grad d)%float) (seq 0 dimensions) in
    set_nth j pj' (set_nth i pi' points).

(** The pairs [i < j < n] in the order the loops visit them. *)
Definition pairs (n : nat) : list (nat * nat) :=
  flat_map (fun i => map (fun j => (i, j)) (seq (S i) (n - S i))) (seq 0 n).

Definition mds_sweep (distanceMatrix : matrix) (dimensions : nat)
    (points : list vec) : list vec :=
  fold_left (mds_pair distanceMatrix dimensions) (pairs (length distanceMatrix)) points.

Definition simpleMDS (distanceMatrix : matrix) (dimensions : nat) (g : RNG)
  : list vec * RNG :=
  let (points, g') := random_points (length distanceMatrix) dimensions g in
  (Nat.iter sweeps (mds_sweep distanceMatrix dimensions) points, g').

(** *** [generateMockClusteringData] *)

Record point := mkPoint {
  pt_id : nat;
  pt_text : string;
  pt_coordinates : vec;
  pt_cluster : Z
}.

Record summary := mkSummary {
  cl_id : nat;
  cl_name : option string;
  cl_size : nat;
  cl_keyTerms : list string;
  cl_example : string
}.

Record cluster_data := mkData {
  points : list point;
  clusters : list summary;
  clusterCount : nat
}.

Definition clusterDefinitions : list (string * list string) :=
  [("User Interface Experience",
    ["interface"; "design"; "navigation"; "usability"; "responsive"]);
   ("Performance Optimization",
    ["speed"; "latency"; "optimization"; "efficiency"; "throughput"]);
   ("Security Protocols",
    ["security"; "encryption"; "authentication"; "vulnerability"; "protection"]);
   ("Data Management",
    ["database"; "storage"; "queries"; "retrieval"; "collection"]);
   ("System Architecture",
    ["architecture"; "infrastructure"; "framework"; "integration"; "microservice"])].

Definition mockTexts : list (list string) :=
[
  ["The user interface needs better navigation elements to guide users through the checkout process.";
   "We need to overhaul the design of the dashboard to make key metrics more visible at a glance.";
   "The responsive design breaks on certain tablet devices when switching from portrait to landscape.";
   "Users have reported confusion with the current menu structure during usability testing.";
   "The latest interface update has significantly improved the overall user experience according to satisfaction scores.";
   "The navigation drawer should contain the most frequently accessed items based on our analytics.";
   "Consider implementing more intuitive design patterns for first-time users of the application."];
  ["The API request latency has increased by 15% since the last deployment.";
   "We need to optimize the database queries that are causing performance bottlenecks during peak hours.";
   "After implementing the caching layer, we saw a 30% improvement in response times.";
   "The new efficiency algorithms have reduced CPU utilization while maintaining throughput.";
   "Performance testing indicates we can handle twice the current load after the optimization work.";
   "The image processing pipeline needs optimization to reduce the processing time for large files.";
   "Resource utilization is suboptimal during the data aggregation process."];
  ["The security audit revealed potential vulnerabilities in the authentication process.";
   "We need to implement stronger encryption for sensitive user data in transit and at rest.";
   "The protection mechanisms for API endpoints need to be enhanced with rate limiting.";
   "Additional security protocols are required for compliance with the new regulations.";
   "The vulnerability assessment identified several issues in the third-party libraries we're using.";
   "Two-factor authentication implementation should be prioritized for admin accounts.";
   "The security team recommended implementing certificate pinning for the mobile application."];
  ["The database schema requires normalization to improve query performance.";
   "Data retrieval operations are taking too long when filtering across multiple collections.";
   "We need to implement more efficient storage solutions for the increasing volume of user data.";
   "The current database architecture doesn't scale well with our growing user base.";
   "Implementing proper indexing strategies could significantly improve our query performance.";
   "Data integrity issues have been identified in the customer information tables.";
   "We should consider implementing a data caching layer to reduce database load."];
  ["The current system architecture needs to be refactored to support the new features.";
   "We should consider moving to a microservice architecture for better scalability.";
   "The integration points between systems are creating single points of failure.";
   "The framework we're using doesn't provide adequate support for our use cases.";
   "Our infrastructure needs to be more resilient to handle regional outages.";
   "The service mesh implementation has improved communication between microservices.";
   "We need to redesign the system to accommodate the new regulatory requirements."]].

(** [Math.floor(Math.random() * 10) + 5] as a loop bound: no round for a
    [NaN]. (The draws of [Math.random] are finite.) *)
Definition mock_size (u : float) : nat :=
  match floorZ (u * 10)%float with
  | Some z => Z.to_nat (z + 5)
  | None => 0
  end.

Fixpoint draw (m : nat) (g : RNG) : list float * RNG :=
  match m with
  | O => ([], g)
  | S m' =>
      let (u, g1) := Math_random g in
      let (rest, g2) := draw m' g1 in
      (u :: rest, g2)
  end.

(** The points of cluster [i], numbered from [pointId]; [j] counts the
    points already made and [todo] those still to make. *)
Fixpoint mock_points (i : nat) (centerX centerY : float) (texts : list string)
    (todo j pointId : nat) (g : RNG) : list point * RNG :=
  match todo with
  | O => ([], g)
  | S todo' =>
      let (a, g1) := draw 3 g in
      let (b, g2) := draw 3 g1 in
      let offset := fun u =>
        ((get u 0 + get u 1 + get u 2 - 0x1.8p+0) * 0x1p-1)%float in
      let text := nth (j mod length texts) texts "" in
      let p := mkPoint pointId text
                 [(centerX + offset a)%float; (centerY + offset b)%float]
                 (Z.of_nat i) in
      let (rest, g3) := mock_points i centerX centerY texts todo' (S j) (S pointId) g2 in
      (p :: rest, g3)
  end.

(** The loop over the clusters that makes the points. *)
Fixpoint mock_clusters (sizes : list nat) (i pointId : nat) (g : RNG)
  : list point * RNG :=
  match sizes with
  | [] => ([], g)
  | numPoints :: rest =>
      let (u, g1) := Math_random g in
      let centerX := (u * 4 - 2)%float in
      let (v, g2) := Math_random g1 in
      let centerY := (v * 4 - 2)%float in
      let (ps, g3) :=
        mock_points i centerX centerY (nth i mockTexts []) numPoints 0 pointId g2 in
      let (qs, g4) := mock_clusters rest (S i) (pointId + numPoints) g3 in
      (ps ++ qs, g4)
  end.

Definition generateMockClusteringData (g : RNG) : cluster_data * RNG :=
  let k := 5 in
  let (us, g1) := draw k g in
  let sizes := map mock_size us in
  let (pts, g2) := mock_clusters sizes 0 0 g1 in
  (mkData pts
     (map (fun i =>
             let d := nth i clusterDefinitions ("", []) in
             mkSummary i (Some (fst d))
               (length (filter (fun p => (pt_cluster p =? Z.of_nat i)%Z) pts))
               (snd d)
               (nth 0 (nth i mockTexts []) ""))
          (seq 0 k))
     k, g2).

(** *** [kmeans] and [euclideanDist] *)
(** [Math.sqrt(a.reduce((sum, val, i) => sum + Math.pow(val - b[i], 2), 0))].
    On an [undefined] centroid the callback raises at [b[i]]; it never runs
    when [a] is empty. *)
Definition euclideanDist (a : vec) (b : option vec) : result float :=
  match b with
  | Some b =>
      Ok (Math_sqrt
            (fold_left (fun sum iv => (sum + Math_pow2 (snd iv - get b (fst iv)))%float)
               (combine (seq 0 (length a)) a) zero))
  | None => match a with [] => Ok (Math_sqrt zero) | _ => Throw TypeError end
  end.

(** [newCentroid[d] = assignedPoints.reduce((sum, p) => sum + p[d], 0) /
    assignedPoints.length], for [d < dim]. *)
Definition mean_point (dim : nat) (ps : list vec) : vec :=
  map (fun d => (fold_left (fun sum p => (sum + get p d)%float) ps zero
                 / of_nat (length ps))%float)
      (seq 0 dim).

(** The state of [kmeans] at its [return]; [points[0].length] raises on an
    empty input. *)
Definition kmeans_loop (points : list vec) (k maxIterations : nat) (g : RNG)
  : result loop_state * RNG :=
  match points with
  | [] => (Throw TypeError, g)
  | p0 :: _ => cluster euclideanDist (mean_point (length p0)) points k maxIterations g
  end.

Definition kmeans (points : list vec) (k maxIterations : nat) (g : RNG)
  : result kmeans_result * RNG :=
  returned (kmeans_loop points k maxIterations g).

(** *** [clusterTexts] *)

(** An element of [data]: anything that is not an object, or an object with
    its [content] and [text] fields (strings, when present). *)
Inductive item := NotAnObject | Item (content text : option string).

Definition or_string (a : option string) (b : string) : string :=
  match a with
  | Some s => if truthy s then s else b
  | None => b
  end.

(** The loop that collects [texts]. *)
Definition collect_texts (data : list item) : list string :=
  flat_map (fun it =>
              match it with
              | NotAnObject => []
              | Item content text =>
                  let t := or_string content (or_string text "") in
                  if negb (trim t =? "")%string then [t] else []
              end) data.

Definition collect_processed (texts : list string) : list string :=
  flat_map (fun text =>
              let processed := preprocessText text in
              if truthy processed && negb (trim processed =? "")%string
              then [processed] else []) texts.

Definition build_tfidf (processedTexts : list string) : MockTfIdf :=
  fold_left addDocument processedTexts new_TfIdf.

(** [allTerms.add(t)]. *)
Definition set_add (l : list string) (t : string) : list string :=
  if includes l t then l else l ++ [t].

Definition collect_terms (tfidf : MockTfIdf) (n : nat) : list string :=
  fold_left (fun allTerms i =>
               fold_left (fun acc t => if truthy (term t) then set_add acc (term t) else acc)
                         (listTerms tfidf i) allTerms)
            (seq 0 n) [].

(** [vector[key] = w]. *)
Fixpoint obj_set (o : list (string * float)) (key : string) (w : float)
  : list (string * float) :=
  match o with
  | [] => [(key, w)]
  | (k', x) :: rest =>
      if (k' =? key)%string then (k', w) :: rest else (k', x) :: obj_set rest key w
  end.

Definition doc_vector (tfidf : MockTfIdf) (i : nat) : list (string * float) :=
  fold_left (fun vector t =>
               if truthy (term t) && negb (isNaN (NaturalWrapper.tfidf t))
               then obj_set vector (term t) (NaturalWrapper.tfidf t) else vector)
            (listTerms tfidf i) [].

(** [docVectors]: only the non-empty vectors are kept. *)
Definition doc_vectors (tfidf : MockTfIdf) (n : nat) : list jsvec :=
  flat_map (fun i => match doc_vector tfidf i with
                     | [] => []
                     | v => [Obj v]
                     end) (seq 0 n).

(** [similarityMatrix[i][j]], with the fallback to the identity matrix. *)
Definition similarity_entry (docVectors : list jsvec) (i j : nat) : option float :=
  match cosineSimilarity (nth i docVectors (Obj [])) (nth j docVectors (Obj [])) with
  | Some s =>
      Some (if isNaN s || negb (isFinite s)
            then (if (i =? j)%nat then one else zero) else s)
  | None => None
  end.

Fixpoint sequence {A} (l : list (option A)) : option (list A) :=
  match l with
  | [] => Some []
  | Some x :: rest => match sequence rest with
                      | Some xs => Some (x :: xs)
                      | None => None
                      end
  | None :: _ => None
  end.

Definition similarity_matrix (docVectors : list jsvec) : option matrix :=
  let n := length docVectors in
  sequence (map (fun i => sequence (map (similarity_entry docVectors i) (seq 0 n)))
                (seq 0 n)).

(** [similarityMatrix.map(row => row.map(sim => 1 - sim))]. *)
Definition distance_matrix (similarityMatrix : matrix) : matrix :=
  map (map (fun sim => (1 - sim)%float)) similarityMatrix.

Definition valid_coordinates (mdsCoordinates : list vec) : list vec :=
  map (fun coords =>
         if existsb (fun c => isNaN c || negb (isFinite c)) coords
         then [zero; zero] else coords) mdsCoordinates.

(** [Math.min(5, Math.max(2, Math.floor(n / 10)))]. *)
Definition cluster_count (n : nat) : nat := Nat.min 5 (Nat.max 2 (n / 10)).

(** The [catch] after [kmeans]: [n] random assignments, then [2 * k] draws
    for centroids nobody reads. A [NaN] assignment, equal to no cluster id,
    is written [-1]. *)
Definition random_assignments (n k : nat) (g : RNG) : list Z * RNG :=
  let (us, g1) := draw n g in
  let (_, g2) := draw (2 * k) g1 in
  (map (fun u => match floorZ (u * of_nat k)%float with
                 | Some z => z
                 | None => (-1)%Z
                 end) us, g2).

Definition cluster_assignments (validCoordinates : list vec) (n k : nat) (g : RNG)
  : list Z * RNG :=
  match kmeans validCoordinates k 10 g with
  | (Ok r, g') => (res_assignments r, g')
  | (Throw _, g') => random_assignments n k g'
  end.

(** The loop that fills [clusterData.points]. *)
Definition make_points (n : nat) (texts : list string) (validCoordinates : list vec)
    (clusterAssignments : list Z) : list point :=
  flat_map (fun i =>
              if ((i <? length texts) && (i <? length validCoordinates)
                  && (i <? length clusterAssignments))%nat
              then [mkPoint i (nth i texts "") (nth i validCoordinates [])
                      (nth i clusterAssignments 0%Z)]
              else [])
           (seq 0 n).

(** [clusterTerms[t] = (clusterTerms[t] || 0) + 1]. *)
Fixpoint tally (clusterTerms : list (string * nat)) (t : string) : list (string * nat) :=
  match clusterTerms with
  | [] => [(t, 1)]
  | (k', c) :: rest =>
      if (k' =? t)%string then (k', S c) :: rest else (k', c) :: tally rest t
  end.

Definition cluster_terms (tfidf : MockTfIdf) (n : nat) (clusterPoints : list point)
  : list (string * nat) :=
  fold_left (fun acc p =>
               if (n <=? pt_id p)%nat then acc
               else fold_left (fun acc' t =>
                                 if truthy (term t) then tally acc' (term t) else acc')
                              (firstn 5 (listTerms tfidf (pt_id p))) acc)
            clusterPoints [].

(** One round of the loop that creates the cluster summaries. *)
Definition summarize (tfidf : MockTfIdf) (n : nat) (pts : list point) (i : nat)
  : summary :=
  let clusterPoints := filter (fun p => (pt_cluster p =? Z.of_nat i)%Z) pts in
  match map pt_text clusterPoints with
  | [] => mkSummary i None 0 ["Empty cluster"] ""
  | example :: _ =>
      let keyTerms :=
        map fst (firstn 5 (stable_sort (fun a b => (snd b <? snd a)%nat)
                             (Object_entries (cluster_terms tfidf n clusterPoints)))) in
      mkSummary i None (length clusterPoints)
        (match keyTerms with [] => ["No key terms found"] | _ => keyTerms end)
        example
  end.

Definition summaries (tfidf : MockTfIdf) (n : nat) (pts : list point) (k : nat)
  : list summary :=
  map (summarize tfidf n pts) (seq 0 k).

(** The four places where [clusterTexts] gives up and returns mock data,
    and the values computed in between. *)
Definition clusterTexts (data : option (list item)) (g : RNG)
  : option (cluster_data * RNG) :=
  match data with
  | None | Some [] => Some (generateMockClusteringData g)
  | Some data =>
      let texts := collect_texts data in
      if (length texts <? 2)%nat then Some (generateMockClusteringData g) else
      let processedTexts := collect_processed texts in
      let n := length processedTexts in
      if (n <? 2)%nat then Some (generateMockClusteringData g) else
      let tfidf := build_tfidf processedTexts in
      let termsList := collect_terms tfidf n in
      if (length termsList =? 0)%nat then Some (generateMockClusteringData g) else
      let docVectors := doc_vectors tfidf n in
      if (length docVectors <? 2)%nat then Some (generateMockClusteringData g) else
      match similarity_matrix docVectors with
      | None => None
      | Some similarityMatrix =>
          let distanceMatrix := distance_matrix similarityMatrix in
          let (mdsCoordinates, g1) := simpleMDS distanceMatrix 2 g in
          let validCoordinates := valid_coordinates mdsCoordinates in
          let k := cluster_count n in
          let (clusterAssignments, g2) := cluster_assignments validCoordinates n k g1 in
          let pts := make_points n texts validCoordinates clusterAssignments in
          Some (mkData pts (summaries tfidf n pts k) k, g2)
      end
  end.

(** *** [calculateMovingAverage] *)

(** An entry of a time series, [{ date, count }]. *)
Record bucket := mkBucket { bk_date : string; bk_count : float }.

(** The sum of [timeSeriesData.slice(i, i + window)]. *)
Definition window_sum (timeSeriesData : list bucket) (window i : nat) : float :=
  fold_left (fun acc item => (acc + bk_count item)%float)
            (firstn window (skipn i timeSeriesData)) zero.

(** [window] is a count. With [window = 0] the first round reads
    [timeSeriesData[-1].date]. *)
Definition calculateMovingAverage (timeSeriesData : list bucket) (window : nat)
  : result (list bucket) :=
  if (length timeSeriesData <? window)%nat then Ok []
  else
    mapM (fun i =>
            let avg := (window_sum timeSeriesData window i / of_nat window)%float in
            match (i + window)%nat with
            | S last =>
                match nth_error timeSeriesData last with
                | Some item => Ok (mkBucket (bk_date item) avg)
                | None => Throw TypeError
                end
            | O => Throw TypeError
            end)
         (seq 0 (length timeSeriesData - window + 1)).

(** *** [performTextClustering] *)

(** [data.filter(item => item && item.content).map(item => item.content)]. *)
Definition contents (data : list item) : list string :=
  flat_map (fun it =>
              match it with
              | Item (Some content) _ => if truthy content then [content] else []
              | _ => []
              end) data.

(** The terms in the order they are first listed. *)
Definition all_terms (tfidf : MockTfIdf) (n : nat) : list string :=
  fold_left (fun allTerms i =>
               fold_left (fun acc t => set_add acc (term t)) (listTerms tfidf i) allTerms)
            (seq 0 n) [].

(** [docVectors]: one array per document, one entry per term. *)
Definition term_vectors (tfidf : MockTfIdf) (termsList : list string) (n : nat)
  : list vec :=
  map (fun i => map (fun t => MockTfIdf_tfidf tfidf t i) termsList) (seq 0 n).

(** [cosineSimilarity] on two arrays: the loop runs [vecA.length] times. *)
Definition array_similarity (vecA vecB : vec) : float :=
  cosine_value (cosine_sums (length vecA) (Arr vecA) (Arr vecB)).

Definition array_similarities (docVectors : list vec) : matrix :=
  map (fun a => map (array_similarity a) docVectors) docVectors.

(** [Math.min(5, Math.max(3, Math.ceil(n / 15)))]. *)
Definition text_cluster_count (n : nat) : nat := Nat.min 5 (Nat.max 3 ((n + 14) / 15)).

(** [s.substring(0, 100) + (s.length > 100 ? '...' : '')]. *)
Definition preview (s : string) : string :=
  (substring 0 100 s ++ if (100 <? String.length s)%nat then "..." else "")%string.

(** The ten most frequent tokens. [None]: a token names an inherited
    property, so that its count is not a number and the comparisons of the
    sort are not consistent. *)
Definition frequent_terms (tokens : list string) : option (list string) :=
  if existsb (includes inherited_names) tokens then None
  else Some (map fst (firstn 10 (stable_sort (fun a b => (snd b <? snd a)%nat)
                                   (Object_entries (fold_left tally tokens []))))).

Record text_point := mkTextPoint {
  tp_x : float;
  tp_y : float;
  tp_text : string;
  tp_fullText : string;
  tp_cluster : Z
}.

Record cluster_info := mkClusterInfo {
  ci_id : nat;
  ci_name : string;
  ci_keyTerms : option (list string);
  ci_count : nat
}.

Record text_clustering := mkTextClustering {
  tc_points : list text_point;
  tc_clusters : list cluster_info;
  tc_num_clusters : nat;
  tc_terms : list string
}.

(** The tokens of the documents assigned to cluster [c], in the order of
    the documents. *)
Definition cluster_tokens (texts : list string) (clusterAssignments : list Z) (c : nat)
  : list string :=
  flat_map (fun ia => if (snd ia =? Z.of_nat c)%Z
                      then tokenize (nth (fst ia) texts "") else [])
           (combine (seq 0 (length clusterAssignments)) clusterAssignments).

(** The promise of [performTextClustering]: [Throw] is a rejection. [data]
    is [None] when it is not an array. *)
Definition performTextClustering (data : option (list item)) (g : RNG)
  : result text_clustering * RNG :=
  match data with
  | None => (Throw (Error "Invalid data format. Expected array."), g)
  | Some data =>
      let rawTexts := contents data in
      let texts := map preprocessText rawTexts in
      let tfidf := build_tfidf texts in
      let termsList := all_terms tfidf (length texts) in
      let docVectors := term_vectors tfidf termsList (length texts) in
      let similarityMatrix := array_similarities docVectors in
      let (mds, g1) := simpleMDS similarityMatrix 2 g in
      let k := text_cluster_count (length texts) in
      match kmeans mds k 10 g1 with
      | (Throw e, g2) => (Throw e, g2)
      | (Ok clusters, g2) =>
          let clusterAssignments := res_assignments clusters in
          let coords :=
            map (fun ip => (get (nth (fst ip) mds []) 0, get (nth (fst ip) mds []) 1,
                            preview (snd ip), snd ip))
                (combine (seq 0 (length docVectors)) rawTexts) in
          let clusterData :=
            map (fun ic =>
                   let '(x, y, text, fullText) := snd ic in
                   mkTextPoint x y text fullText (nth (fst ic) clusterAssignments (-1)%Z))
                (combine (seq 0 (length coords)) coords) in
          let clusters_info :=
            map (fun i =>
                   mkClusterInfo i ("Cluster " ++ of_index (i + 1))%string
                     (frequent_terms (cluster_tokens texts clusterAssignments i))
                     (cluster_size clusterAssignments i))
                (seq 0 k) in
          (Ok (mkTextClustering clusterData clusters_info k (firstn 100 termsList)), g2)
      end
  end.

(** *** [performSentimentAnalysis] *)

(** An item of [data]: its fields, strings when present. *)
Record message := mkMessage {
  msg_content : option string;
  msg_sender : option string;
  msg_intent : option string;
  msg_createdAt : option string;
  msg_botThreadId : option string
}.

(** [if (item.field) metadata.field = item.field]. *)
Definition if_truthy (field : option string) : option string :=
  match field with
  | Some s => if truthy s then Some s else None
  | None => None
  end.

Definition category_of (score : float) : string :=
  if (score <=? - 0x1.3333333333333p-1)%float then "Very Negative"
  else if (score <=? - 0x1.999999999999ap-3)%float then "Negative"
  else if (score <=? 0x1.999999999999ap-3)%float then "Neutral"
  else if (score <=? 0x1.3333333333333p-1)%float then "Positive"
  else "Very Positive".

Record sentiment_result := mkSentimentResult {
  sr_id : nat;
  sr_text : option string;
  sr_score : float;
  sr_category : string;
  sr_tokens : nat;
  sr_sender : option string;
  sr_intent : option string;
  sr_createdAt : option string;
  sr_threadId : option string
}.

Record group_average := mkGroupAverage {
  ga_key : string;
  ga_avgScore : float;
  ga_count : nat
}.

Record sentiment_analysis := mkSentimentAnalysis {
  sa_results : list sentiment_result;
  sa_categoryCounts : list (string * nat);
  sa_senderSentiment : list group_average;
  sa_intentSentiment : list group_average;
  sa_overallAvg : float
}.

(** [items.reduce((sum, item) => sum + item.score, 0) / items.length]. *)
Definition average_score (items : list sentiment_result) : float :=
  (fold_left (fun sum item => (sum + sr_score item)%float) items zero
   / of_nat (length items))%float.

(** The averages by sender or by intent: the distinct values of the field
    in the order of their first result. *)
Definition group_sentiment (field : sentiment_result -> option string)
    (results : list sentiment_result) : list group_average :=
  let keys := fold_left (fun acc item => match field item with
                                         | Some s => set_add acc s
                                         | None => acc
                                         end) results [] in
  map (fun key =>
         let items := filter (fun item => match field item with
                                          | Some s => (s =? key)%string
                                          | None => false
                                          end) results in
         mkGroupAverage key (average_score items) (length items))
      keys.

(** The body of [texts.map((text, index) => ...)]: the text analysed is the
    [index]-th text with a content, the item reported is [data[index]]. *)
Definition analyse_text (data : list message) (index : nat) (text : string) (g : RNG)
  : sentiment_result * RNG :=
  let tokens := tokenize text in
  let (score, g') := getSentiment tokens g in
  let item := nth index data (mkMessage None None None None None) in
  (mkSentimentResult index (msg_content item) score (category_of score) (length tokens)
     (if_truthy (msg_sender item)) (if_truthy (msg_intent item))
     (if_truthy (msg_createdAt item)) (if_truthy (msg_botThreadId item)), g').

Fixpoint analyse_texts (data : list message) (index : nat) (texts : list string) (g : RNG)
  : list sentiment_result * RNG :=
  match texts with
  | [] => ([], g)
  | text :: rest =>
      let (r, g1) := analyse_text data index text g in
      let (rs, g2) := analyse_texts data (S index) rest g1 in
      (r :: rs, g2)
  end.

Definition categories : list string :=
  ["Very Negative"; "Negative"; "Neutral"; "Positive"; "Very Positive"].

(** [data.filter(item => item.content).map(item => item.content)]. *)
Definition texts_of (data : list message) : list string :=
  flat_map (fun item => match if_truthy (msg_content item) with
                        | Some s => [s]
                        | None => []
                        end) data.

(** The promise of [performSentimentAnalysis]. [data] is [None] when it is
    not an array, and an item is [None] when it is [null] or [undefined],
    where [item.content] raises. *)
Definition performSentimentAnalysis (data : option (list (option message))) (g : RNG)
  : result sentiment_analysis * RNG :=
  match data with
  | None => (Throw (Error "Invalid data format. Expected array."), g)
  | Some data =>
      match mapM (fun item => match item with
                              | Some m => Ok m
                              | None => Throw TypeError
                              end) data with
      | Throw e => (Throw e, g)
      | Ok data =>
          let texts := texts_of data in
          let (results, g') := analyse_texts data 0 texts g in
          let categoryCounts :=
            map (fun cat =>
                   (cat, length (filter (fun item => (sr_category item =? cat)%string) results)))
                categories in
          (Ok (mkSentimentAnalysis results categoryCounts
                 (group_sentiment sr_sender results)
                 (group_sentiment sr_intent results)
                 (average_score results)), g')
      end
  end.

(** *** [performTopicModeling] *)

(** [Math.min(5, Math.max(3, Math.floor(n / 10)))], on a count. *)
Definition topic_count (n : nat) : nat := Nat.min 5 (Nat.max 3 (n / 10)).

(** [Math.floor(i * n / numTopics)], on counts: the document topic [i] is
    read from. *)
Definition topic_document (i n numTopics : nat) : nat := (i * n) / numTopics.

(** [words.some(w => w.includes(a) || w.includes(b))]. *)
Definition some_word (words stems : list string) : bool :=
  existsb (fun w => existsb (string_includes w) stems) words.

Definition topic_name (id : nat) (words : list string) : string :=
  if some_word words ["compan"; "cultur"] then "Company Culture"
  else if some_word words ["job"; "requir"] then "Job Requirements"
  else if some_word words ["salar"; "benefit"] then "Compensation & Benefits"
  else if some_word words ["skill"; "experi"] then "Skills & Experience"
  else if some_word words ["interview"] then "Interview Process"
  else if some_word words ["resume"; "applic"] then "Application Process"
  else if some_word words ["team"; "manag"] then "Team & Management"
  else ("Topic " ++ of_index id)%string.

Record topic := mkTopic {
  topic_id : nat;
  topic_label : string;
  topic_words : list string
}.

Record topic_model := mkTopicModel {
  tm_topics : list topic;
  tm_docTopicDist : list (list (nat * float));
  tm_processedTexts : list string
}.

(** [dist] for one text: for every topic, the share of its words that
    occur in the text. *)
Definition topic_shares (topics : list topic) (text : string) : list (nat * float) :=
  map (fun t =>
         let matchCount := length (filter (string_includes text) (topic_words t)) in
         (topic_id t, (of_nat matchCount / of_nat (length (topic_words t)))%float))
      topics.

(** The promise of [performTopicModeling]. [data] is [None] when it is not
    an array, and an item is [None] when it is [null] or [undefined], where
    [item.content] raises. *)
Definition performTopicModeling (data : option (list (option message)))
  : result topic_model :=
  match data with
  | None => Throw (Error "Invalid data format. Expected array.")
  | Some data =>
      match mapM (fun item => match item with
                              | Some m => Ok m
                              | None => Throw TypeError
                              end) data with
      | Throw e => Throw e
      | Ok data =>
          let texts := texts_of data in
          let processedTexts := map preprocessText texts in
          let tfidf := build_tfidf processedTexts in
          let numTopics := topic_count (length processedTexts) in
          let topics :=
            map (fun i =>
                   let docIndex := topic_document i (length processedTexts) numTopics in
                   let words := map term (firstn 10 (listTerms tfidf docIndex)) in
                   mkTopic i (topic_name i words) words)
                (seq 0 numTopics) in
          Ok (mkTopicModel topics (map (topic_shares topics) processedTexts) processedTexts)
      end
  end.

(** *** [analyzeSentiment] *)

(** [{ text, score, label }]. *)
Record scored := mkScored { sc_text : string; sc_score : float; sc_label : string }.

(** [score > 0.05 ? 'positive' : (score < -0.05 ? 'negative' : 'neutral')]. *)
Definition sentiment_label (score : float) : string :=
  if (0x1.999999999999ap-5 <? score)%float then "positive"
  else if (score <? - 0x1.999999999999ap-5)%float then "negative"
  else "neutral".

(** [item && typeof item === 'object' && (item.content || item.text)]. *)
Definition valid_item (it : item) : bool :=
  match it with
  | NotAnObject => false
  | Item content text => truthy (or_string content (or_string text ""))
  end.

(** The loop over [validData], with the analyzer of the wrapper. *)
Fixpoint analyze_items (validData : list item) (g : RNG) : list scored * RNG :=
  match validData with
  | [] => ([], g)
  | NotAnObject :: rest => analyze_items rest g
  | Item content text :: rest =>
      let text := or_string content (or_string text "") in
      if negb (truthy (trim text)) then analyze_items rest g
      else
        match tokenize (toLowerCase text) with
        | [] => analyze_items rest g
        | tokens =>
            let (score, g1) := getSentiment tokens g in
            let (results, g2) := analyze_items rest g1 in
            (mkScored text score (sentiment_label score) :: results, g2)
        end
  end.

(** [data] is [None] when it is not an array. *)
Definition analyzeSentiment (data : option (list item)) (g : RNG) : list scored * RNG :=
  match data with
  | None => ([], g)
  | Some data => analyze_items (filter valid_item data) g
  end.

End DataProcessing.

(* ================================================================= *)
(** ** The arithmetic of [normalizePoints]

    [normalizePoints] is written over the operations it uses;
    [float_arith] is the binary64 arithmetic the program runs it on. *)

Record arith (num : Type) := mkArith {
  num_zero : num;
  num_one : num;
  num_add : num -> num -> num;
  num_sub : num -> num -> num;
  num_mul : num -> num -> num;
  num_div : num -> num -> num;
  num_sqrt : num -> num;
  num_of_nat : nat -> num;
  num_truthy : num -> bool       (* not [0], [-0] or [NaN] *)
}.

Definition float_arith : arith float :=
  mkArith zero one PrimFloat.add PrimFloat.sub PrimFloat.mul PrimFloat.div
    PrimFloat.sqrt JS.of_nat (fun x => negb (is_zero x || is_nan x)).

Section Normalize.
Context {num : Type} (A : arith num).

Definition pair_map2 (f : num -> num -> num) (a b : num * num) : num * num :=
  (f (fst a) (fst b), f (snd a) (snd b)).

(** [mean[0] += point[0] / points.length], and the same for [mean[1]]. *)
Definition mean_of (points : list (num * num)) : num * num :=
  let n := num_of_nat A (length points) in
  fold_left (fun mean point =>
               pair_map2 (fun m x => num_add A m (num_div A x n)) mean point)
            points (num_zero A, num_zero A).

(** [variance[0] += Math.pow(point[0] - mean[0], 2) / points.length]. *)
Definition variance_of (mean : num * num) (points : list (num * num)) : num * num :=
  let n := num_of_nat A (length points) in
  fold_left (fun variance point =>
               pair_map2 (fun v d => num_add A v (num_div A (num_mul A d d) n))
                 variance (pair_map2 (num_sub A) point mean))
            points (num_zero A, num_zero A).

(** [s || 1]. *)
Definition or_one (s : num) : num := if num_truthy A s then s else num_one A.

(** The points after [normalizePoints(points)], which rewrites them in
    place. *)
Definition normalizePoints (points : list (num * num)) : list (num * num) :=
  match points with
  | [] => []
  | _ =>
      let mean := mean_of points in
      let variance := variance_of mean points in
      let std := (num_sqrt A (fst variance), num_sqrt A (snd variance)) in
      map (fun point =>
             (num_div A (num_sub A (fst point) (fst mean)) (or_one (fst std)),
              num_div A (num_sub A (snd point) (snd mean)) (or_one (snd std))))
          points
  end.

End Normalize.

(* ================================================================= *)
(** ** [textClustering.js] *)

Module TextClustering.
Import JS Str.

(** [if (!a || !b || a.length !== b.length) return Infinity], then the sum
    of squared differences and its square root. *)
Definition euclideanDistance (a : vec) (b : option vec) : result float :=
  match b with
  | None => Ok infinity
  | Some b =>
      if negb (length a =? length b)%nat then Ok infinity
      else Ok (Math_sqrt
                 (fold_left (fun sum ab =>
                               let diff := (fst ab - snd ab)%float in
                               (sum + diff * diff)%float)
                    (combine a b) zero))
  end.

(** [newCentroid[d] += vector[d] / assignedVectors.length], with
    [dims = assignedVectors[0].length]. *)
Definition average (assignedVectors : list vec) : vec :=
  let dims := length (hd [] assignedVectors) in
  map (fun d => fold_left (fun acc v =>
                  (acc + get v d / of_nat (length assignedVectors))%float)
                  assignedVectors zero)
      (seq 0 dims).

Definition not_enough (k : nat) : exn :=
  Error ("Not enough vectors for clustering. Need at least "
         ++ NilZero.string_of_uint (Nat.to_uint k) ++ " vectors.")%string.

Definition kMeansWithVectors_loop (vectors : list vec) (k iterations : nat) (g : RNG)
  : result loop_state * RNG :=
  if (length vectors <? k)%nat then (Throw (not_enough k), g)
  else cluster euclideanDistance average vectors k iterations g.

Definition kMeansWithVectors (vectors : list vec) (k iterations : nat) (g : RNG)
  : result kmeans_result * RNG :=
  returned (kMeansWithVectors_loop vectors k iterations g).

(** *** [tSNEProjection] *)

Definition point2 := (float * float)%type.

Section TSNE.

(** [Math.exp] and [Math.log], which binary64 arithmetic does not fix. *)
Variables Math_exp Math_log : float -> float.

Definition sum_list (l : list float) : float :=
  fold_left (fun a b => (a + b)%float) l zero.

(** [Math.exp(-distances[j] * distances[j] / (2 * sigma * sigma))], and [0]
    at [j = i]. *)
Definition kernel_row (distances : vec) (sigma : float) (i : nat) : vec :=
  map (fun jd => if (fst jd =? i)%nat then zero
                 else Math_exp (- snd jd * snd jd / (2 * sigma * sigma))%float)
      (combine (seq 0 (length distances)) distances).

Definition tiny : float := 0x1.b7cdfd9d7bdbbp-34%float.        (* 1e-10 *)
Definition tolerance : float := 0x1.47ae147ae147bp-7%float.    (* 0.01 *)

(** The entropy of the normalised row. *)
Definition row_entropy (probs : vec) : float :=
  let sum := sum_list probs in
  fold_left (fun entropy p =>
               let q := (p / sum)%float in
               if (tiny <? q)%float then (entropy - q * Math_log q)%float else entropy)
            probs zero.

(** The bisection of [findSigma]: [(sigmaMin, sigmaMax, sigma)] after at
    most [fuel] rounds. *)
Fixpoint bisect (fuel : nat) (distances : vec) (target : float) (i : nat)
    (st : float * float * float) : float :=
  let '(sigmaMin, sigmaMax, sigma) := st in
  match fuel with
  | O => sigma
  | S fuel' =>
      let entropy := row_entropy (kernel_row distances sigma i) in
      if (abs (entropy - target) <? tolerance)%float then sigma
      else if (entropy <? target)%float
           then bisect fuel' distances target i (sigma, sigmaMax, ((sigma + sigmaMax) / 2)%float)
           else bisect fuel' distances target i (sigmaMin, sigma, ((sigma + sigmaMin) / 2)%float)
  end.

Definition findSigma (distances : vec) (perplexity : float) (i : nat) : float :=
  bisect 50 distances (Math_log perplexity) i
    (0x1.a36e2eb1c432dp-14%float, 1000%float, 1%float).

Definition convertDistancesToProbabilities (distances : list vec) (perplexity : float)
  : list vec :=
  let n := length distances in
  let probs :=
    map (fun id =>
           let sigma := findSigma (snd id) perplexity (fst id) in
           let row := kernel_row (snd id) sigma (fst id) in
           let sum := sum_list row in
           map (fun p => (p / sum)%float) row)
        (combine (seq 0 n) distances) in
  map (fun i =>
         map (fun j => ((get (nth i probs []) j + get (nth j probs []) i)
                        / (2 * of_nat n))%float)
             (seq 0 n))
      (seq 0 n).

Definition sq_dist (p q : point2) : float :=
  (Math_pow2 (fst p - fst q) + Math_pow2 (snd p - snd q))%float.

Definition calculateGradient (points : list point2) (probs : list vec)
    (exaggeration : float) : list point2 :=
  let n := length points in
  let idx := combine (seq 0 n) points in
  let q := fun (ip jp : nat * point2) =>
             if (fst ip =? fst jp)%nat then zero
             else (1 / (1 + sq_dist (snd ip) (snd jp)))%float in
  let qSum :=
    fold_left (fun s ip =>
                 fold_left (fun s' jp =>
                              if (fst ip =? fst jp)%nat then s' else (s' + q ip jp)%float)
                           idx s)
              idx zero in
  map (fun ip =>
         fold_left (fun grad jp =>
                      if (fst ip =? fst jp)%nat then grad
                      else
                        let pij := (get (nth (fst ip) probs []) (fst jp) * exaggeration)%float in
                        let qij_val := (q ip jp / qSum)%float in
                        let factor := (4 * (pij - qij_val) * qij_val)%float in
                        ((fst grad + factor * (fst (snd ip) - fst (snd jp)))%float,
                         (snd grad + factor * (snd (snd ip) - snd (snd jp)))%float))
                   idx (zero, zero))
      idx.

Definition learningRate : float := 100%float.
Definition earlyExaggeration : float := 12%float.

(** One round of the main loop; [iter < iterations / 5] is decided on the
    integers. *)
Definition tsne_step (probs : list vec) (iterations : nat) (points : list point2)
    (iter : nat) : list point2 :=
  let gradient :=
    calculateGradient points probs
      (if (5 * iter <? iterations)%nat then earlyExaggeration else 1%float) in
  let moved :=
    map (fun pg => ((fst (fst pg) - learningRate * fst (snd pg))%float,
                    (snd (fst pg) - learningRate * snd (snd pg))%float))
        (combine points gradient) in
  if (iter mod 50 =? 0)%nat then normalizePoints float_arith moved else moved.

Fixpoint random_points2 (n : nat) (g : RNG) : list point2 * RNG :=
  match n with
  | O => ([], g)
  | S n' =>
      let (u, g1) := Math_random g in
      let (v, g2) := Math_random g1 in
      let (rest, g3) := random_points2 n' g2 in
      (((u * 0x1.a36e2eb1c432dp-14)%float, (v * 0x1.a36e2eb1c432dp-14)%float) :: rest, g3)
  end.

(** [Math.min(30, Math.max(5, Math.floor(n / 5)))]. *)
Definition perplexity_of (n : nat) : nat := Nat.min 30 (Nat.max 5 (n / 5)).

Definition distance_of (a b : vec) : float :=
  match euclideanDistance a (Some b) with Ok d => d | Throw _ => infinity end.

Definition tSNEProjection (vectors : list vec) (iterations : nat) (g : RNG)
  : list point2 * RNG :=
  match vectors with
  | [] => ([], g)
  | _ =>
      let distances := map (fun a => map (distance_of a) vectors) vectors in
      let probs :=
        convertDistancesToProbabilities distances (of_nat (perplexity_of (length vectors))) in
      let (points, g') := random_points2 (length vectors) g in
      (normalizePoints float_arith
         (fold_left (tsne_step probs iterations) (seq 0 iterations) points), g')
  end.

End TSNE.

(** *** The cluster statistics of [processVectorData] *)

(** A point after the update: its text and its cluster. *)
Record labelled := mkLabelled { lb_text : string; lb_cluster : Z }.

Record statistics := mkStatistics {
  st_id : nat;
  st_size : nat;
  st_keyTerms : list string;
  st_samples : list string
}.

Definition is_word_char (c : ascii) : bool := is_alnum c || (nat_of_ascii c =? 95)%nat.

(** [s.split(/\W+/)], empty pieces at both ends included. *)
Fixpoint split_nonword (in_run : bool) (cur : string) (s : string) : list string :=
  match s with
  | EmptyString => [cur]
  | String c s' =>
      if is_word_char c then split_nonword false (cur ++ String c "")%string s'
      else if in_run then split_nonword true cur s'
      else cur :: split_nonword true "" s'
  end.

Definition long_words (text : string) : list string :=
  filter (fun w => (3 <? String.length w)%nat)
         (split_nonword false "" (toLowerCase text)).

(** [wordCounts[word] = (wordCounts[word] || 0) + 1], for words that name
    no inherited property (for the word "constructor" the count becomes a
    string and the order of the key terms is left to the engine; sizes,
    ids and samples are not affected). *)
Definition word_counts (clusterPoints : list labelled) : list (string * nat) :=
  fold_left (fun counts p => fold_left DataProcessing.tally (long_words (lb_text p)) counts)
            clusterPoints [].

(** The loop [for (let c = 0; c < k; c++)]: an empty cluster is skipped. *)
Definition cluster_statistics (updatedPoints : list labelled) (k : nat)
  : list statistics :=
  flat_map (fun c =>
              match filter (fun p => (lb_cluster p =? Z.of_nat c)%Z) updatedPoints with
              | [] => []
              | clusterPoints =>
                  [mkStatistics c (length clusterPoints)
                     (map fst (firstn 10
                        (NaturalWrapper.stable_sort (fun a b => (snd b <? snd a)%nat)
                           (NaturalWrapper.Object_entries (word_counts clusterPoints)))))
                     (map lb_text (firstn 5 clusterPoints))]
              end)
           (seq 0 k).

(** [data.points], each with its text and its vector, and
    [data.clusterCount]. *)
Record vector_data := mkVectorData {
  vd_points : list (string * vec);
  vd_clusterCount : option nat
}.

Record vector_result := mkVectorResult {
  vr_points : list (string * vec * point2 * Z);
  vr_clusters : list statistics;
  vr_clusterCount : nat
}.

(** [data.clusterCount || 5]. *)
Definition requested_clusters (clusterCount : option nat) : nat :=
  match clusterCount with
  | Some 0 | None => 5
  | Some k => k
  end.

Section ProcessVectorData.
Variables Math_exp Math_log : float -> float.

Definition processVectorData (data : vector_data) (g : RNG)
  : result vector_result * RNG :=
  match vd_points data with
  | [] => (Throw (Error "Invalid data for vector processing"), g)
  | _ =>
      let vectors := map snd (vd_points data) in
      let (coords, g1) := tSNEProjection Math_exp Math_log vectors 1000 g in
      let k := requested_clusters (vd_clusterCount data) in
      match kMeansWithVectors vectors k 50 g1 with
      | (Throw e, g2) => (Throw e, g2)
      | (Ok r, g2) =>
          let assignments := res_assignments r in
          let updatedPoints :=
            map (fun x => (fst (fst x), snd (fst x), fst (snd x), snd (snd x)))
                (combine (vd_points data) (combine coords assignments)) in
          let clusters :=
            cluster_statistics
              (map (fun x => mkLabelled (fst (fst (fst x))) (snd x)) updatedPoints) k in
          (Ok (mkVectorResult updatedPoints clusters (length clusters)), g2)
      end
  end.

(** [data] as a caller may pass it: every point with its [vector], as
    above, or the first point without one, whatever the other points are.
    (A vector that is missing on a later point only is not covered: the
    clusterer then reads a coordinate of [undefined].) *)
Inductive vector_input :=
  | WithVectors (data : vector_data)
  | FirstVectorMissing (text : string) (others : list (string * option vec))
      (clusterCount : option nat).

(** [processVectorData] with the test [if (!vectors[0])] between the test
    of [data.points] and the projection. *)
Definition processVectorData_checked (input : vector_input) (g : RNG)
  : result vector_result * RNG :=
  match input with
  | FirstVectorMissing _ _ _ => (Throw (Error "No vector data found"), g)
  | WithVectors data => processVectorData data g
  end.

End ProcessVectorData.

End TextClustering.

(* ================================================================= *)
(** * Vocabulary of the statements *)

(** ** Classes of binary64 values *)

(** [r] is not [NaN] and has the sign [sx]. *)
Definition sf_signed (sx : bool) (r : spec_float) : Prop :=
  match r with
  | S754_nan => False
  | S754_zero s | S754_infinity s | S754_finite s _ _ => s = sx
  end.

Definition sf_fin (r : spec_float) : Prop :=
  match r with S754_zero _ | S754_finite _ _ _ => True | _ => False end.

Definition nonnan (x : float) : Prop := is_nan x = false.
Definition fin_num (x : float) : Prop := is_finite x = true.
Definition non_negative (x : float) : Prop := sf_signed false (Prim2SF x).

(** ** Clusterings *)

Definition in_range (k : nat) (a : Z) : Prop := (0 <= a < Z.of_nat k)%Z.

(** The member counts of the clusters [0 .. k - 1], added up. *)
Definition total_size (assignments : list Z) (k : nat) : nat :=
  list_sum (map (cluster_size assignments) (seq 0 k)).

(** What holds of the variables of the main loop, for centroids in [C]. *)
Definition loop_inv (C : option vec -> Prop) (points : list vec) (k : nat)
    (st : loop_state) : Prop :=
  length (centroids st) = k /\ Forall C (centroids st)
  /\ length (assignments st) = length points
  /\ Forall (in_range k) (assignments st).

(** The last pass left every assignment as it was. *)
Definition last_pass_idle (dist : vec -> option vec -> result float)
    (new_centroid : list vec -> vec) (points : list vec) (k : nat)
    (st : loop_state) : Prop :=
  exists prev, lloyd_step dist new_centroid points k prev = Ok st
               /\ assignments prev = assignments st.

(** Input vectors: one dimension, fin_num coordinates. *)
Definition well_formed (dim : nat) (points : list vec) : Prop :=
  Forall (fun p => length p = dim /\ Forall fin_num p) points.

(** The first draw of [g] selects an element of [points]. *)
Definition seed_in_range (points : list vec) (g : RNG) : bool :=
  match JS.floor_index (draws g (cursor g) * JS.of_nat (length points))%float with
  | Some i => (i <? length points)%nat
  | None => false
  end.

(** No coordinate overflows when it is divided by a member count. *)
Definition averages_finite (points : list vec) : bool :=
  forallb (fun p =>
    forallb (fun x =>
      forallb (fun m => is_finite (x / JS.of_nat m)%float) (seq 1 (length points))) p)
    points.

(** The state at the [return] of a clusterer whose loop body is [step]. *)
Definition settled (step : loop_state -> result loop_state) (n k maxIterations : nat)
    (st : loop_state) : Prop :=
  (iterations st <= maxIterations)%nat
  /\ ((iterations st < maxIterations)%nat -> changed st = false)
  /\ (changed st = false ->
      exists prev, step prev = Ok st /\ assignments prev = assignments st)
  /\ length (centroids st) = k
  /\ length (assignments st) = n
  /\ Forall (fun a => (0 <= a < Z.of_nat k)%Z) (assignments st)
  /\ list_sum (map (cluster_size (assignments st)) (seq 0 k)) = n.

Definition good_point (dim : nat) (p : vec) : Prop :=
  length p = dim /\ Forall fin_num p.
Definition good_centroid (dim : nat) (c : option vec) : Prop :=
  match c with
  | Some c => length c = dim /\ Forall nonnan c
  | None => False
  end.

Definition good_vector (dim n : nat) (p : vec) : Prop :=
  length p = dim /\ Forall fin_num p
  /\ Forall (fun x => forall m, (1 <= m <= n)%nat -> fin_num (x / JS.of_nat m)) p.
Definition fair_centroid (c : option vec) : Prop :=
  match c with
  | Some c => Forall nonnan c
  | None => True
  end.

(** ** Documents *)

(** The documents [clusterTexts] can use: non-empty after preprocessing. *)
Definition usable_documents (data : list DataProcessing.item) : list string :=
  DataProcessing.collect_processed (DataProcessing.collect_texts data).

(** The distinct terms of the usable documents. *)
Definition vocabulary (data : list DataProcessing.item) : list string :=
  DataProcessing.collect_terms (DataProcessing.build_tfidf (usable_documents data))
    (length (usable_documents data)).

(** An object vector without a property named [length]. *)
Definition no_length_property (v : DataProcessing.jsvec) : Prop :=
  match v with
  | DataProcessing.Obj o => DataProcessing.prop o "length" = None
  | DataProcessing.Arr _ => False
  end.

(** The summary written for a cluster without documents. *)
Definition placeholder (i : nat) : DataProcessing.summary :=
  DataProcessing.mkSummary i None 0 ["Empty cluster"] "".

(** The points [processVectorData] hands to its statistics loop. *)
Definition label (texts : list (string * vec)) (assignments : list Z)
  : list TextClustering.labelled :=
  map (fun ta => TextClustering.mkLabelled (fst (fst ta)) (snd ta))
      (combine texts assignments).

(** ** Vectors and layouts *)

(** Every entry is [0] or [-0]. *)
Definition zero_vector (v : list float) : Prop :=
  Forall (fun x => x = zero \/ x = neg_zero) v.

(** The sum of squares as [cosineSimilarity] accumulates it. *)
Definition squared_norm (v : list float) : float :=
  fold_left (fun s x => (s + x * x)%float) v zero.

(** The real number a binary64 value stands for; an infinity and [NaN]
    stand for none, and are given 0. *)
Definition SF2R (x : spec_float) : R :=
  match x with
  | S754_finite s m e => ((if s then - IZR (Z.pos m) else IZR (Z.pos m)) * powerRZ 2 e)%R
  | _ => 0%R
  end.

Definition real_of (x : float) : R := SF2R (Prim2SF x).

(** A number between 2^-900 and 2^900: far from underflow and overflow. *)
Definition moderate (x : float) : bool := ((0x1p-900 <=? x) && (x <=? 0x1p+900))%float.

(** Mean and standard deviation of one axis of a layout, and the test of
    the specification: mean within 0.05 of 0, deviation within 0.05 of 1. *)
Definition axis_mean (xs : list float) : float :=
  (fold_left (fun s x => (s + x)%float) xs zero / JS.of_nat (length xs))%float.

Definition axis_deviation (xs : list float) : float :=
  let m := axis_mean xs in
  PrimFloat.sqrt
    (fold_left (fun s x => (s + (x - m) * (x - m))%float) xs zero
     / JS.of_nat (length xs))%float.

Definition tolerance : float := 0x1.999999999999ap-5%float.   (* 0.05 *)

Definition axis_standardized (xs : list float) : bool :=
  (abs (axis_mean xs) <=? tolerance)%float
  && (abs (axis_deviation xs - 1) <=? tolerance)%float.

Definition standardized (layout : list vec) : bool :=
  axis_standardized (map (fun p => JS.get p 0) layout)
  && axis_standardized (map (fun p => JS.get p 1) layout).

(** ** Tokens *)

(** A token that the filter of [preprocessText] keeps and the stemmer
    leaves as it is. *)
Definition stable_token (t : string) : Prop :=
  DataProcessing.keep_token t = true /\ NaturalWrapper.stem t = t.

(** A non-empty string without white space. *)
Definition word (t : string) : Prop :=
  t <> "" /\ Str.all_chars (fun c => negb (Str.is_space c)) t = true.

(** ** Further vocabulary *)

(** Two binary64 values that differ at most in their sign. *)
Definition same_size (u v : spec_float) : Prop := u = v \/ u = SFopp v.

(** A cluster id below [m], or the [-1] that [indexOf] gives when it finds
    nothing. *)
Definition near_range (m : nat) (a : Z) : Prop := (-1 <= a < Z.of_nat m)%Z.

(** A digit or a lower-case letter; the characters of a preprocessed text. *)
Definition lower_alnum (c : ascii) : bool :=
  let n := nat_of_ascii c in
  ((48 <=? n) && (n <=? 57) || (97 <=? n) && (n <=? 122))%nat.

Definition plain_char (c : ascii) : bool :=
  lower_alnum c || (nat_of_ascii c =? 32)%nat.

(** The counter [terms[w][i]] of a word with a key of its own, and 0
    without one. *)
Definition counter (ts : list (string * list (nat * nat))) (w : string) (i : nat) : nat :=
  match find (fun kv => (fst kv =? w)%string) ts with
  | Some kv => NaturalWrapper.count_in i (snd kv)
  | None => 0
  end.

(** [Math.floor(u * n)] is an index below [n]. *)
Definition draw_selects (n : nat) (u : float) : bool :=
  match JS.floor_index (u * JS.of_nat n)%float with
  | Some i => (i <? n)%nat
  | None => false
  end.

(** No document has the word [__proto__]: the one word whose counter
    [addDocument] would write to [Object.prototype] itself, where every
    array of counters inherits it. A preprocessed text has no such word. *)
Definition proto_free (ds : list string) : Prop :=
  Forall (fun d => ~ In "__proto__" (NaturalWrapper.tokenize d)) ds.

(** Topic [i] of a topic model, and the share of topic [i] in document
    [d]: [docTopicDist[d][i]]. *)
Definition topic_at (r : DataProcessing.topic_model) (i : nat) : DataProcessing.topic :=
  nth i (DataProcessing.tm_topics r) (DataProcessing.mkTopic 0 "" []).

Definition share (r : DataProcessing.topic_model) (d i : nat) : float :=
  snd (nth i (nth d (DataProcessing.tm_docTopicDist r) []) (0%nat, nan)).

(** ** The bisection of [findSigma] for two points

    With two points each row of distances has one neighbour, the entropy of
    the normalised row is 0 and [sigma] moves up in every round. *)

(** The argument of [Math.exp] for the distance [d]. *)
Definition kernel_exponent (d sigma : float) : float :=
  (- d * d / (2 * sigma * sigma))%float.

(** [sigma] after [fuel] rounds that all move up. *)
Fixpoint sigma_up (fuel : nat) (sigmaMax sigma : float) : float :=
  match fuel with
  | O => sigma
  | S fuel' => sigma_up fuel' sigmaMax ((sigma + sigmaMax) / 2)%float
  end.

(** The arguments [Math.exp] is called on in those rounds. *)
Fixpoint exponents_up (fuel : nat) (d sigmaMax sigma : float) : list float :=
  match fuel with
  | O => []
  | S fuel' =>
      kernel_exponent d sigma :: exponents_up fuel' d sigmaMax ((sigma + sigmaMax) / 2)%float
  end.

(** A number between -13 and 0, and a number above 0 and up to 1: what
    [Math.exp] returns on the former. *)
Definition small_exponent (x : float) : bool := ((-13 <=? x) && (x <=? 0))%float.
Definition probability (p : float) : bool := ((0 <? p) && (p <=? 1))%float.

(** ** Concrete inputs *)

(** A generator whose every draw is 0.5. *)
Definition even_rng : RNG := mkRNG (fun _ => 0x1p-1%float) 0.


(** Two points of the line. *)
Definition segment : list vec := [[0]; [2]]%float.

(** A single point of the plane. *)
Definition lone_point : list vec := [[0; 0]]%float.

(** A document list with one usable document. *)
Definition one_document : option (list DataProcessing.item) :=
  Some [DataProcessing.Item (Some "hello world") None].

(** Two documents, the first of which contains the word "length". *)
Definition length_documents : list DataProcessing.item :=
  [DataProcessing.Item (Some "length matters here") None;
   DataProcessing.Item None (Some "quantum states entangled")].

(** Two documents without that word. *)
Definition plain_documents : list DataProcessing.item :=
  [DataProcessing.Item (Some "the cats sat on mats") None;
   DataProcessing.Item None (Some "quantum states entangled")].

(** The document vectors [clusterTexts] builds for [data]. *)
Definition document_vectors (data : list DataProcessing.item) : list DataProcessing.jsvec :=
  let processedTexts :=
    DataProcessing.collect_processed (DataProcessing.collect_texts data) in
  DataProcessing.doc_vectors (DataProcessing.build_tfidf processedTexts)
    (length processedTexts).

(** Three equal vectors, each with its text. *)
Definition three_alike : list (string * vec) :=
  [("first note", [1%float]); ("second note", [1%float]); ("third note", [1%float])].

(** A generator whose third draw is 0.625 and whose other draws are 0.875. *)
Definition skewed_rng : RNG :=
  mkRNG (fun i => match i with 2 => 0x1.4p-1 | _ => 0x1.cp-1 end%float) 0.

(** The similarity matrix of two unrelated documents. *)
Definition unrelated : DataProcessing.matrix := [[1; 0]; [0; 1]]%float.

(** ** Further examples *)

(** Two vectors of different lengths, one with a [NaN]. *)
Definition ragged : list vec := [[nan]; [1; 2]]%float.

(** Three days of a time series. *)
Definition three_days : list DataProcessing.bucket :=
  [DataProcessing.mkBucket "2024-01-01" 2; DataProcessing.mkBucket "2024-01-02" 4;
   DataProcessing.mkBucket "2024-01-03" 9]%float.

(** An item without a content in front of one with a content. *)
Definition shifted_messages : list DataProcessing.message :=
  [DataProcessing.mkMessage None (Some "bot") None None None;
   DataProcessing.mkMessage (Some "good") (Some "candidate") None None None].

(** Three documents, the first of which holds stopwords only. *)
Definition dropped_text : list DataProcessing.item :=
  [DataProcessing.Item (Some "the and") None;
   DataProcessing.Item (Some "cats purr") None;
   DataProcessing.Item (Some "dogs bark") None].

(** One document. *)
Definition lone_document : list DataProcessing.item :=
  [DataProcessing.Item (Some "cats like mats") None].

(** Two functions with the values the proofs ask of [Math.exp] and
    [Math.log]: 1 everywhere, and 0 at 1 and 1.5 elsewhere. *)
Definition flat_exp (x : float) : float := one.
Definition step_log (x : float) : float := if (x =? 1)%float then zero else 0x1.8p0%float.
(* ================================================================= *)
(** * Binary64 arithmetic: which operations can produce [NaN] *)

Lemma shr_1_nonneg mrs : (0 <= shr_m mrs)%Z -> (0 <= shr_m (shr_1 mrs))%Z.
Proof.
  destruct mrs as [m r s]; simpl.
  destruct m as [|p|p]; simpl; try lia; destruct p; simpl; lia.
Qed.

Lemma iter_pos_inv {A} (P : A -> Prop) (f : A -> A) :
  (forall x, P x -> P (f x)) -> forall n x, P x -> P (SpecFloat.iter_pos f n x).
Proof.
  intros Hf; induction n; simpl; intros x Hx; auto.
Qed.

Lemma shr_nonneg mrs e n :
  (0 <= shr_m mrs)%Z -> (0 <= shr_m (fst (shr mrs e n)))%Z.
Proof.
  intros H; destruct n; simpl; auto.
  apply (iter_pos_inv (fun r => (0 <= shr_m r)%Z)); auto using shr_1_nonneg.
Qed.

Lemma shr_record_of_loc_m m l : shr_m (shr_record_of_loc m l) = m.
Proof. destruct l as [|[]]; reflexivity. Qed.

Lemma shr_fexp_nonneg m e l :
  (0 <= m)%Z -> (0 <= shr_m (fst (shr_fexp prec emax m e l)))%Z.
Proof.
  intros H; unfold shr_fexp; apply shr_nonneg; now rewrite shr_record_of_loc_m.
Qed.

Lemma round_nearest_even_nonneg m l : (0 <= m)%Z -> (0 <= round_nearest_even m l)%Z.
Proof.
  intros H; destruct l as [|[]]; simpl; try lia; destruct (Z.even m); lia.
Qed.

Lemma binary_round_aux_signed sx mx ex lx :
  (0 <= mx)%Z -> sf_signed sx (binary_round_aux prec emax sx mx ex lx).
Proof.
  intros H; unfold binary_round_aux.
  pose proof (shr_fexp_nonneg ex lx H) as H1.
  destruct (shr_fexp prec emax mx ex lx) as [mrs' e']; simpl in H1.
  pose proof (shr_fexp_nonneg e' loc_Exact
                (round_nearest_even_nonneg (loc_of_shr_record mrs') H1)) as H2.
  destruct (shr_fexp prec emax _ e' loc_Exact) as [mrs'' e'']; simpl in H2.
  destruct (shr_m mrs''); unfold sf_signed; try reflexivity; try lia.
  destruct (e'' <=? emax - prec)%Z; reflexivity.
Qed.


Lemma sf_signed_nonnan sx r : sf_signed sx r -> r <> S754_nan.
Proof. destruct r; simpl; congruence. Qed.

Lemma is_nan_spec x : is_nan x = false <-> Prim2SF x <> S754_nan.
Proof.
  unfold Prim2SF. destruct (is_nan x); split; try congruence.
  - intros _. destruct (is_zero x); [discriminate|].
    destruct (is_infinity x); [discriminate|].
    destruct (Z.frexp x) as [r e].
    destruct (shr_fexp _ _ _ _ _) as [s e'].
    destruct (shr_m s); discriminate.
Qed.

Lemma is_finite_spec x : is_finite x = true -> sf_fin (Prim2SF x).
Proof.
  unfold is_finite, Prim2SF. destruct (is_nan x); simpl; [discriminate|].
  destruct (is_infinity x); simpl; [discriminate|]. intros _.
  destruct (is_zero x); simpl; auto.
  destruct (Z.frexp x) as [r e].
  destruct (shr_fexp _ _ _ _ _) as [s e'].
  destruct (shr_m s); simpl; auto.
Qed.

Lemma binary_normalize_nonnan m e : binary_normalize prec emax m e false <> S754_nan.
Proof.
  destruct m as [|p|p]; simpl; try discriminate; unfold binary_round;
    destruct (shl_align _ _ _) as [mz ez];
    eapply sf_signed_nonnan, binary_round_aux_signed; lia.
Qed.

Lemma SFsub_nonnan a b :
  sf_fin a -> b <> S754_nan -> SF64sub a b <> S754_nan.
Proof.
  unfold SF64sub, SFsub.
  destruct a as [sa|sa| |sa ma ea], b as [sb|sb| |sb mb eb]; simpl;
    try contradiction; try congruence; intros _ _.
  - destruct sa, sb; discriminate.
  - apply binary_normalize_nonnan.
Qed.

Lemma SFmul_self a : a <> S754_nan -> sf_signed false (SF64mul a a).
Proof.
  unfold SF64mul, SFmul. destruct a as [s|s| |s m e]; simpl; try congruence; intros _.
  - now destruct s.
  - now destruct s.
  - replace (xorb s s) with false by now destruct s.
    apply binary_round_aux_signed; lia.
Qed.

Lemma SFadd_pos a b :
  sf_signed false a -> sf_signed false b -> sf_signed false (SF64add a b).
Proof.
  unfold SF64add, SFadd.
  destruct a as [sa|sa| |sa ma ea], b as [sb|sb| |sb mb eb]; simpl;
    try contradiction; intros -> ->; simpl; auto.
  unfold binary_normalize.
  destruct (shl_align ma ea _) as [m1 e1], (shl_align mb eb _) as [m2 e2]; simpl.
  unfold binary_round. destruct (shl_align _ _ _) as [mz ez].
  apply binary_round_aux_signed; lia.
Qed.

Lemma SFadd_fin a b : a <> S754_nan -> sf_fin b -> SF64add a b <> S754_nan.
Proof.
  unfold SF64add, SFadd.
  destruct a as [sa|sa| |sa ma ea], b as [sb|sb| |sb mb eb]; simpl;
    try contradiction; try congruence; intros _ _.
  - destruct sa, sb; discriminate.
  - apply binary_normalize_nonnan.
Qed.

Lemma SFsqrt_pos a : sf_signed false a -> SF64sqrt a <> S754_nan.
Proof.
  unfold SF64sqrt, SFsqrt.
  destruct a as [s|s| |s m e]; simpl; try contradiction; intros ->; try discriminate.
  destruct (SFsqrt_core_binary prec emax (Z.pos m) e) as [[mz ez] lz] eqn:E.
  eapply sf_signed_nonnan, binary_round_aux_signed.
  unfold SFsqrt_core_binary in E.
  match type of E with context [Z.sqrtrem ?a] =>
    pose proof (Z.sqrtrem_sqrt a) as HS; pose proof (Z.sqrt_nonneg a) as HN;
    destruct (Z.sqrtrem a) as [q r] end.
  inversion E; subst. simpl in HS. now rewrite HS.
Qed.

Lemma SFdiv_fin a sb mb eb :
  a <> S754_nan -> SF64div a (S754_finite sb mb eb) <> S754_nan.
Proof.
  unfold SF64div, SFdiv.
  destruct a as [sa|sa| |sa ma ea]; simpl; try congruence; intros _.
  destruct (SFdiv_core_binary prec emax (Z.pos ma) ea (Z.pos mb) eb) as [[mz ez] lz] eqn:E.
  eapply sf_signed_nonnan, binary_round_aux_signed.
  unfold SFdiv_core_binary in E.
  match type of E with context [Z.div_eucl ?a ?b] =>
    pose proof (Z.div_pos a b) as HD; unfold Z.div in HD;
    destruct (Z.div_eucl a b) as [q r] eqn:Q end.
  inversion E; subst. apply HD; [|lia].
  destruct (_ - _ - _)%Z; try lia. apply Z.shiftl_nonneg. lia.
Qed.

Lemma binary_round_aux_canonical s m e :
  canonical_mantissa prec emax m e = true -> (e <=? emax - prec)%Z = true ->
  binary_round_aux prec emax s (Z.pos m) e loc_Exact = S754_finite s m e.
Proof.
  unfold canonical_mantissa. intros Hc He. apply Z.eqb_eq in Hc.
  unfold binary_round_aux, shr_fexp. simpl Zdigits2.
  rewrite Hc, Z.sub_diag. cbn [shr shr_record_of_loc shr_m loc_of_shr_record round_nearest_even Zdigits2].
  rewrite Hc, Z.sub_diag. cbn [shr shr_m shr_record_of_loc].
  now rewrite He.
Qed.

Lemma digits2_pos_lower p : (2 ^ (Z.pos (digits2_pos p) - 1) <= Z.pos p)%Z.
Proof.
  induction p; simpl digits2_pos.
  - rewrite Pos2Z.inj_succ. replace (Z.succ (Z.pos (digits2_pos p)) - 1)%Z
      with (Z.succ (Z.pos (digits2_pos p) - 1))%Z by lia.
    rewrite Z.pow_succ_r by lia. lia.
  - rewrite Pos2Z.inj_succ. replace (Z.succ (Z.pos (digits2_pos p)) - 1)%Z
      with (Z.succ (Z.pos (digits2_pos p) - 1))%Z by lia.
    rewrite Z.pow_succ_r by lia. lia.
  - simpl. lia.
Qed.

Lemma digits2_pos_iter p k :
  digits2_pos (Pos.iter xO p k) = (digits2_pos p + k)%positive.
Proof.
  induction k using Pos.peano_ind.
  - simpl. lia.
  - rewrite Pos.iter_succ. simpl. rewrite IHk. lia.
Qed.

Lemma binary_round_small p :
  (Z.pos p < 2 ^ 53)%Z ->
  exists m e, binary_round prec emax false p 0 = S754_finite false m e.
Proof.
  intros Hp. pose proof (digits2_pos_lower p) as Hd.
  assert (Hle : (Z.pos (digits2_pos p) <= 53)%Z).
  { destruct (Z_le_gt_dec (Z.pos (digits2_pos p)) 53) as [|Hgt]; auto.
    assert (2 ^ 53 <= 2 ^ (Z.pos (digits2_pos p) - 1))%Z
      by (apply Z.pow_le_mono_r; lia). lia. }
  unfold binary_round, shl_align.
  assert (Hf : fexp prec emax (Z.pos (digits2_pos p) + 0) = (Z.pos (digits2_pos p) - 53)%Z).
  { unfold fexp, emin, prec, emax. lia. }
  rewrite Hf.
  destruct (Z.pos (digits2_pos p) - 53 - 0)%Z as [|q|q] eqn:E; try lia.
  - eexists _, _. apply binary_round_aux_canonical.
    + unfold canonical_mantissa. apply Z.eqb_eq. rewrite Hf. lia.
    + reflexivity.
  - eexists _, _. apply binary_round_aux_canonical.
    + unfold canonical_mantissa. apply Z.eqb_eq. rewrite digits2_pos_iter.
      unfold fexp, emin, prec, emax. lia.
    + apply Z.leb_le. unfold emax, prec. lia.
Qed.

Lemma of_nat_finite c :
  (1 <= c)%nat -> (Z.of_nat c < 2 ^ 53)%Z ->
  exists m e, Prim2SF (of_uint63 (Uint63.of_Z (Z.of_nat c))) = S754_finite false m e.
Proof.
  intros H1 H2. rewrite of_uint63_spec, Uint63.of_Z_spec.
  rewrite Z.mod_small.
  2:{ split; [lia|]. eapply Z.lt_trans; [exact H2|]. reflexivity. }
  destruct (Z.of_nat c) as [|p|p] eqn:E; try lia.
  simpl. now apply binary_round_small.
Qed.


Lemma finite_nonnan x : fin_num x -> nonnan x.
Proof.
  unfold fin_num, nonnan, is_finite. destruct (is_nan x); simpl; congruence.
Qed.

Lemma nonneg_nonnan x : non_negative x -> nonnan x.
Proof. intros H. apply is_nan_spec. eapply sf_signed_nonnan, H. Qed.

Lemma sub_nonnan a b : fin_num a -> nonnan b -> nonnan (a - b).
Proof.
  intros Ha Hb. apply is_nan_spec. rewrite sub_spec.
  apply SFsub_nonnan; [now apply is_finite_spec | now apply is_nan_spec].
Qed.

Lemma square_nonneg x : nonnan x -> non_negative (x * x).
Proof.
  intros H. unfold non_negative. rewrite mul_spec. now apply SFmul_self, is_nan_spec.
Qed.

Lemma add_nonneg a b : non_negative a -> non_negative b -> non_negative (a + b).
Proof. unfold non_negative. intros. rewrite add_spec. now apply SFadd_pos. Qed.

Lemma sqrt_nonnan a : non_negative a -> nonnan (PrimFloat.sqrt a).
Proof. intros H. apply is_nan_spec. rewrite sqrt_spec. now apply SFsqrt_pos. Qed.

Lemma add_finite_nonnan a b : nonnan a -> fin_num b -> nonnan (a + b).
Proof.
  intros Ha Hb. apply is_nan_spec. rewrite add_spec.
  apply SFadd_fin; [now apply is_nan_spec | now apply is_finite_spec].
Qed.

Lemma zero_nonneg : non_negative zero.
Proof. reflexivity. Qed.

Lemma eqb_refl_nonnan x : nonnan x -> (x =? x)%float = true.
Proof. unfold nonnan, is_nan. now destruct (x =? x)%float. Qed.

Lemma not_below_infinity x :
  nonnan x -> (x <? infinity)%float = false -> (x =? infinity)%float = true.
Proof.
  intros Hx. apply is_nan_spec in Hx. rewrite ltb_spec, eqb_spec.
  change (Prim2SF infinity) with (S754_infinity false).
  unfold SFltb, SFeqb. destruct (Prim2SF x) as [s|s| |s m e]; simpl; try congruence.
  now destruct s.
Qed.
Section MinFacts.
Import JS.

Lemma div_count_nonnan a c :
  nonnan a -> (1 <= c)%nat -> (Z.of_nat c < 2 ^ 53)%Z -> nonnan (a / of_nat c).
Proof.
  intros Ha H1 H2. apply is_nan_spec. rewrite div_spec. unfold of_nat.
  destruct (of_nat_finite H1 H2) as (m & e & ->).
  now apply SFdiv_fin, is_nan_spec.
Qed.

Lemma min_step_cases lowest x :
  nonnan lowest -> nonnan x -> min_step lowest x = lowest \/ min_step lowest x = x.
Proof.
  unfold min_step, nonnan. intros -> ->.
  destruct (is_neg_zero x && is_pos_zero lowest); auto.
  destruct (x <? lowest)%float; auto.
Qed.

Lemma fold_min_step ds : forall acc,
  nonnan acc -> Forall nonnan ds ->
  nonnan (fold_left min_step ds acc)
  /\ (fold_left min_step ds acc = acc \/ In (fold_left min_step ds acc) ds).
Proof.
  induction ds as [|d ds IH]; simpl; intros acc Ha Hds; auto.
  inversion Hds as [|? ? Hd Hds']; subst.
  destruct (min_step_cases Ha Hd) as [E|E]; rewrite E.
  - destruct (IH acc Ha Hds') as [Hn [H|H]]; split; auto.
  - destruct (IH d Hd Hds') as [Hn [H|H]]; split; auto.
Qed.

Lemma Math_min_found ds :
  ds <> [] -> Forall nonnan ds ->
  exists y, In y ds /\ (y =? Math_min ds)%float = true.
Proof.
  destruct ds as [|d ds]; [congruence|]. intros _ Hds.
  inversion Hds as [|? ? Hd Hds']; subst.
  unfold Math_min. simpl.
  assert (H1 : nonnan (min_step infinity d) /\ (d =? min_step infinity d)%float = true).
  { unfold min_step. change (is_nan infinity) with false. cbv iota.
    rewrite Hd. change (is_pos_zero infinity) with false. rewrite andb_false_r.
    destruct (d <? infinity)%float eqn:E.
    - split; auto. now apply eqb_refl_nonnan.
    - split; [reflexivity|]. now apply not_below_infinity. }
  destruct H1 as [Hn He].
  destruct (fold_min_step Hn Hds') as [Hr [H|H]].
  - exists d. split; [now left|]. now rewrite H.
  - exists (fold_left min_step ds (min_step infinity d)). split; [now right|].
    now apply eqb_refl_nonnan.
Qed.

Lemma indexOf_from_found ds x : forall k,
  (exists y, In y ds /\ (y =? x)%float = true) ->
  (k <= indexOf_from ds x k < k + Z.of_nat (length ds))%Z.
Proof.
  induction ds as [|d ds IH]; intros k (y & Hy & E); [easy|].
  simpl indexOf_from. unfold strict_eq.
  destruct (d =? x)%float eqn:D.
  - simpl length. lia.
  - destruct Hy as [->|Hy]; [congruence|].
    specialize (IH (k + 1)%Z (ex_intro _ y (conj Hy E))). simpl length. lia.
Qed.

Lemma closest_in_range ds :
  ds <> [] -> Forall nonnan ds ->
  (0 <= indexOf ds (Math_min ds) < Z.of_nat (length ds))%Z.
Proof.
  intros H1 H2. unfold indexOf.
  pose proof (@indexOf_from_found ds (Math_min ds) 0%Z (Math_min_found H1 H2)). lia.
Qed.

End MinFacts.

(* ================================================================= *)
(** * Binary64 arithmetic: how far a rounded result is from the exact one *)

Section Rounding.
Local Open Scope Z_scope.

Lemma shr_1_half mrs : 0 <= shr_m mrs -> shr_m (shr_1 mrs) = shr_m mrs / 2.
Proof.
  destruct mrs as [m r s]; simpl. intros H.
  destruct m as [|p|p]; [reflexivity| |lia].
  destruct p as [p|p|]; simpl shr_m.
  - rewrite Pos2Z.inj_xI. apply (Z.div_unique _ _ _ 1); lia.
  - rewrite Pos2Z.inj_xO. apply (Z.div_unique _ _ _ 0); lia.
  - reflexivity.
Qed.

Lemma shr_iter_m p : forall mrs,
  0 <= shr_m mrs -> shr_m (SpecFloat.iter_pos shr_1 p mrs) = shr_m mrs / 2 ^ Z.pos p.
Proof.
  induction p as [p IH|p IH|]; intros mrs H; simpl SpecFloat.iter_pos.
  - assert (H1 : 0 <= shr_m (shr_1 mrs)) by now apply shr_1_nonneg.
    assert (H2 : 0 <= shr_m (SpecFloat.iter_pos shr_1 p (shr_1 mrs)))
      by (apply (iter_pos_inv (fun r => 0 <= shr_m r)); auto using shr_1_nonneg).
    rewrite IH, IH, shr_1_half by assumption.
    rewrite !Z.div_div by lia.
    f_equal. replace (Z.pos p~1) with (1 + Z.pos p + Z.pos p) by lia.
    rewrite !Z.pow_add_r by lia. lia.
  - assert (H2 : 0 <= shr_m (SpecFloat.iter_pos shr_1 p mrs))
      by (apply (iter_pos_inv (fun r => 0 <= shr_m r)); auto using shr_1_nonneg).
    rewrite IH, IH by assumption.
    rewrite !Z.div_div by lia.
    f_equal. replace (Z.pos p~0) with (Z.pos p + Z.pos p) by lia.
    rewrite !Z.pow_add_r by lia. lia.
  - now rewrite shr_1_half.
Qed.

Lemma shr_m_shift mrs e n :
  0 <= shr_m mrs -> 0 <= n ->
  shr_m (fst (shr mrs e n)) = shr_m mrs / 2 ^ n /\ snd (shr mrs e n) = e + n.
Proof.
  intros H Hn. destruct n as [|p|p]; simpl; [|now rewrite shr_iter_m|lia].
  rewrite Z.div_1_r. split; [reflexivity|lia].
Qed.

Lemma digits2_pos_upper p : Z.pos p < 2 ^ Z.pos (digits2_pos p).
Proof.
  induction p; simpl digits2_pos.
  - rewrite Pos2Z.inj_succ, Z.pow_succ_r by lia. lia.
  - rewrite Pos2Z.inj_succ, Z.pow_succ_r by lia. lia.
  - simpl. lia.
Qed.

Lemma digits2_pos_exact p k :
  2 ^ (k - 1) <= Z.pos p < 2 ^ k -> 0 < k -> Z.pos (digits2_pos p) = k.
Proof.
  intros [Hl Hu] Hk.
  pose proof (digits2_pos_lower p) as L. pose proof (digits2_pos_upper p) as U.
  destruct (Z.lt_trichotomy (Z.pos (digits2_pos p)) k) as [H|[H|H]]; [|exact H|].
  - assert (2 ^ Z.pos (digits2_pos p) <= 2 ^ (k - 1)) by (apply Z.pow_le_mono_r; lia). lia.
  - assert (2 ^ k <= 2 ^ (Z.pos (digits2_pos p) - 1)) by (apply Z.pow_le_mono_r; lia). lia.
Qed.

Lemma round_nearest_even_cases m l :
  round_nearest_even m l = m \/ round_nearest_even m l = m + 1.
Proof. destruct l as [|[]]; simpl; auto. destruct (Z.even m); auto. Qed.

(** Rounding a mantissa of at least 53 digits, away from overflow and
    underflow: the result is [M * 2 ^ (ex + n)], where [n] digits are
    dropped and [M] is the mantissa cut down, or its successor. *)
Lemma binary_round_aux_normal sx mx ex lx :
  let n := Z.pos (digits2_pos mx) - 53 in
  0 <= n -> -1074 <= ex + n -> ex + n + 1 <= 971 ->
  exists m e M,
    binary_round_aux prec emax sx (Z.pos mx) ex lx = S754_finite sx m e
    /\ 2 ^ 52 <= Z.pos m < 2 ^ 53
    /\ (e = ex + n \/ e = ex + n + 1)
    /\ Z.pos m * 2 ^ (e - (ex + n)) = M
    /\ Z.pos mx / 2 ^ n <= M <= Z.pos mx / 2 ^ n + 1
    /\ 2 ^ 52 <= Z.pos mx / 2 ^ n < 2 ^ 53.
Proof.
  intros n Hn Hlo Hhi.
  pose proof (digits2_pos_lower mx) as L. pose proof (digits2_pos_upper mx) as U.
  assert (Hm1 : 2 ^ 52 <= Z.pos mx / 2 ^ n < 2 ^ 53).
  { assert (P : 0 < 2 ^ n) by (apply Z.pow_pos_nonneg; lia).
    replace (Z.pos (digits2_pos mx) - 1) with (52 + n) in L by (unfold n; lia).
    replace (Z.pos (digits2_pos mx)) with (53 + n) in U by (unfold n; lia).
    rewrite Z.pow_add_r in L, U by lia. split.
    - apply Z.div_le_lower_bound; lia.
    - apply Z.div_lt_upper_bound; lia. }
  unfold binary_round_aux, shr_fexp. simpl Zdigits2.
  assert (Hf : fexp prec emax (Z.pos (digits2_pos mx) + ex) - ex = n).
  { unfold fexp, emin, prec, emax, n. lia. }
  rewrite Hf.
  destruct (@shr_m_shift (shr_record_of_loc (Z.pos mx) lx) ex n) as [S1 S2];
    [rewrite shr_record_of_loc_m; lia|exact Hn|].
  rewrite shr_record_of_loc_m in S1.
  destruct (shr (shr_record_of_loc (Z.pos mx) lx) ex n) as [mrs' e']. simpl in S1, S2.
  subst e'. rewrite S1.
  set (m1 := Z.pos mx / 2 ^ n) in *.
  destruct (round_nearest_even_cases m1 (loc_of_shr_record mrs')) as [R|R]; rewrite R.
  - (* the mantissa is kept *)
    destruct m1 as [|p1|p1] eqn:E1; try lia.
    assert (D : Z.pos (digits2_pos p1) = 53) by (apply digits2_pos_exact; lia).
    simpl Zdigits2. rewrite D.
    replace (fexp prec emax (53 + (ex + n)) - (ex + n)) with 0
      by (unfold fexp, emin, prec, emax; lia).
    cbn [shr shr_record_of_loc shr_m].
    replace (ex + n <=? emax - prec) with true
      by (symmetry; apply Z.leb_le; unfold emax, prec; lia).
    exists p1, (ex + n), (Z.pos p1).
    rewrite Z.sub_diag, Z.mul_1_r. repeat split; lia.
  - (* the mantissa is raised *)
    destruct (Z.eq_dec (m1 + 1) (2 ^ 53)) as [C|C].
    + rewrite C. change (Zdigits2 (2 ^ 53)) with 54.
      replace (fexp prec emax (54 + (ex + n)) - (ex + n)) with 1
        by (unfold fexp, emin, prec, emax; lia).
      cbn [shr shr_record_of_loc shr_m SpecFloat.iter_pos shr_1 Z.pow Z.pow_pos Pos.iter Z.mul Pos.mul].
      replace (ex + n + 1 <=? emax - prec) with true
        by (symmetry; apply Z.leb_le; unfold emax, prec; lia).
      eexists _, (ex + n + 1), (2 ^ 53).
      split; [reflexivity|].
      replace (ex + n + 1 - (ex + n)) with 1 by lia.
      repeat split; lia.
    + destruct (m1 + 1) as [|p1|p1] eqn:E1; try lia.
      assert (D : Z.pos (digits2_pos p1) = 53) by (apply digits2_pos_exact; lia).
      simpl Zdigits2. rewrite D.
      replace (fexp prec emax (53 + (ex + n)) - (ex + n)) with 0
        by (unfold fexp, emin, prec, emax; lia).
      cbn [shr shr_record_of_loc shr_m].
      replace (ex + n <=? emax - prec) with true
        by (symmetry; apply Z.leb_le; unfold emax, prec; lia).
      exists p1, (ex + n), (Z.pos p1).
      rewrite Z.sub_diag, Z.mul_1_r. repeat split; lia.
Qed.

End Rounding.
Section RoundingError.
Local Open Scope R_scope.

Lemma powerRZ_nonneg_exp n : (0 <= n)%Z -> powerRZ 2 n = IZR (2 ^ n).
Proof.
  intros H. rewrite <- (Z2Nat.id n H), <- pow_powerRZ, pow_IZR. reflexivity.
Qed.

Lemma powerRZ_2_pos e : 0 < powerRZ 2 e.
Proof. apply powerRZ_lt. lra. Qed.

Lemma powerRZ_2_add a b : powerRZ 2 (a + b) = powerRZ 2 a * powerRZ 2 b.
Proof. apply powerRZ_add. lra. Qed.

(** The value of a rounded mantissa is within a 2^-52-th of the number
    [x * 2 ^ ex] it stands for, where [mx <= x < mx + 1]. *)
Lemma binary_round_aux_close sx mx ex lx (x : R) :
  let n := (Z.pos (digits2_pos mx) - 53)%Z in
  (0 <= n)%Z -> (-1074 <= ex + n)%Z -> (ex + n + 1 <= 971)%Z ->
  IZR (Z.pos mx) <= x < IZR (Z.pos mx) + 1 ->
  exists m e,
    binary_round_aux prec emax sx (Z.pos mx) ex lx = S754_finite sx m e
    /\ (2 ^ 52 <= Z.pos m < 2 ^ 53)%Z
    /\ (ex + n <= e <= ex + n + 1)%Z
    /\ Rabs (IZR (Z.pos m) * powerRZ 2 e - x * powerRZ 2 ex)
       <= x * powerRZ 2 ex * / IZR (2 ^ 52).
Proof.
  intros n Hn Hlo Hhi Hx.
  destruct (@binary_round_aux_normal sx mx ex lx Hn Hlo Hhi)
    as (m & e & M & E & Hm & He & HM & HMb & Hm1).
  fold n in HM, HMb, Hm1.
  exists m, e. split; [exact E|]. split; [exact Hm|]. split; [lia|].
  set (m1 := (Z.pos mx / 2 ^ n)%Z) in *.
  assert (P : (0 < 2 ^ n)%Z) by (apply Z.pow_pos_nonneg; lia).
  assert (D1 : (m1 * 2 ^ n <= Z.pos mx)%Z).
  { unfold m1. rewrite Z.mul_comm. apply Z.mul_div_le. exact P. }
  assert (D2 : (Z.pos mx + 1 <= (m1 + 1) * 2 ^ n)%Z).
  { pose proof (Z.mod_pos_bound (Z.pos mx) (2 ^ n) P) as B.
    pose proof (Z.div_mod (Z.pos mx) (2 ^ n) ltac:(lia)) as Q. fold m1 in Q. nia. }
  assert (V : IZR (Z.pos m) * powerRZ 2 e = IZR M * IZR (2 ^ n) * powerRZ 2 ex).
  { replace e with ((e - (ex + n)) + n + ex)%Z by lia.
    rewrite !powerRZ_2_add, (powerRZ_nonneg_exp Hn).
    rewrite (@powerRZ_nonneg_exp (e - (ex + n))) by lia.
    rewrite <- HM, mult_IZR. ring. }
  rewrite V.
  pose proof (powerRZ_2_pos ex) as Pe.
  apply IZR_le in D1, D2. rewrite mult_IZR in D1. rewrite mult_IZR, !plus_IZR in D2.
  destruct HMb as [M1 M2]. apply IZR_le in M1, M2. rewrite plus_IZR in M2.
  destruct Hm1 as [L1 _]. apply IZR_le in L1.
  assert (Pn : 0 < IZR (2 ^ n)) by (apply IZR_lt; exact P).
  set (t := IZR (2 ^ n)) in *. set (c := IZR (2 ^ 52)) in *.
  assert (Pc : 0 < c) by (apply IZR_lt; reflexivity).
  assert (B : Rabs (IZR M * t - x) <= t).
  { apply Rabs_le. split; nra. }
  assert (T : t <= x * / c).
  { apply (Rmult_le_reg_r c); [exact Pc|].
    rewrite Rmult_assoc, Rinv_l by lra. nra. }
  replace (IZR M * t * powerRZ 2 ex - x * powerRZ 2 ex)
    with ((IZR M * t - x) * powerRZ 2 ex) by ring.
  rewrite Rabs_mult, (Rabs_pos_eq (powerRZ 2 ex)) by lra.
  replace (x * powerRZ 2 ex * / c) with (x * / c * powerRZ 2 ex) by ring.
  apply Rmult_le_compat_r; lra.
Qed.

End RoundingError.
Section Operations.
Local Open Scope R_scope.

Lemma mantissa_normal m e :
  valid_binary (S754_finite false m e) = true -> (-1074 < e)%Z ->
  (2 ^ 52 <= Z.pos m < 2 ^ 53)%Z.
Proof.
  unfold valid_binary, SpecFloat.valid_binary, bounded, canonical_mantissa. intros H He.
  apply andb_prop in H. destruct H as [H _]. apply Z.eqb_eq in H.
  assert (D : Z.pos (digits2_pos m) = 53%Z) by (unfold fexp, emin, prec, emax in H; lia).
  pose proof (digits2_pos_lower m) as L. pose proof (digits2_pos_upper m) as U.
  rewrite D in L, U. exact (conj L U).
Qed.

(** The product of two normal numbers, away from overflow and underflow. *)
Lemma SFmul_close ma ea mb eb :
  (2 ^ 52 <= Z.pos ma < 2 ^ 53)%Z -> (2 ^ 52 <= Z.pos mb < 2 ^ 53)%Z ->
  (-1126 <= ea + eb <= 917)%Z ->
  exists m e,
    SF64mul (S754_finite false ma ea) (S754_finite false mb eb) = S754_finite false m e
    /\ (2 ^ 52 <= Z.pos m < 2 ^ 53)%Z
    /\ (ea + eb + 52 <= e <= ea + eb + 54)%Z
    /\ Rabs (IZR (Z.pos m) * powerRZ 2 e
             - IZR (Z.pos ma) * powerRZ 2 ea * (IZR (Z.pos mb) * powerRZ 2 eb))
       <= IZR (Z.pos ma) * powerRZ 2 ea * (IZR (Z.pos mb) * powerRZ 2 eb) * / IZR (2 ^ 52).
Proof.
  intros Ha Hb He. unfold SF64mul, SFmul. cbn [xorb].
  pose proof (digits2_pos_lower (ma * mb)) as L.
  pose proof (digits2_pos_upper (ma * mb)) as U.
  assert (P : (2 ^ 104 <= Z.pos (ma * mb) < 2 ^ 106)%Z).
  { rewrite Pos2Z.inj_mul. change (2 ^ 104)%Z with (2 ^ 52 * 2 ^ 52)%Z.
    change (2 ^ 106)%Z with (2 ^ 53 * 2 ^ 53)%Z. split.
    - apply Z.mul_le_mono_nonneg; lia.
    - apply Z.mul_lt_mono_nonneg; lia. }
  assert (D : (105 <= Z.pos (digits2_pos (ma * mb)) <= 106)%Z).
  { split.
    - destruct (Z_le_gt_dec 105 (Z.pos (digits2_pos (ma * mb)))) as [|G]; [assumption|].
      assert (2 ^ Z.pos (digits2_pos (ma * mb)) <= 2 ^ 104)%Z
        by (apply Z.pow_le_mono_r; lia). lia.
    - destruct (Z_le_gt_dec (Z.pos (digits2_pos (ma * mb))) 106) as [|G]; [assumption|].
      assert (2 ^ 106 <= 2 ^ (Z.pos (digits2_pos (ma * mb)) - 1))%Z
        by (apply Z.pow_le_mono_r; lia). lia. }
  destruct (@binary_round_aux_close false (ma * mb) (ea + eb) loc_Exact
              (IZR (Z.pos (ma * mb)))) as (m & e & E & Hm & Hee & B); try lia; [lra|].
  exists m, e. split; [exact E|]. split; [exact Hm|]. split; [lia|].
  replace (IZR (Z.pos ma) * powerRZ 2 ea * (IZR (Z.pos mb) * powerRZ 2 eb))
    with (IZR (Z.pos (ma * mb)) * powerRZ 2 (ea + eb)); [exact B|].
  rewrite Pos2Z.inj_mul, mult_IZR, powerRZ_2_add. ring.
Qed.

(** The quotient of two normal numbers, away from overflow and underflow. *)
Lemma SFdiv_close ma ea mb eb :
  (2 ^ 52 <= Z.pos ma < 2 ^ 53)%Z -> (2 ^ 52 <= Z.pos mb < 2 ^ 53)%Z ->
  (-1000 <= ea - eb <= 1000)%Z ->
  exists m e,
    SF64div (S754_finite false ma ea) (S754_finite false mb eb) = S754_finite false m e
    /\ (2 ^ 52 <= Z.pos m < 2 ^ 53)%Z
    /\ Rabs (IZR (Z.pos m) * powerRZ 2 e
             - IZR (Z.pos ma) * powerRZ 2 ea / (IZR (Z.pos mb) * powerRZ 2 eb))
       <= IZR (Z.pos ma) * powerRZ 2 ea / (IZR (Z.pos mb) * powerRZ 2 eb) * / IZR (2 ^ 52).
Proof.
  intros Ha Hb He. unfold SF64div, SFdiv, SFdiv_core_binary. cbn [xorb Zdigits2].
  rewrite (@digits2_pos_exact ma 53), (@digits2_pos_exact mb 53) by lia.
  replace (Z.min (fexp prec emax (53 + ea - (53 + eb))) (ea - eb))%Z with (ea - eb - 53)%Z
    by (unfold fexp, emin, prec, emax; lia).
  replace (ea - eb - (ea - eb - 53))%Z with 53%Z by lia.
  rewrite Z.shiftl_mul_pow2 by lia.
  pose proof (Z.div_mod (Z.pos ma * 2 ^ 53) (Z.pos mb) ltac:(lia)) as Q.
  pose proof (Z.mod_pos_bound (Z.pos ma * 2 ^ 53) (Z.pos mb) ltac:(lia)) as Rb.
  unfold Z.div, Z.modulo in Q, Rb.
  destruct (Z.div_eucl (Z.pos ma * 2 ^ 53) (Z.pos mb)) as [q r].
  assert (Hq : (2 ^ 52 <= q < 2 ^ 54)%Z) by nia.
  destruct q as [|q|q]; try lia.
  pose proof (digits2_pos_lower q) as L. pose proof (digits2_pos_upper q) as U.
  assert (D : (53 <= Z.pos (digits2_pos q) <= 54)%Z).
  { split.
    - destruct (Z_le_gt_dec 53 (Z.pos (digits2_pos q))) as [|G]; [assumption|].
      assert (2 ^ Z.pos (digits2_pos q) <= 2 ^ 52)%Z by (apply Z.pow_le_mono_r; lia). lia.
    - destruct (Z_le_gt_dec (Z.pos (digits2_pos q)) 54) as [|G]; [assumption|].
      assert (2 ^ 54 <= 2 ^ (Z.pos (digits2_pos q) - 1))%Z
        by (apply Z.pow_le_mono_r; lia). lia. }
  assert (Pb : 0 < IZR (Z.pos mb)) by (apply IZR_lt; lia).
  assert (X : IZR (Z.pos q) <= IZR (Z.pos ma * 2 ^ 53) / IZR (Z.pos mb) < IZR (Z.pos q) + 1).
  { rewrite Q at 1 2. rewrite plus_IZR, mult_IZR.
    destruct Rb as [R0 R1]. apply IZR_le in R0. apply IZR_lt in R1. split.
    - apply (Rmult_le_reg_r (IZR (Z.pos mb))); [exact Pb|].
      unfold Rdiv. rewrite Rmult_assoc, Rinv_l by lra. nra.
    - apply (Rmult_lt_reg_r (IZR (Z.pos mb))); [exact Pb|].
      unfold Rdiv. rewrite Rmult_assoc, Rinv_l by lra. nra. }
  destruct (@binary_round_aux_close false q (ea - eb - 53)
              (new_location (Z.pos mb) r) _ ltac:(lia) ltac:(lia) ltac:(lia) X)
    as (m & e & E & Hm & Hee & B).
  exists m, e. split; [exact E|]. split; [exact Hm|].
  replace (IZR (Z.pos ma) * powerRZ 2 ea / (IZR (Z.pos mb) * powerRZ 2 eb))
    with (IZR (Z.pos ma * 2 ^ 53) / IZR (Z.pos mb) * powerRZ 2 (ea - eb - 53)); [exact B|].
  pose proof (powerRZ_2_pos eb) as Pe.
  assert (A : powerRZ 2 ea = powerRZ 2 (ea - eb - 53) * IZR (2 ^ 53) * powerRZ 2 eb).
  { rewrite <- (@powerRZ_nonneg_exp 53), <- !powerRZ_2_add by lia. f_equal. lia. }
  rewrite A, mult_IZR. field. lra.
Qed.

(** The square root of a normal number. *)
Lemma SFsqrt_close ma ea :
  (2 ^ 52 <= Z.pos ma < 2 ^ 53)%Z -> (-1000 <= ea <= 900)%Z ->
  exists m e,
    SF64sqrt (S754_finite false ma ea) = S754_finite false m e
    /\ (2 ^ 52 <= Z.pos m < 2 ^ 53)%Z
    /\ (ea - 53 <= 2 * e <= ea - 50)%Z
    /\ Rabs (IZR (Z.pos m) * powerRZ 2 e - sqrt (IZR (Z.pos ma) * powerRZ 2 ea))
       <= sqrt (IZR (Z.pos ma) * powerRZ 2 ea) * / IZR (2 ^ 52).
Proof.
  intros Ha He. unfold SF64sqrt, SFsqrt, SFsqrt_core_binary. cbn [Zdigits2].
  rewrite (@digits2_pos_exact ma 53) by lia.
  rewrite !Z.div2_div.
  set (h := (ea / 2)%Z).
  assert (Hh : (2 * h <= ea <= 2 * h + 1)%Z).
  { pose proof (Z.div_mod ea 2 ltac:(lia)) as Q.
    pose proof (Z.mod_pos_bound ea 2 ltac:(lia)) as B. fold h in Q. lia. }
  assert (H1 : ((53 + ea + 1) / 2 = h + 27)%Z).
  { replace (53 + ea + 1)%Z with (ea + 27 * 2)%Z by lia. now rewrite Z.div_add by lia. }
  rewrite H1.
  replace (Z.min (fexp prec emax (h + 27)) h) with (h - 26)%Z
    by (unfold fexp, emin, prec, emax; lia).
  set (s := (ea - 2 * (h - 26))%Z).
  assert (Hs : (52 <= s <= 53)%Z) by (unfold s; lia).
  destruct s as [|ps|ps] eqn:Es; try lia. rewrite <- Es in *.
  rewrite Z.shiftl_mul_pow2 by lia.
  set (m' := (Z.pos ma * 2 ^ s)%Z).
  assert (Hm' : (2 ^ 104 <= m' < 2 ^ 106)%Z).
  { unfold m'. assert (C : s = 52%Z \/ s = 53%Z) by lia.
    destruct C as [-> | ->]; lia. }
  pose proof (Z.sqrtrem_spec m' ltac:(lia)) as Q.
  destruct (Z.sqrtrem m') as [q r]. destruct Q as [Q Rb].
  assert (Hq : (2 ^ 52 <= q < 2 ^ 53)%Z).
  { split.
    - destruct (Z_le_gt_dec (2 ^ 52) q) as [|G]; [assumption|].
      assert ((q + 1) * (q + 1) <= 2 ^ 52 * 2 ^ 52)%Z
        by (apply Z.mul_le_mono_nonneg; lia).
      change (2 ^ 52 * 2 ^ 52)%Z with (2 ^ 104)%Z in *. nia.
    - destruct (Z_lt_ge_dec q (2 ^ 53)) as [|G]; [assumption|].
      assert (2 ^ 53 * 2 ^ 53 <= q * q)%Z by (apply Z.mul_le_mono_nonneg; lia).
      change (2 ^ 53 * 2 ^ 53)%Z with (2 ^ 106)%Z in *. nia. }
  destruct q as [|q|q]; try lia.
  assert (Pm : 0 <= IZR m') by (apply IZR_le; lia).
  assert (X : IZR (Z.pos q) <= sqrt (IZR m') < IZR (Z.pos q) + 1).
  { assert (Pq : 0 <= IZR (Z.pos q)) by (apply IZR_le; lia).
    split.
    - rewrite <- (sqrt_square (IZR (Z.pos q))) at 1 by exact Pq.
      apply sqrt_le_1_alt. rewrite <- mult_IZR. apply IZR_le. lia.
    - rewrite <- (sqrt_square (IZR (Z.pos q) + 1)) by lra.
      apply sqrt_lt_1_alt. split; [exact Pm|].
      rewrite <- plus_IZR, <- mult_IZR. apply IZR_lt. lia. }
  destruct (@binary_round_aux_close false q (h - 26)
              (if (r =? 0)%Z then loc_Exact
               else loc_Inexact (if (r <=? Z.pos q)%Z then Lt else Gt)) (sqrt (IZR m')))
    as (m & e & E & Hm & Hee & B).
  { rewrite (@digits2_pos_exact q 53) by lia. lia. }
  { rewrite (@digits2_pos_exact q 53) by lia. lia. }
  { rewrite (@digits2_pos_exact q 53) by lia. lia. }
  { exact X. }
  rewrite (@digits2_pos_exact q 53) in Hee by lia.
  exists m, e. split; [exact E|]. split; [exact Hm|]. split; [lia|].
  replace (sqrt (IZR (Z.pos ma) * powerRZ 2 ea))
    with (sqrt (IZR m') * powerRZ 2 (h - 26)); [exact B|].
  pose proof (powerRZ_2_pos (h - 26)) as Pe.
  rewrite <- (sqrt_square (powerRZ 2 (h - 26))) at 1 by lra.
  rewrite <- sqrt_mult by nra. f_equal.
  unfold m'. rewrite mult_IZR, <- (@powerRZ_nonneg_exp s) by lia.
  rewrite Rmult_assoc, <- !powerRZ_2_add. do 2 f_equal. unfold s. lia.
Qed.

End Operations.
Section SelfSimilarity.
Local Open Scope R_scope.

Lemma moderate_normal x :
  moderate x = true ->
  exists m e, Prim2SF x = S754_finite false m e
              /\ (2 ^ 52 <= Z.pos m < 2 ^ 53)%Z /\ (-952 <= e <= 848)%Z.
Proof.
  unfold moderate. rewrite !leb_spec. intros H. apply andb_prop in H. destruct H as [H1 H2].
  pose proof (Prim2SF_valid x) as V.
  change (Prim2SF 0x1p-900) with (S754_finite false 4503599627370496 (-952)) in H1.
  change (Prim2SF 0x1p+900) with (S754_finite false 4503599627370496 848) in H2.
  destruct (Prim2SF x) as [s|s| |s m e]; try discriminate.
  - destruct s; discriminate.
  - unfold SFleb, SFcompare in H1, H2. destruct s; [discriminate|].
    assert (He : (-952 <= e <= 848)%Z).
    { split.
      - destruct (Z.compare_spec (-952) e); try lia; discriminate.
      - destruct (Z.compare_spec e 848); try lia; discriminate. }
    exists m, e. split; [reflexivity|]. split; [|exact He].
    apply (@mantissa_normal m e V). lia.
Qed.

Lemma Rabs_bounds a b : Rabs a <= b -> - b <= a <= b.
Proof. unfold Rabs. destruct (Rcase_abs a); lra. Qed.

(** The three roundings of [s / (sqrt s * sqrt s)] together. *)
Lemma three_roundings (u S r p q : R) :
  0 < u <= / 16 -> 0 < S ->
  Rabs (r - sqrt S) <= sqrt S * u ->
  Rabs (p - r * r) <= r * r * u ->
  Rabs (q - S / p) <= S / p * u ->
  Rabs (q - 1) <= 8 * u.
Proof.
  intros Hu HS Hr Hp Hq.
  assert (P0 : 0 < sqrt S) by now apply sqrt_lt_R0.
  assert (E : sqrt S * sqrt S = S) by (apply sqrt_sqrt; lra).
  set (t := sqrt S) in *.
  apply Rabs_bounds in Hr. apply Rabs_bounds in Hp.
  assert (R1 : (1 - u) * t <= r <= (1 + u) * t) by lra.
  assert (T1 : 0 < (1 - u) * t) by (apply Rmult_lt_0_compat; lra).
  assert (Pr : 0 < r) by lra.
  assert (R2 : (1 - u) * (1 - u) * S <= r * r <= (1 + u) * (1 + u) * S).
  { rewrite <- E. split.
    - replace ((1 - u) * (1 - u) * (t * t)) with ((1 - u) * t * ((1 - u) * t)) by ring.
      apply Rmult_le_compat; lra.
    - replace ((1 + u) * (1 + u) * (t * t)) with ((1 + u) * t * ((1 + u) * t)) by ring.
      apply Rmult_le_compat; lra. }
  assert (P1 : (1 - u) * (1 - u) * (1 - u) * S <= p <= (1 + u) * (1 + u) * (1 + u) * S).
  { assert (0 < r * r) by (apply Rmult_lt_0_compat; lra). split.
    - apply Rle_trans with (r * r * (1 - u)); [|lra].
      replace ((1 - u) * (1 - u) * (1 - u) * S) with ((1 - u) * (1 - u) * S * (1 - u)) by ring.
      apply Rmult_le_compat_r; lra.
    - apply Rle_trans with (r * r * (1 + u)); [lra|].
      replace ((1 + u) * (1 + u) * (1 + u) * S) with ((1 + u) * (1 + u) * S * (1 + u)) by ring.
      apply Rmult_le_compat_r; lra. }
  assert (Pp : 0 < p).
  { assert (0 < (1 - u) * (1 - u) * (1 - u) * S); [|lra].
    repeat apply Rmult_lt_0_compat; lra. }
  apply Rabs_bounds in Hq.
  assert (Q : (1 - u) * S <= q * p <= (1 + u) * S).
  { assert (X : S / p * p = S) by (field; lra).
    split.
    - replace ((1 - u) * S) with ((S / p - S / p * u) * p) by (rewrite <- X at 3; ring).
      apply Rmult_le_compat_r; lra.
    - replace ((1 + u) * S) with ((S / p + S / p * u) * p) by (rewrite <- X at 3; ring).
      apply Rmult_le_compat_r; lra. }
  assert (Pq : 0 < q).
  { destruct (Rlt_le_dec 0 q) as [|N]; [assumption|]. exfalso.
    assert (q * p <= 0) by nra. assert (0 < (1 - u) * S) by nra. lra. }
  apply Rabs_le. split.
  - (* 1 - 8u <= q *)
    assert (A : q * ((1 + u) * (1 + u) * (1 + u)) >= 1 - u).
    { assert (q * p <= q * ((1 + u) * (1 + u) * (1 + u) * S)) by (apply Rmult_le_compat_l; lra).
      assert ((1 - u) * S <= q * ((1 + u) * (1 + u) * (1 + u)) * S) by lra.
      apply Rle_ge. apply (Rmult_le_reg_r S); [exact HS|]. lra. }
    assert (B : (1 - 8 * u) * ((1 + u) * (1 + u) * (1 + u)) <= 1 - u) by nra.
    assert (C : 0 < (1 + u) * (1 + u) * (1 + u)) by (repeat apply Rmult_lt_0_compat; lra).
    assert (1 - 8 * u <= q); [|lra].
    apply (Rmult_le_reg_r ((1 + u) * (1 + u) * (1 + u))); [exact C|]. lra.
  - (* q <= 1 + 8u *)
    assert (A : q * ((1 - u) * (1 - u) * (1 - u)) <= 1 + u).
    { assert (q * ((1 - u) * (1 - u) * (1 - u) * S) <= q * p) by (apply Rmult_le_compat_l; lra).
      assert (q * ((1 - u) * (1 - u) * (1 - u)) * S <= (1 + u) * S) by lra.
      apply (Rmult_le_reg_r S); [exact HS|]. lra. }
    assert (B : 1 + u <= (1 + 8 * u) * ((1 - u) * (1 - u) * (1 - u))) by nra.
    assert (C : 0 < (1 - u) * (1 - u) * (1 - u)) by (repeat apply Rmult_lt_0_compat; lra).
    assert (q <= 1 + 8 * u); [|lra].
    apply (Rmult_le_reg_r ((1 - u) * (1 - u) * (1 - u))); [exact C|]. lra.
Qed.

(** For a number [s] between 2^-900 and 2^900, [s / (sqrt s * sqrt s)] is
    within 2^-49 of 1. *)
Lemma self_ratio_close s :
  moderate s = true ->
  Rabs (real_of (s / (PrimFloat.sqrt s * PrimFloat.sqrt s))%float - 1) <= / IZR (2 ^ 49).
Proof.
  intros H. destruct (moderate_normal _ H) as (ms & es & Es & Hms & Hes).
  destruct (@SFsqrt_close ms es Hms ltac:(lia)) as (mr & er & Er & Hmr & Her & Br).
  destruct (@SFmul_close mr er mr er Hmr Hmr ltac:(lia)) as (mp & ep & Ep & Hmp & Hep & Bp).
  destruct (@SFdiv_close ms es mp ep Hms Hmp ltac:(lia)) as (mq & eq & Eq & Hmq & Bq).
  unfold real_of. rewrite div_spec, mul_spec, sqrt_spec, Es, Er, Ep, Eq. cbn [SF2R].
  replace (/ IZR (2 ^ 49)) with (8 * / IZR (2 ^ 52)).
  2:{ change (2 ^ 52)%Z with (8 * 2 ^ 49)%Z. rewrite mult_IZR. field.
      apply not_0_IZR. lia. }
  assert (PS : 0 < IZR (Z.pos ms) * powerRZ 2 es).
  { apply Rmult_lt_0_compat; [apply IZR_lt; lia|apply powerRZ_2_pos]. }
  apply (@three_roundings _ (IZR (Z.pos ms) * powerRZ 2 es)
           (IZR (Z.pos mr) * powerRZ 2 er) (IZR (Z.pos mp) * powerRZ 2 ep)).
  - split.
    + apply Rinv_0_lt_compat, IZR_lt. lia.
    + apply Rinv_le_contravar; [lra|]. apply IZR_le. lia.
  - exact PS.
  - exact Br.
  - exact Bp.
  - exact Bq.
Qed.

End SelfSimilarity.
(* ================================================================= *)
(** * The k-means skeleton keeps every assignment in range *)

Lemma indicator_sum a : forall k s,
  list_sum (map (fun j => if (a =? Z.of_nat j)%Z then 1 else 0) (seq s k))
  = if ((Z.of_nat s <=? a) && (a <? Z.of_nat (s + k)))%Z then 1 else 0.
Proof.
  induction k as [|k IH]; intros s; simpl.
  - destruct (Z.leb_spec (Z.of_nat s) a), (Z.ltb_spec a (Z.of_nat (s + 0))); simpl; lia.
  - rewrite IH.
    destruct (Z.eqb_spec a (Z.of_nat s)), (Z.leb_spec (Z.of_nat (S s)) a),
      (Z.ltb_spec a (Z.of_nat (S s + k))), (Z.leb_spec (Z.of_nat s) a),
      (Z.ltb_spec a (Z.of_nat (s + S k))); simpl; lia.
Qed.

Lemma list_sum_map_add {A} (f g : A -> nat) l :
  list_sum (map (fun x => f x + g x) l) = list_sum (map f l) + list_sum (map g l).
Proof. induction l; simpl; lia. Qed.

Lemma total_size_partition assignments k :
  Forall (in_range k) assignments -> total_size assignments k = length assignments.
Proof.
  unfold total_size. induction 1 as [|a l Ha _ IH]; simpl.
  - induction (seq 0 k); simpl; auto.
  - rewrite <- IH.
    rewrite (map_ext (cluster_size (a :: l))
               (fun j => (if (a =? Z.of_nat j)%Z then 1 else 0) + cluster_size l j)).
    + rewrite list_sum_map_add, indicator_sum. unfold in_range in Ha.
      destruct (Z.leb_spec (Z.of_nat 0) a), (Z.ltb_spec a (Z.of_nat (0 + k))); simpl; lia.
    + intros j. unfold cluster_size. simpl. destruct (a =? Z.of_nat j)%Z; reflexivity.
Qed.

Section LloydFacts.
Import JS.

Variable dist : vec -> option vec -> result float.
Variable new_centroid : list vec -> vec.
Variable P : vec -> Prop.
Variable C : option vec -> Prop.
Variable n : nat.

Hypothesis dist_ok : forall p c, P p -> C c -> exists d, dist p c = Ok d /\ nonnan d.
Hypothesis new_ok : forall ps,
  ps <> [] -> Forall P ps -> (length ps <= n)%nat -> C (Some (new_centroid ps)).
Hypothesis point_ok : forall p, P p -> C (Some p).

Lemma distances_ok p cs :
  P p -> Forall C cs ->
  exists ds, mapM (fun c => dist p c) cs = Ok ds /\ Forall nonnan ds /\ length ds = length cs.
Proof.
  intros Hp. induction 1 as [|c cs Hc _ (ds & E & Hn & Hl)]; simpl.
  - exists []. auto.
  - destruct (dist_ok Hp Hc) as (d & -> & Hd). simpl. rewrite E. simpl.
    exists (d :: ds). simpl. auto.
Qed.

Lemma nearest_distances_ok points cs :
  Forall P points -> Forall C cs ->
  exists ds, nearest_distances dist points cs = Ok ds.
Proof.
  intros Hp Hc. unfold nearest_distances.
  induction Hp as [|p ps Hp _ (ds & E)]; simpl.
  - now exists [].
  - destruct (distances_ok Hp Hc) as (d & -> & _). simpl. rewrite E. simpl. eauto.
Qed.

Lemma seed_rest_ok points : forall todo cs g,
  points <> [] -> Forall P points -> Forall C cs ->
  exists cs' g', seed_rest dist points todo cs g = (Ok cs', g')
    /\ Forall C cs' /\ length cs' = (length cs + todo)%nat.
Proof.
  induction todo as [|todo IH]; intros cs g Hne Hp Hc; simpl.
  - exists cs, g. repeat split; auto.
  - destruct (nearest_distances_ok Hp Hc) as (ds & ->).
    set (j := Nat.min _ _).
    assert (Hj : (j < length points)%nat).
    { subst j. destruct points; [congruence|]. simpl length. lia. }
    destruct (nth_error points j) as [p|] eqn:E.
    2:{ apply nth_error_None in E. lia. }
    assert (Hc' : Forall C (cs ++ [Some p])).
    { apply Forall_app. split; auto. constructor; auto. apply point_ok.
      rewrite Forall_forall in Hp. eapply Hp, nth_error_In, E. }
    destruct (IH (cs ++ [Some p]) (mkRNG (draws g) (S (cursor g))) Hne Hp Hc')
      as (cs' & g' & E' & H1 & H2).
    exists cs', g'. rewrite E'. repeat split; auto.
    rewrite H2, length_app. simpl. lia.
Qed.

Lemma assign_ok cs : forall points old,
  cs <> [] -> Forall P points -> Forall C cs -> length old = length points ->
  exists r, assign dist points cs old = Ok r
    /\ length (fst r) = length points
    /\ Forall (in_range (length cs)) (fst r)
    /\ (snd r = false -> fst r = old).
Proof.
  intros points old Hne Hp Hc. revert old.
  induction Hp as [|p ps Hp _ IH]; intros [|a old] Hl; simpl in Hl; try discriminate.
  - simpl. exists ([], false). simpl. auto.
  - simpl. destruct (distances_ok Hp Hc) as (ds & -> & Hn & Hlen). simpl.
    destruct (IH old) as (r & -> & H1 & H2 & H3); [lia|]. simpl.
    eexists. split; [reflexivity|]. simpl.
    assert (Hds : ds <> []) by (destruct ds, cs; simpl in *; congruence).
    pose proof (closest_in_range Hds Hn) as Hr. rewrite Hlen in Hr.
    split; [now rewrite H1|]. split; [constructor; auto|].
    destruct (Z.eqb_spec a (indexOf ds (Math_min ds))); [|discriminate].
    intros E. rewrite H3; congruence.
Qed.

Lemma assigned_length points assignments j :
  (length (assigned points assignments j) <= length points)%nat.
Proof.
  unfold assigned. rewrite length_map.
  etransitivity; [apply filter_length_le|]. rewrite length_combine. lia.
Qed.

Lemma assigned_good points assignments j :
  Forall P points -> Forall P (assigned points assignments j).
Proof.
  intros Hp. unfold assigned. apply Forall_forall. intros p Hin.
  apply in_map_iff in Hin. destruct Hin as ([q a] & <- & Hin).
  apply filter_In in Hin. destruct Hin as [Hin _]. apply in_combine_l in Hin.
  rewrite Forall_forall in Hp. now apply Hp.
Qed.

Lemma update_centroids_ok points assignments k cs :
  Forall P points -> (length points <= n)%nat -> Forall C cs ->
  Forall C (update_centroids new_centroid points assignments k cs)
  /\ length (update_centroids new_centroid points assignments k cs) = length cs.
Proof.
  intros Hp Hn Hc. unfold update_centroids. split.
  - apply Forall_forall. intros c Hin. apply in_map_iff in Hin.
    destruct Hin as ([j c0] & <- & Hin). simpl.
    assert (C c0). { apply in_combine_r in Hin. rewrite Forall_forall in Hc. auto. }
    destruct (j <? k)%nat; auto.
    destruct (assigned points assignments j) as [|q qs] eqn:E; auto.
    apply new_ok; [discriminate| |].
    + rewrite <- E. now apply assigned_good.
    + rewrite <- E. etransitivity; [apply assigned_length|]. auto.
  - rewrite length_map, length_combine, length_seq. lia.
Qed.


Lemma lloyd_step_ok points k st :
  (1 <= k)%nat -> Forall P points -> (length points <= n)%nat ->
  loop_inv C points k st ->
  exists st', lloyd_step dist new_centroid points k st = Ok st'
    /\ loop_inv C points k st'
    /\ iterations st' = S (iterations st)
    /\ (changed st' = false -> assignments st = assignments st').
Proof.
  intros Hk Hp Hn (H1 & H2 & H3 & H4). unfold lloyd_step.
  assert (Hne : centroids st <> []) by (destruct (centroids st); simpl in *; [lia|congruence]).
  destruct (@assign_ok (centroids st) points (assignments st) Hne Hp H2 H3)
    as (r & -> & R1 & R2 & R3). simpl.
  eexists. split; [reflexivity|]. simpl.
  destruct (update_centroids_ok (fst r) k Hp Hn H2) as [U1 U2].
  split; [|split; [reflexivity|intros E; symmetry; auto]].
  unfold loop_inv; simpl. rewrite U2. rewrite H1 in R2. repeat split; auto.
Qed.

Lemma lloyd_ok points k : forall fuel st,
  (1 <= k)%nat -> Forall P points -> (length points <= n)%nat ->
  loop_inv C points k st ->
  (changed st = false -> last_pass_idle dist new_centroid points k st) ->
  exists st', lloyd dist new_centroid points k fuel st = Ok st'
    /\ loop_inv C points k st'
    /\ (iterations st' <= iterations st + fuel)%nat
    /\ ((iterations st' < iterations st + fuel)%nat -> changed st' = false)
    /\ (changed st' = false -> last_pass_idle dist new_centroid points k st').
Proof.
  induction fuel as [|fuel IH]; intros st Hk Hp Hn Hinv Hidle; simpl.
  - exists st. split; [reflexivity|]. split; [assumption|].
    split; [lia|]. split; [intros; lia|assumption].
  - destruct (changed st) eqn:Ech.
    + destruct (lloyd_step_ok Hk Hp Hn Hinv) as (st1 & E1 & I1 & It1 & Ch1).
      rewrite E1. simpl.
      destruct (IH st1 Hk Hp Hn I1) as (st' & E' & I' & B1 & B2 & B3).
      { intros E. exists st. split; auto. }
      exists st'. rewrite E'. split; [reflexivity|]. split; [assumption|].
      split; [lia|]. split; [intros; apply B2; lia|assumption].
    + exists st. split; [reflexivity|]. split; [assumption|].
      split; [lia|]. split; [intros; exact Ech|intros; now apply Hidle].
Qed.

Lemma cluster_ok points k maxIterations g :
  (1 <= k)%nat -> points <> [] -> Forall P points -> (length points <= n)%nat ->
  C (fst (first_seed points g)) ->
  exists st g', cluster dist new_centroid points k maxIterations g = (Ok st, g')
    /\ loop_inv C points k st
    /\ (iterations st <= maxIterations)%nat
    /\ ((iterations st < maxIterations)%nat -> changed st = false)
    /\ (changed st = false -> last_pass_idle dist new_centroid points k st).
Proof.
  intros Hk Hne Hp Hn Hs. unfold cluster, seeds.
  destruct (first_seed points g) as [c0 g1]. simpl in Hs.
  destruct (@seed_rest_ok points (k - 1) [c0] g1 Hne Hp) as (cs & g' & -> & S1 & S2).
  { constructor; auto. }
  simpl in S2.
  destruct (@lloyd_ok points k maxIterations (initial_state points cs) Hk Hp Hn)
    as (st & E & I & B1 & B2 & B3).
  - unfold loop_inv, initial_state. simpl. repeat split; auto.
    + lia.
    + apply repeat_length.
    + apply Forall_forall. intros a Ha. apply repeat_spec in Ha. subst.
      unfold in_range. lia.
  - simpl. discriminate.
  - exists st, g'. rewrite E. simpl in *.
    split; [reflexivity|]. split; [exact I|]. split; [exact B1|].
    split; [exact B2|exact B3].
Qed.

End LloydFacts.

(* ================================================================= *)
(** * Both clusterers, on well-formed input *)

Section ClustererFacts.
Import JS.

Lemma get_nonnan c i : (i < length c)%nat -> Forall nonnan c -> nonnan (get c i).
Proof.
  intros Hi Hc. unfold get. rewrite Forall_forall in Hc. apply Hc. now apply nth_In.
Qed.

Lemma get_finite c i : (i < length c)%nat -> Forall fin_num c -> fin_num (get c i).
Proof.
  intros Hi Hc. unfold get. rewrite Forall_forall in Hc. apply Hc. now apply nth_In.
Qed.

Lemma fold_nonneg {A} (f : A -> float) l : forall acc,
  non_negative acc -> Forall (fun x => non_negative (f x)) l ->
  non_negative (fold_left (fun sum x => (sum + f x)%float) l acc).
Proof.
  induction l as [|x l IH]; simpl; intros acc Ha Hl; auto.
  inversion Hl; subst. apply IH; auto. now apply add_nonneg.
Qed.

Lemma fold_add_finite {A} (f : A -> float) l : forall acc,
  nonnan acc -> Forall (fun x => fin_num (f x)) l ->
  nonnan (fold_left (fun sum x => (sum + f x)%float) l acc).
Proof.
  induction l as [|x l IH]; simpl; intros acc Ha Hl; auto.
  inversion Hl; subst. apply IH; auto. now apply add_finite_nonnan.
Qed.

Section KMeansFacts.
Import DataProcessing.
Variable dim : nat.


Lemma euclideanDist_ok p c :
  good_point dim p -> good_centroid dim c ->
  exists d, euclideanDist p c = Ok d /\ nonnan d.
Proof.
  intros [Hl Hp] Hc. destruct c as [c|]; [|contradiction]. destruct Hc as [Hlc Hc].
  simpl. eexists. split; [reflexivity|]. apply sqrt_nonnan.
  apply (fold_nonneg (fun iv : nat * float => Math_pow2 (snd iv - get c (fst iv)))).
  - apply zero_nonneg.
  - apply Forall_forall. intros [i v] Hin. simpl. apply square_nonneg, sub_nonnan.
    + rewrite Forall_forall in Hp. eapply Hp, in_combine_r, Hin.
    + apply get_nonnan; auto. apply in_combine_l, in_seq in Hin. lia.
Qed.

Lemma mean_point_ok n ps :
  (Z.of_nat n < 2 ^ 53)%Z ->
  ps <> [] -> Forall (good_point dim) ps -> (length ps <= n)%nat ->
  good_centroid dim (Some (mean_point dim ps)).
Proof.
  intros n_small Hne Hps Hn. split.
  - unfold mean_point. now rewrite length_map, length_seq.
  - unfold mean_point. apply Forall_forall. intros x Hx. apply in_map_iff in Hx.
    destruct Hx as (d & <- & Hd). apply in_seq in Hd.
    apply div_count_nonnan.
    + apply (fold_add_finite (fun p : vec => get p d)); [reflexivity|].
      eapply Forall_impl; [|exact Hps]. intros p [Hl Hp]. apply get_finite; auto. lia.
    + destruct ps; simpl; [congruence|lia].
    + lia.
Qed.

Lemma good_point_centroid p : good_point dim p -> good_centroid dim (Some p).
Proof.
  intros [Hl Hp]. split; auto. eapply Forall_impl; [|exact Hp]. apply finite_nonnan.
Qed.

End KMeansFacts.

Lemma seed_in_range_good (Q : vec -> Prop) points g :
  Forall Q points -> seed_in_range points g = true ->
  exists p, fst (first_seed points g) = Some p /\ Q p.
Proof.
  unfold seed_in_range, first_seed, Math_random. simpl. intros HQ.
  destruct (floor_index _) as [i|]; [|discriminate]. intros Hi.
  apply Nat.ltb_lt in Hi. destruct (nth_error points i) as [p|] eqn:E.
  - exists p. split; auto. rewrite Forall_forall in HQ. eapply HQ, nth_error_In, E.
  - apply nth_error_None in E. lia.
Qed.

Lemma kmeans_loop_settles points k maxIterations dim g :
  (1 <= k)%nat -> points <> [] -> (Z.of_nat (length points) < 2 ^ 53)%Z ->
  well_formed dim points -> seed_in_range points g = true ->
  exists st g',
    DataProcessing.kmeans_loop points k maxIterations g = (Ok st, g')
    /\ settled (lloyd_step DataProcessing.euclideanDist
                  (DataProcessing.mean_point dim) points k)
         (length points) k maxIterations st.
Proof.
  intros Hk Hne Hn Hwf Hseed. unfold DataProcessing.kmeans_loop.
  destruct points as [|p0 ps] eqn:Ep; [congruence|]. rewrite <- Ep in *.
  assert (Hd : length p0 = dim).
  { subst points. inversion Hwf as [|? ? [H _] _]; auto. }
  rewrite Hd.
  destruct (seed_in_range_good g Hwf Hseed) as (p & Es & Hpg).
  destruct (@cluster_ok DataProcessing.euclideanDist (DataProcessing.mean_point dim)
              (good_point dim) (good_centroid dim) (length points)
              (@euclideanDist_ok dim)
              (fun ps => @mean_point_ok dim (length points) ps Hn)
              (@good_point_centroid dim) points k maxIterations g Hk Hne Hwf (le_n _))
    as (st & g' & E & (I1 & I2 & I3 & I4) & B1 & B2 & B3).
  { rewrite Es. now apply good_point_centroid. }
  exists st, g'. split; [exact E|]. unfold settled.
  split; [exact B1|]. split; [exact B2|]. split; [exact B3|].
  split; [exact I1|]. split; [exact I3|]. split; [exact I4|].
  rewrite <- I3. now apply total_size_partition.
Qed.

Section VectorFacts.
Import TextClustering.
Variable dim : nat.
Variable n : nat.


Lemma euclideanDistance_ok p c :
  good_vector dim n p -> fair_centroid c ->
  exists d, euclideanDistance p c = Ok d /\ nonnan d.
Proof.
  intros (Hl & Hp & _) Hc. destruct c as [c|]; simpl.
  2:{ eexists. split; reflexivity. }
  destruct (length p =? length c)%nat; simpl.
  2:{ eexists. split; reflexivity. }
  eexists. split; [reflexivity|]. apply sqrt_nonnan.
  apply (fold_nonneg (fun ab : float * float => ((fst ab - snd ab) * (fst ab - snd ab))%float)).
  - apply zero_nonneg.
  - apply Forall_forall. intros [a b] Hin. simpl. apply square_nonneg, sub_nonnan.
    + rewrite Forall_forall in Hp. eapply Hp, in_combine_l, Hin.
    + simpl in Hc. rewrite Forall_forall in Hc. eapply Hc, in_combine_r, Hin.
Qed.

Lemma average_ok ps :
  ps <> [] -> Forall (good_vector dim n) ps -> (length ps <= n)%nat ->
  fair_centroid (Some (average ps)).
Proof.
  intros Hne Hps Hn. simpl. unfold average. apply Forall_forall. intros x Hx.
  apply in_map_iff in Hx. destruct Hx as (d & <- & Hd). apply in_seq in Hd.
  assert (Hdim : length (hd [] ps) = dim).
  { destruct ps as [|p ps']; [congruence|]. inversion Hps as [|? ? (H & _) _]; auto. }
  rewrite Hdim in Hd.
  apply (fold_add_finite (fun v : vec => (get v d / of_nat (length ps))%float));
    [reflexivity|].
  eapply Forall_impl; [|exact Hps]. intros v (Hl & _ & Hq).
  rewrite Forall_forall in Hq. apply Hq.
  - unfold get. apply nth_In. lia.
  - destruct ps; simpl in *; [congruence|lia].
Qed.

Lemma good_vector_centroid p : good_vector dim n p -> fair_centroid (Some p).
Proof.
  intros (_ & Hp & _). simpl. eapply Forall_impl; [|exact Hp]. apply finite_nonnan.
Qed.

End VectorFacts.

Lemma averages_finite_good dim points :
  well_formed dim points -> averages_finite points = true ->
  Forall (good_vector dim (length points)) points.
Proof.
  intros Hwf Ha. unfold averages_finite in Ha. rewrite forallb_forall in Ha.
  apply Forall_forall. intros p Hp. unfold well_formed in Hwf.
  rewrite Forall_forall in Hwf. destruct (Hwf p Hp) as [Hl Hf]. split; [|split]; auto.
  apply Forall_forall. intros x Hx m Hm.
  specialize (Ha p Hp). rewrite forallb_forall in Ha. specialize (Ha x Hx).
  rewrite forallb_forall in Ha. apply Ha. apply in_seq. lia.
Qed.

Lemma kMeansWithVectors_loop_settles vectors k iterations dim g :
  (1 <= k <= length vectors)%nat ->
  well_formed dim vectors -> averages_finite vectors = true ->
  exists st g',
    TextClustering.kMeansWithVectors_loop vectors k iterations g = (Ok st, g')
    /\ settled (lloyd_step TextClustering.euclideanDistance TextClustering.average vectors k)
         (length vectors) k iterations st.
Proof.
  intros [Hk Hkn] Hwf Ha. unfold TextClustering.kMeansWithVectors_loop.
  destruct (Nat.ltb_spec (length vectors) k) as [|_]; [lia|].
  assert (Hne : vectors <> []) by (destruct vectors; simpl in *; [lia|congruence]).
  pose proof (averages_finite_good Hwf Ha) as Hg.
  destruct (@cluster_ok TextClustering.euclideanDistance TextClustering.average
              (good_vector dim (length vectors)) fair_centroid (length vectors)
              (@euclideanDistance_ok dim (length vectors))
              (@average_ok dim (length vectors))
              (@good_vector_centroid dim (length vectors))
              vectors k iterations g Hk Hne Hg (le_n _))
    as (st & g' & E & (I1 & I2 & I3 & I4) & B1 & B2 & B3).
  { destruct (fst (first_seed vectors g)) as [p|] eqn:Es; simpl; auto.
    unfold first_seed, Math_random in Es. simpl in Es.
    destruct (floor_index _); [|discriminate].
    apply nth_error_In in Es. rewrite Forall_forall in Hg.
    now apply (@good_vector_centroid dim (length vectors)), Hg. }
  exists st, g'. split; [exact E|]. unfold settled.
  split; [exact B1|]. split; [exact B2|]. split; [exact B3|].
  split; [exact I1|]. split; [exact I3|]. split; [exact I4|].
  rewrite <- I3. now apply total_size_partition.
Qed.

End ClustererFacts.

Section SingleCluster.
Import JS.

Variable dist : vec -> option vec -> result float.
Variable new_centroid : list vec -> vec.
Variable P : vec -> Prop.
Variable C : option vec -> Prop.

Hypothesis dist_ok : forall p c, P p -> C c -> exists d, dist p c = Ok d /\ nonnan d.

Lemma in_range_one l : Forall (in_range 1) l -> l = repeat 0%Z (length l).
Proof.
  induction 1 as [|a l Ha _ IH]; simpl; [reflexivity|].
  unfold in_range in Ha. f_equal; [lia|exact IH].
Qed.

Lemma assign_unchanged cs : forall points old r,
  assign dist points cs old = Ok r -> fst r = old -> snd r = false.
Proof.
  induction points as [|p ps IH]; intros [|a old] r; simpl.
  - intros E _. now inversion E.
  - intros E _. now inversion E.
  - intros E _. now inversion E.
  - destruct (mapM (fun c => dist p c) cs) as [ds|]; simpl; [|discriminate].
    destruct (assign dist ps cs old) as [r'|] eqn:E'; simpl; [|discriminate].
    intros E Hr. inversion E; subst; simpl in *. inversion Hr as [[H1 H2]].
    rewrite H1, Z.eqb_refl. eapply IH; eauto.
Qed.

Lemma assigned_all points :
  assigned points (repeat 0%Z (length points)) 0 = points.
Proof.
  unfold assigned. induction points as [|p ps IH]; simpl; [reflexivity|].
  simpl in IH. now rewrite IH.
Qed.

Lemma single_cluster_loop points c0 maxIterations :
  points <> [] -> Forall P points -> C c0 ->
  lloyd dist new_centroid points 1 maxIterations (initial_state points [c0])
  = Ok (match maxIterations with
        | O => initial_state points [c0]
        | S _ => mkLoop [Some (new_centroid points)]
                   (repeat 0%Z (length points)) 1 false
        end).
Proof.
  intros Hne Hp Hc. destruct maxIterations as [|fuel]; [reflexivity|].
  simpl. unfold lloyd_step. simpl.
  assert (Hcs : Forall C [c0]) by (constructor; auto).
  destruct (@assign_ok dist P C dist_ok [c0] points (repeat 0%Z (length points)))
    as (r & E & R1 & R2 & _); auto; [discriminate|apply repeat_length|].
  rewrite E. simpl.
  apply in_range_one in R2. rewrite R1 in R2.
  pose proof (@assign_unchanged _ _ _ _ E R2) as R3.
  rewrite R2, R3. unfold update_centroids. simpl. rewrite assigned_all.
  destruct points as [|p ps]; [congruence|].
  destruct fuel; reflexivity.
Qed.

End SingleCluster.
(* ================================================================= *)
(** * The shape of the t-SNE layout *)

Section LayoutShape.
Import JS.

Lemma normalizePoints_length {num} (A : arith num) points :
  length (normalizePoints A points) = length points.
Proof.
  unfold normalizePoints. destruct points; [reflexivity|]. now rewrite length_map.
Qed.

Lemma random_points2_length n : forall g,
  length (fst (TextClustering.random_points2 n g)) = n.
Proof.
  induction n as [|n IH]; intros g; simpl; [reflexivity|].
  specialize (IH (snd (Math_random (snd (Math_random g))))).
  destruct (TextClustering.random_points2 n _) as [rest g3]. simpl in *. now rewrite IH.
Qed.

Lemma tsne_step_length probs iterations points iter :
  length (TextClustering.tsne_step probs iterations points iter)
  = length points.
Proof.
  unfold TextClustering.tsne_step.
  assert (H : forall ex, length (TextClustering.calculateGradient points probs ex)
                         = length points).
  { intros ex. unfold TextClustering.calculateGradient.
    now rewrite length_map, length_combine, length_seq, Nat.min_id. }
  cbv zeta. destruct (iter mod 50 =? 0)%nat;
    [etransitivity; [apply normalizePoints_length|]|];
    rewrite length_map, length_combine, H; lia.
Qed.

Lemma tsne_steps_length probs iterations l : forall points,
  length (fold_left (TextClustering.tsne_step probs iterations) l points)
  = length points.
Proof.
  induction l as [|i l IH]; intros points; simpl; [reflexivity|].
  now rewrite IH, tsne_step_length.
Qed.

Lemma tSNEProjection_length Math_exp Math_log vectors iterations g :
  length (fst (TextClustering.tSNEProjection Math_exp Math_log vectors iterations g))
  = length vectors.
Proof.
  unfold TextClustering.tSNEProjection. destruct vectors as [|v vs]; [reflexivity|].
  cbv zeta. pose proof (random_points2_length (length (v :: vs)) g) as Hpts.
  destruct (TextClustering.random_points2 (length (v :: vs)) g) as [pts g'].
  simpl fst in *. etransitivity; [apply normalizePoints_length|].
  now rewrite tsne_steps_length.
Qed.

(** The projection draws two numbers per vector and nothing else. *)
Lemma tSNEProjection_rng Math_exp Math_log vectors iterations g :
  snd (TextClustering.tSNEProjection Math_exp Math_log vectors iterations g)
  = snd (TextClustering.random_points2 (length vectors) g).
Proof.
  unfold TextClustering.tSNEProjection. destruct vectors as [|v vs]; [reflexivity|].
  cbv zeta. now destruct (TextClustering.random_points2 (length (v :: vs)) g).
Qed.

End LayoutShape.

(* ================================================================= *)
(** * The clusterers: claims C3, C4 and C8 *)

Section ClustererClaims.
Import JS.

Lemma returned_ok (r : result loop_state * RNG) st g :
  r = (Ok st, g) -> returned r = (Ok (mkResult (centroids st) (assignments st)), g).
Proof. now intros ->. Qed.




(** The guard of [kMeansWithVectors]. *)
Lemma kMeansWithVectors_rejects_too_few vectors k iterations g :
  (length vectors < k)%nat ->
  TextClustering.kMeansWithVectors vectors k iterations g
  = (Throw (TextClustering.not_enough k), g).
Proof.
  intros H. unfold TextClustering.kMeansWithVectors, TextClustering.kMeansWithVectors_loop.
  apply Nat.ltb_lt in H. now rewrite H.
Qed.

(** [kmeans] has no such guard: on finite points of one dimension it returns
    a clustering with [k] centroids also when there are fewer points than
    clusters. *)
Lemma kmeans_returns_for_too_few points k maxIterations dim g :
  (length points < k)%nat -> points <> [] ->
  (Z.of_nat (length points) < 2 ^ 53)%Z ->
  well_formed dim points -> seed_in_range points g = true ->
  exists r g',
    DataProcessing.kmeans points k maxIterations g = (Ok r, g')
    /\ length (res_centroids r) = k
    /\ length (res_assignments r) = length points.
Proof.
  intros Hk Hne Hn Hwf Hseed.
  assert (Hk1 : (1 <= k)%nat) by lia.
  destruct (kmeans_loop_settles maxIterations g Hk1 Hne Hn Hwf Hseed)
    as (st & g' & E & _ & _ & _ & Hc & Ha & _).
  exists (mkResult (centroids st) (assignments st)), g'.
  split; [|split; [exact Hc|exact Ha]].
  unfold DataProcessing.kmeans. now apply returned_ok.
Qed.

(** C4 (evaluation at the failing input). With one vector and [k = 2],
    [kMeansWithVectors] raises its error, but [kmeans] returns a clustering:
    two copies of the only point as centroids. *)
Theorem kmeans_accepts_fewer_vectors_than_k :
  DataProcessing.kmeans lone_point 2 10 even_rng
  = (Ok (mkResult [Some [0; 0]; Some [0; 0]]%float [0%Z]),
     mkRNG (draws even_rng) 2)
  /\ TextClustering.kMeansWithVectors lone_point 2 50 even_rng
     = (Throw (Error "Not enough vectors for clustering. Need at least 2 vectors."),
        even_rng).
Proof. split; vm_compute; reflexivity. Qed.

(** C8, refuted as stated. On the points 0 and 2 of the line and [k = 1],
    each clusterer returns the single centroid 1, which is not an input. *)
Lemma single_centroid_not_an_input :
  ~ (forall r g', DataProcessing.kmeans segment 1 10 even_rng = (Ok r, g') ->
                  exists c, res_centroids r = [Some c] /\ In c segment)
  /\ ~ (forall r g', TextClustering.kMeansWithVectors segment 1 50 even_rng = (Ok r, g') ->
                     exists c, res_centroids r = [Some c] /\ In c segment).
Proof.
  assert (Hno : forall c, [Some c] = [Some [1%float]] -> In c segment -> False).
  { intros c E Hin. inversion E; subst.
    assert (Hz : forall z, [1%float] = [z] -> (z =? 1)%float = true).
    { intros z Ez. inversion Ez. reflexivity. }
    destruct Hin as [H|[H|[]]]; symmetry in H; apply Hz in H; vm_compute in H;
      discriminate. }
  split; intros H.
  - destruct (H (mkResult [Some [1%float]] [0%Z; 0%Z]) (mkRNG (draws even_rng) 1))
      as (c & E & Hin); [vm_compute; reflexivity|]. simpl in E. symmetry in E. eauto.
  - destruct (H (mkResult [Some [1%float]] [0%Z; 0%Z]) (mkRNG (draws even_rng) 1))
      as (c & E & Hin); [vm_compute; reflexivity|]. simpl in E. symmetry in E. eauto.
Qed.

(** C8, amended. With [k = 1] each clusterer returns exactly one centroid
    and assigns every vector to cluster 0. The seed it starts from is an input
    vector, and it is what is returned when no round of the main loop runs;
    after a round the centroid is the mean of all input vectors, as the
    clusterer computes it. *)
Theorem single_cluster_returns_seed_or_mean points dim maxIterations g :
  points <> [] ->
  (Z.of_nat (length points) < 2 ^ 32)%Z ->
  well_formed dim points ->
  seed_in_range points g = true ->
  averages_finite points = true ->
  exists seed g',
    In seed points
    /\ DataProcessing.kmeans points 1 maxIterations g
       = (Ok (mkResult
                [Some (match maxIterations with
                       | O => seed
                       | S _ => DataProcessing.mean_point dim points
                       end)]
                (repeat 0%Z (length points))), g')
    /\ TextClustering.kMeansWithVectors points 1 maxIterations g
       = (Ok (mkResult
                [Some (match maxIterations with
                       | O => seed
                       | S _ => TextClustering.average points
                       end)]
                (repeat 0%Z (length points))), g').
Proof.
  intros Hne Hn Hwf Hseed Havg.
  destruct (seed_in_range_good g Hwf Hseed) as (seed & Es & Hgood).
  assert (Hin : In seed points).
  { unfold first_seed, Math_random in Es. simpl in Es.
    destruct (floor_index _); [|discriminate]. eapply nth_error_In, Es. }
  exists seed, (snd (first_seed points g)). split; [exact Hin|].
  pose proof (averages_finite_good Hwf Havg) as Hvec.
  split.
  - unfold DataProcessing.kmeans, DataProcessing.kmeans_loop.
    destruct points as [|p0 ps] eqn:Ep; [congruence|]. rewrite <- Ep in *.
    assert (Hd : length p0 = dim).
    { subst points. inversion Hwf as [|? ? [H _] _]; auto. }
    rewrite Hd. unfold cluster, seeds.
    destruct (first_seed points g) as [c0 g1]. simpl in Es. subst c0. simpl.
    rewrite (@single_cluster_loop DataProcessing.euclideanDist
               (DataProcessing.mean_point dim) (good_point dim) (good_centroid dim)
               (@euclideanDist_ok dim) points (Some seed) maxIterations Hne Hwf
               (good_point_centroid Hgood)).
    destruct maxIterations; reflexivity.
  - unfold TextClustering.kMeansWithVectors, TextClustering.kMeansWithVectors_loop.
    destruct (Nat.ltb_spec (length points) 1) as [H|_].
    { destruct points; simpl in *; [congruence|lia]. }
    unfold cluster, seeds.
    destruct (first_seed points g) as [c0 g1]. simpl in Es. subst c0. simpl.
    assert (Hs : good_vector dim (length points) seed).
    { rewrite Forall_forall in Hvec. now apply Hvec. }
    rewrite (@single_cluster_loop TextClustering.euclideanDistance
               TextClustering.average (good_vector dim (length points)) fair_centroid
               (@euclideanDistance_ok dim (length points)) points (Some seed)
               maxIterations Hne Hvec (good_vector_centroid Hs)).
    destruct maxIterations; reflexivity.
Qed.

(** C8, amended, at the points 0 and 2 of the line. *)
Lemma single_cluster_returns_seed_or_mean_witness :
  exists seed g',
    In seed segment
    /\ DataProcessing.kmeans segment 1 10 even_rng
       = (Ok (mkResult [Some (DataProcessing.mean_point 1 segment)] [0%Z; 0%Z]), g')
    /\ TextClustering.kMeansWithVectors segment 1 10 even_rng
       = (Ok (mkResult [Some (TextClustering.average segment)] [0%Z; 0%Z]), g').
Proof.
  apply (@single_cluster_returns_seed_or_mean segment 1 10 even_rng).
  - discriminate.
  - reflexivity.
  - repeat constructor.
  - reflexivity.
  - reflexivity.
Defined.

End ClustererClaims.
(* ================================================================= *)
(** * [clusterTexts]: claims C1, C7, C9 and C10 *)

Section ClusterTextsClaims.
Import JS DataProcessing.

Lemma mock_data_shape g :
  let mock := fst (generateMockClusteringData g) in
  length (clusters mock) = 5
  /\ clusterCount mock = 5
  /\ map cl_id (clusters mock) = [0; 1; 2; 3; 4]
  /\ map cl_name (clusters mock) = map (fun d => Some (fst d)) clusterDefinitions
  /\ map cl_keyTerms (clusters mock) = map snd clusterDefinitions.
Proof.
  unfold generateMockClusteringData.
  destruct (draw 5 g) as [us g1].
  destruct (mock_clusters (map mock_size us) 0 0 g1) as [pts g2].
  simpl. repeat split; reflexivity.
Qed.

(** C1, refuted as stated. For a list with one usable document
    [clusterTexts] returns fifty fictitious points in five clusters. *)
Lemma degenerate_result_not_empty :
  ~ (forall r g', clusterTexts one_document even_rng = Some (r, g') ->
                  points r = [] /\ clusters r = []).
Proof.
  intros H.
  assert (Hlen : match clusterTexts one_document even_rng with
                 | Some (r, _) => length (clusters r)
                 | None => 0
                 end = 5) by (vm_compute; reflexivity).
  destruct (clusterTexts one_document even_rng) as [[r g']|]; [|discriminate].
  destruct (H r g' eq_refl) as [_ Hc]. rewrite Hc in Hlen. discriminate.
Qed.

(** C1, amended. With fewer than two usable documents, or with an empty
    vocabulary, [clusterTexts] raises nothing and returns the result of
    [generateMockClusteringData]: not an empty structure, but five clusters
    with the ids 0..4 and the names and key terms of [clusterDefinitions],
    and [clusterCount = 5]. *)
Theorem degenerate_input_returns_mock_data data g :
  (length (usable_documents data) < 2)%nat \/ vocabulary data = [] ->
  clusterTexts (Some data) g = Some (generateMockClusteringData g)
  /\ length (clusters (fst (generateMockClusteringData g))) = 5
  /\ clusterCount (fst (generateMockClusteringData g)) = 5
  /\ map cl_id (clusters (fst (generateMockClusteringData g))) = [0; 1; 2; 3; 4]
  /\ map cl_keyTerms (clusters (fst (generateMockClusteringData g)))
     = map snd clusterDefinitions.
Proof.
  intros H. destruct (mock_data_shape g) as (M1 & M2 & M3 & _ & M5).
  split; [|auto].
  unfold clusterTexts. destruct data as [|it data']; [reflexivity|].
  set (d := it :: data') in *.
  destruct (Nat.ltb_spec (length (collect_texts d)) 2) as [|Ht]; [reflexivity|].
  fold (usable_documents d).
  destruct (Nat.ltb_spec (length (usable_documents d)) 2) as [|Hp]; [reflexivity|].
  destruct H as [H|H]; [lia|].
  unfold vocabulary in H. rewrite H. reflexivity.
Qed.

(** C1, amended, at a list of one document. *)
Lemma degenerate_input_returns_mock_data_witness :
  clusterTexts one_document even_rng = Some (generateMockClusteringData even_rng)
  /\ length (clusters (fst (generateMockClusteringData even_rng))) = 5
  /\ clusterCount (fst (generateMockClusteringData even_rng)) = 5
  /\ map cl_id (clusters (fst (generateMockClusteringData even_rng))) = [0; 1; 2; 3; 4]
  /\ map cl_keyTerms (clusters (fst (generateMockClusteringData even_rng)))
     = map snd clusterDefinitions.
Proof.
  apply (@degenerate_input_returns_mock_data
           [Item (Some "hello world") None] even_rng).
  left. vm_compute. lia.
Defined.

(** *** The similarity matrix *)

Lemma object_without_length_gives_zero vecA vecB :
  no_length_property vecA -> cosineSimilarity vecA vecB = Some zero.
Proof.
  destruct vecA as [a|o]; simpl; [contradiction|]. intros H.
  unfold cosineSimilarity. simpl. now rewrite H.
Qed.

Lemma sequence_all {A} (l : list (option A)) (x : A) :
  Forall (fun o => o = Some x) l -> sequence l = Some (repeat x (length l)).
Proof.
  induction 1 as [|o l Ho _ IH]; simpl; [reflexivity|]. now rewrite Ho, IH.
Qed.

Lemma similarity_entry_zero docVectors i j :
  Forall no_length_property docVectors -> (i < length docVectors)%nat ->
  similarity_entry docVectors i j = Some zero.
Proof.
  intros H Hi. unfold similarity_entry.
  rewrite object_without_length_gives_zero; [reflexivity|].
  rewrite Forall_forall in H. apply H, nth_In, Hi.
Qed.

(** C10, refuted as stated. The first of [length_documents] has the term
    "length": its vector has a [length] property, 0.5, so the loop of
    [cosineSimilarity] runs once on [undefined] entries, the result is [NaN]
    and the matrix gets the fallback 1 on the diagonal. *)
Lemma length_term_breaks_zero_matrix :
  document_vectors length_documents
  = [Obj [("length", 0x1p-1); ("matter", 0x1p-1)];
     Obj [("quantum", 0x1.5555555555555p-2); ("state", 0x1.5555555555555p-2);
          ("entangl", 0x1.5555555555555p-2)]]%float
  /\ cosineSimilarity (nth 0 (document_vectors length_documents) (Obj []))
       (nth 0 (document_vectors length_documents) (Obj [])) = Some nan
  /\ similarity_matrix (document_vectors length_documents)
     = Some [[1; 0]; [0; 0]]%float
  /\ similarity_matrix (document_vectors length_documents)
     <> Some [[0; 0]; [0; 0]]%float.
Proof.
  split; [vm_compute; reflexivity|]. split; [vm_compute; reflexivity|].
  split; [vm_compute; reflexivity|].
  intros H.
  apply (f_equal (fun o => match o with
                           | Some ((x :: _) :: _) => (x =? 0)%float
                           | _ => true
                           end)) in H.
  vm_compute in H. discriminate.
Qed.

(** *** The target distance *)

Lemma entry_distance_matrix similarityMatrix i j :
  (i < length similarityMatrix)%nat ->
  (j < length (nth i similarityMatrix []))%nat ->
  entry (distance_matrix similarityMatrix) i j
  = (1 - entry similarityMatrix i j)%float.
Proof.
  intros Hi Hj. unfold entry, distance_matrix, get.
  rewrite (nth_indep _ [] (map (fun sim => (1 - sim)%float) [])) by (now rewrite length_map).
  rewrite map_nth.
  rewrite (nth_indep _ undefined_number (1 - undefined_number)%float)
    by (now rewrite length_map).
  now rewrite map_nth.
Qed.

(** What [simpleMDS] subtracts from the embedding distance is [1] minus the
    entry of its argument. *)
Lemma discrepancy_is_distance_minus_target distanceMatrix dimensions points i j :
  discrepancy distanceMatrix dimensions points i j
  = (embeddingDist dimensions (nth i points []) (nth j points [])
     - (1 - entry distanceMatrix i j))%float.
Proof. reflexivity. Qed.

(** In [clusterTexts] the argument of [simpleMDS] is already [1 - similarity]. *)
Lemma clusterTexts_target_is_converted_twice similarityMatrix i j :
  (i < length similarityMatrix)%nat ->
  (j < length (nth i similarityMatrix []))%nat ->
  targetDist (distance_matrix similarityMatrix) i j
  = (1 - (1 - entry similarityMatrix i j))%float.
Proof.
  intros Hi Hj. unfold targetDist. now rewrite entry_distance_matrix.
Qed.

(** C7 (evaluation at the failing input). For [plain_documents] the
    similarity of the two documents is 0, so the target distance of the claim
    is 1; [clusterTexts] hands [simpleMDS] the matrix of distances, and the
    target distance [simpleMDS] computes from it is 0. *)
Theorem clusterTexts_target_distance_is_similarity :
  similarity_matrix (document_vectors plain_documents)
  = Some [[0; 0]; [0; 0]]%float
  /\ distance_matrix [[0; 0]; [0; 0]]%float = [[1; 1]; [1; 1]]%float
  /\ targetDist (distance_matrix [[0; 0]; [0; 0]]%float) 0 1 = 0%float
  /\ (1 - entry [[0; 0]; [0; 0]]%float 0 1)%float = 1%float
  /\ targetDist [[0; 0]; [0; 0]]%float 0 1 = 1%float.
Proof. repeat split; vm_compute; reflexivity. Qed.

(** *** The cluster summaries *)

Lemma summaries_length tfidf n pts k : length (summaries tfidf n pts k) = k.
Proof. unfold summaries. now rewrite length_map, length_seq. Qed.

Lemma summaries_nth tfidf n pts k i :
  (i < k)%nat ->
  nth i (summaries tfidf n pts k) (placeholder 0) = summarize tfidf n pts i.
Proof.
  intros Hi. unfold summaries.
  rewrite (nth_indep _ (placeholder 0) (summarize tfidf n pts 0))
    by (now rewrite length_map, length_seq).
  rewrite map_nth, seq_nth; auto.
Qed.

Lemma summarize_id tfidf n pts i : cl_id (summarize tfidf n pts i) = i.
Proof.
  unfold summarize. destruct (map pt_text _); reflexivity.
Qed.

Lemma summarize_empty tfidf n pts i :
  (forall p, In p pts -> pt_cluster p <> Z.of_nat i) ->
  summarize tfidf n pts i = placeholder i.
Proof.
  intros H. unfold summarize.
  replace (filter (fun p => (pt_cluster p =? Z.of_nat i)%Z) pts) with (@nil point);
    [reflexivity|].
  symmetry. induction pts as [|p pts IH]; simpl; [reflexivity|].
  destruct (Z.eqb_spec (pt_cluster p) (Z.of_nat i)) as [E|_].
  - exfalso. apply (H p); simpl; auto.
  - apply IH. intros q Hq. apply H. now right.
Qed.

Lemma clusterTexts_summaries_complete data g r g' :
  clusterTexts data g = Some (r, g') -> length (clusters r) = clusterCount r.
Proof.
  assert (Hmock : forall g0 r0 g1, Some (generateMockClusteringData g0) = Some (r0, g1) ->
                                   length (clusters r0) = clusterCount r0).
  { intros g0 r0 g1 E. destruct (mock_data_shape g0) as (M1 & M2 & _).
    inversion E as [E']. rewrite E' in *. simpl in *. congruence. }
  unfold clusterTexts. destruct data as [[|it data']|]; eauto.
  set (d := it :: data').
  destruct (_ <? 2)%nat; eauto. destruct (_ <? 2)%nat; eauto.
  destruct (_ =? 0)%nat; eauto. destruct (_ <? 2)%nat; eauto.
  destruct (similarity_matrix _) as [S|]; [|discriminate].
  destruct (simpleMDS _ 2 g) as [mds g1].
  destruct (cluster_assignments _ _ _ g1) as [ca g2].
  intros E. inversion E; subst. simpl. apply summaries_length.
Qed.

Lemma cluster_size_labels updatedPoints c :
  cluster_size (map TextClustering.lb_cluster updatedPoints) c
  = length (filter (fun p => (TextClustering.lb_cluster p =? Z.of_nat c)%Z) updatedPoints).
Proof.
  unfold cluster_size. induction updatedPoints as [|p ps IH]; simpl; [reflexivity|].
  destruct (_ =? _)%Z; simpl; now rewrite IH.
Qed.

Lemma cluster_statistics_length updatedPoints k :
  length (TextClustering.cluster_statistics updatedPoints k)
  = length (filter (fun c => negb (Nat.eqb (cluster_size (map TextClustering.lb_cluster updatedPoints) c) 0))
              (seq 0 k)).
Proof.
  unfold TextClustering.cluster_statistics.
  induction (seq 0 k) as [|c cs IH]; [reflexivity|].
  cbn [flat_map filter]. rewrite length_app, IH, cluster_size_labels.
  destruct (filter _ updatedPoints); reflexivity.
Qed.

Lemma combine_middle {A B C D} (h : A -> C -> D) (l2 : list B) :
  forall (l1 : list A) (l3 : list C), length l2 = length l1 ->
  map (fun x => h (fst x) (snd (snd x))) (combine l1 (combine l2 l3))
  = map (fun x => h (fst x) (snd x)) (combine l1 l3).
Proof.
  induction l2 as [|b l2 IH]; intros [|a l1] l3 H; try discriminate; [reflexivity|].
  destruct l3 as [|c l3]; [reflexivity|]. simpl. f_equal. apply IH. now inversion H.
Qed.

(** What [processVectorData] returns as clusters is the statistics loop run
    on the assignments of [kMeansWithVectors], and its [clusterCount] is the
    length of that list. *)
Lemma processVectorData_clusters Math_exp Math_log data g r g' :
  TextClustering.processVectorData Math_exp Math_log data g = (Ok r, g') ->
  exists km,
    TextClustering.kMeansWithVectors (map snd (TextClustering.vd_points data))
      (TextClustering.requested_clusters (TextClustering.vd_clusterCount data)) 50
      (snd (TextClustering.random_points2 (length (TextClustering.vd_points data)) g))
    = (Ok km, g')
    /\ TextClustering.vr_clusters r
       = TextClustering.cluster_statistics
           (label (TextClustering.vd_points data) (res_assignments km))
           (TextClustering.requested_clusters (TextClustering.vd_clusterCount data))
    /\ TextClustering.vr_clusterCount r = length (TextClustering.vr_clusters r).
Proof.
  unfold TextClustering.processVectorData. intros H.
  pose proof (tSNEProjection_length Math_exp Math_log
                (map snd (TextClustering.vd_points data)) 1000 g) as Hlen.
  pose proof (tSNEProjection_rng Math_exp Math_log
                (map snd (TextClustering.vd_points data)) 1000 g) as Hrng.
  rewrite length_map in Hlen, Hrng.
  destruct (TextClustering.vd_points data) as [|p ps] eqn:Hp; [discriminate|].
  destruct (TextClustering.tSNEProjection _ _ _ _ g) as [coords g1].
  simpl fst in Hlen. simpl snd in Hrng. subst g1.
  destruct (TextClustering.kMeansWithVectors _ _ _ _) as [[km|e] g2]; [|discriminate].
  inversion H; subst. exists km. split; [reflexivity|]. split; [|reflexivity].
  cbn [TextClustering.vr_clusters]. f_equal. unfold label.
  rewrite map_map.
  exact (combine_middle (fun a c => TextClustering.mkLabelled (fst a) c) coords
           (p :: ps) (res_assignments km) Hlen).
Qed.

(** Whatever [Math.exp] and [Math.log] compute, three equal vectors and a
    requested count of 2 give one cluster. *)
Lemma processVectorData_skips_empty_cluster Math_exp Math_log :
  exists r g',
    TextClustering.processVectorData Math_exp Math_log
      (TextClustering.mkVectorData three_alike (Some 2)) even_rng = (Ok r, g')
    /\ map TextClustering.st_id (TextClustering.vr_clusters r) = [0]
    /\ TextClustering.vr_clusterCount r = 1.
Proof.
  unfold TextClustering.processVectorData.
  pose proof (tSNEProjection_rng Math_exp Math_log (map snd three_alike) 1000 even_rng) as Hrng.
  pose proof (tSNEProjection_length Math_exp Math_log (map snd three_alike) 1000 even_rng) as Hlen.
  cbn [TextClustering.vd_points TextClustering.vd_clusterCount].
  destruct (TextClustering.tSNEProjection _ _ _ _ even_rng) as [coords g1].
  simpl fst in Hlen. simpl snd in Hrng. subst g1.
  destruct coords as [|c1 [|c2 [|c3 [|c4 cs]]]]; try discriminate Hlen.
  vm_compute. eexists. eexists. split; [reflexivity|]. split; reflexivity.
Qed.
(** C9, refuted as stated. [kMeansWithVectors] puts three equal vectors
    into cluster 0 of two, and the statistics loop of [processVectorData]
    then lists one cluster, not two. *)
Lemma empty_cluster_is_skipped :
  TextClustering.kMeansWithVectors (map snd three_alike) 2 50 even_rng
  = (Ok (mkResult [Some [1%float]; Some [1%float]] [0; 0; 0]%Z),
     mkRNG (draws even_rng) 2)
  /\ length (TextClustering.cluster_statistics
               (label three_alike [0; 0; 0]%Z) 2) = 1
  /\ map TextClustering.st_id
       (TextClustering.cluster_statistics (label three_alike [0; 0; 0]%Z) 2) = [0].
Proof. repeat split; vm_compute; reflexivity. Qed.

(** C9, amended. The summary loop of [clusterTexts] writes one entry per
    cluster id, [k] in all, in the order of the ids, and the placeholder
    (size 0, the key term "Empty cluster", an empty example) for a cluster
    without documents; whatever [clusterTexts] returns has as many summaries
    as its [clusterCount]. The statistics loop of [processVectorData] skips
    the empty clusters: what [processVectorData] returns is that loop run on
    the assignments of the clusterer, with the length of the list as
    [clusterCount], and the list has one entry per non-empty cluster, at
    most [k], and no placeholder. *)
Theorem summaries_cover_every_cluster tfidf n pts k :
  length (summaries tfidf n pts k) = k
  /\ (forall i, (i < k)%nat ->
        cl_id (nth i (summaries tfidf n pts k) (placeholder 0)) = i
        /\ ((forall p, In p pts -> pt_cluster p <> Z.of_nat i) ->
            nth i (summaries tfidf n pts k) (placeholder 0) = placeholder i))
  /\ (forall data g r g',
        clusterTexts data g = Some (r, g') -> length (clusters r) = clusterCount r)
  /\ (forall Math_exp Math_log data g r g',
        TextClustering.processVectorData Math_exp Math_log data g = (Ok r, g') ->
        exists assignments,
          TextClustering.vr_clusters r
          = TextClustering.cluster_statistics
              (label (TextClustering.vd_points data) assignments)
              (TextClustering.requested_clusters (TextClustering.vd_clusterCount data))
          /\ TextClustering.vr_clusterCount r = length (TextClustering.vr_clusters r))
  /\ (forall updatedPoints,
        length (TextClustering.cluster_statistics updatedPoints k)
        = length (filter (fun c =>
                    negb (Nat.eqb (cluster_size
                                     (map TextClustering.lb_cluster updatedPoints) c) 0))
                    (seq 0 k))
        /\ (length (TextClustering.cluster_statistics updatedPoints k) <= k)%nat
        /\ Forall (fun s => (1 <= TextClustering.st_size s)%nat)
             (TextClustering.cluster_statistics updatedPoints k)).
Proof.
  split; [apply summaries_length|]. split; [|split; [|split]].
  - intros i Hi. rewrite summaries_nth by exact Hi. split.
    + apply summarize_id.
    + apply summarize_empty.
  - apply clusterTexts_summaries_complete.
  - intros Math_exp Math_log data g r g' H.
    destruct (processVectorData_clusters _ _ _ _ H) as (km & _ & Hc & Hn).
    exists (res_assignments km). now split.
  - intros updatedPoints. split; [apply cluster_statistics_length|]. split.
    + rewrite cluster_statistics_length.
      etransitivity; [apply filter_length_le|]. now rewrite length_seq.
    + unfold TextClustering.cluster_statistics. apply Forall_forall.
      intros s Hs. apply in_flat_map in Hs. destruct Hs as (c & _ & Hs).
      destruct (filter _ updatedPoints) as [|p ps]; [contradiction|].
      destruct Hs as [<-|[]]. simpl. lia.
Qed.

End ClusterTextsClaims.
(* ================================================================= *)
(** * [cosineSimilarity] on arrays: claim C2 *)

Section CosineClaims.
Import JS DataProcessing.

Lemma cosine_fold vecA vecB l : forall d a b,
  fold_left (fun acc i =>
               let '(dotProduct, normA, normB) := acc in
               ((dotProduct + elem vecA i * elem vecB i)%float,
                (normA + elem vecA i * elem vecA i)%float,
                (normB + elem vecB i * elem vecB i)%float)) l (d, a, b)
  = (fold_left (fun s i => (s + elem vecA i * elem vecB i)%float) l d,
     fold_left (fun s i => (s + elem vecA i * elem vecA i)%float) l a,
     fold_left (fun s i => (s + elem vecB i * elem vecB i)%float) l b).
Proof. induction l as [|i l IH]; intros d a b; simpl; [reflexivity|apply IH]. Qed.

Lemma cosine_sums_split n vecA vecB :
  cosine_sums n vecA vecB
  = (fold_left (fun s i => (s + elem vecA i * elem vecB i)%float) (seq 0 n) zero,
     fold_left (fun s i => (s + elem vecA i * elem vecA i)%float) (seq 0 n) zero,
     fold_left (fun s i => (s + elem vecB i * elem vecB i)%float) (seq 0 n) zero).
Proof. apply cosine_fold. Qed.

Lemma fold_left_mapped {A B C} (f : A -> B -> A) (g : C -> B) l : forall s,
  fold_left (fun s i => f s (g i)) l s = fold_left f (map g l) s.
Proof. induction l as [|x l IH]; intros s; simpl; auto. Qed.

Lemma map_get_seq a : map (get a) (seq 0 (length a)) = a.
Proof.
  apply (nth_ext _ _ undefined_number undefined_number).
  - now rewrite length_map, length_seq.
  - intros i Hi. rewrite length_map, length_seq in Hi.
    rewrite (nth_indep _ undefined_number (get a 0)) by (now rewrite length_map, length_seq).
    rewrite map_nth, seq_nth by exact Hi. reflexivity.
Qed.

Lemma fold_seq_get (f : float -> float -> float) a s :
  fold_left (fun s i => f s (get a i)) (seq 0 (length a)) s = fold_left f a s.
Proof. now rewrite fold_left_mapped, map_get_seq. Qed.

Lemma fold_zero_squares {A} (g : A -> float) l :
  Forall (fun i => g i = zero \/ g i = neg_zero) l ->
  fold_left (fun s i => (s + g i * g i)%float) l zero = zero.
Proof.
  induction 1 as [|i l Hi _ IH]; simpl; [reflexivity|].
  destruct Hi as [-> | ->]; exact IH.
Qed.

Lemma cosine_value_zero_left d b : cosine_value (d, zero, b) = zero.
Proof. reflexivity. Qed.

Lemma cosine_value_zero_right d a : cosine_value (d, a, zero) = zero.
Proof.
  unfold cosine_value. change (strict_eq zero zero) with true.
  now rewrite orb_true_r.
Qed.

(** C2, refuted as stated. The vector (1, 1) has the similarity
    0.9999999999999998 with itself, since the product of the two square roots
    of 2 is not 2; the similarity of (2^600) with itself is [NaN], since its
    squared norm overflows; and so is that of (1) with the empty vector, whose
    norm is zero. *)
Lemma self_similarity_not_one :
  cosineSimilarity (Arr [1; 1]%float) (Arr [1; 1]%float)
  = Some 0x1.ffffffffffffep-1%float
  /\ cosineSimilarity (Arr [1; 1]%float) (Arr [1; 1]%float) <> Some 1%float
  /\ cosineSimilarity (Arr [0x1p+600]%float) (Arr [0x1p+600]%float) = Some nan
  /\ cosineSimilarity (Arr [1]%float) (Arr []) = Some nan.
Proof.
  split; [vm_compute; reflexivity|]. split; [|split; vm_compute; reflexivity].
  intros H.
  apply (f_equal (fun o => match o with
                           | Some x => (x =? 1)%float
                           | None => true
                           end)) in H.
  vm_compute in H. discriminate.
Qed.

(** The similarity of an array with itself, from its squared norm. *)
Lemma self_similarity_formula a :
  cosineSimilarity (Arr a) (Arr a)
  = Some (if strict_eq (squared_norm a) zero then zero
          else (squared_norm a
                / (Math_sqrt (squared_norm a) * Math_sqrt (squared_norm a)))%float).
Proof.
  unfold cosineSimilarity. simpl trips. cbv iota. rewrite cosine_sums_split.
  simpl elem. f_equal. rewrite (fold_seq_get (fun s x => (s + x * x)%float) a zero).
  fold (squared_norm a). unfold cosine_value. now rewrite orb_diag.
Qed.

Lemma moderate_not_zero s : moderate s = true -> strict_eq s zero = false.
Proof.
  intros H. destruct (moderate_normal _ H) as (m & e & E & _).
  unfold strict_eq. rewrite eqb_spec, E. reflexivity.
Qed.

(** C2, amended. On arrays [cosineSimilarity] returns 0 when every entry of
    the first is zero, and when every entry of the second is zero and the
    second is at least as long as the first: nothing is divided by zero. The
    similarity of an array with itself is a number within 2^-49 of 1 when the
    squared norm, as the loop accumulates it, lies between 2^-900 and 2^900:
    the square root, the product of the two roots and the quotient are each
    rounded once. It is [NaN] when the squared norm overflows. *)
Theorem cosine_similarity_of_arrays a b :
  (zero_vector a -> cosineSimilarity (Arr a) (Arr b) = Some zero)
  /\ (zero_vector b -> (length a <= length b)%nat ->
      cosineSimilarity (Arr a) (Arr b) = Some zero)
  /\ (moderate (squared_norm a) = true ->
      exists c, cosineSimilarity (Arr a) (Arr a) = Some c
                /\ (Rabs (real_of c - 1) <= / IZR (2 ^ 49))%R)
  /\ (squared_norm a = infinity -> cosineSimilarity (Arr a) (Arr a) = Some nan).
Proof.
  split; [|split; [|split]].
  - intros Ha. unfold cosineSimilarity. simpl trips. cbv iota. rewrite cosine_sums_split.
    simpl elem. f_equal.
    rewrite (fold_seq_get (fun s x => (s + x * x)%float) a zero).
    rewrite (@fold_zero_squares _ (fun x => x) a Ha). apply cosine_value_zero_left.
  - intros Hb Hlen. unfold cosineSimilarity. simpl trips. cbv iota.
    rewrite cosine_sums_split. simpl elem. f_equal.
    rewrite (@fold_zero_squares _ (fun i => get b i)).
    + apply cosine_value_zero_right.
    + apply Forall_forall. intros i Hi. apply in_seq in Hi.
      unfold zero_vector in Hb. rewrite Forall_forall in Hb.
      apply Hb. unfold get. apply nth_In. lia.
  - intros H. rewrite self_similarity_formula, (moderate_not_zero _ H).
    eexists. split; [reflexivity|]. now apply self_ratio_close.
  - intros H. rewrite self_similarity_formula, H. reflexivity.
Qed.

(** C2, amended, at the vector (1, 1): its similarity with itself, 2^-52
    below 1, is within 2^-49 of 1. *)
Lemma cosine_similarity_of_arrays_witness :
  exists c, cosineSimilarity (Arr [1; 1]%float) (Arr [1; 1]%float) = Some c
            /\ (Rabs (real_of c - 1) <= / IZR (2 ^ 49))%R.
Proof.
  destruct (@cosine_similarity_of_arrays [1; 1]%float []) as (_ & _ & H & _).
  apply H. reflexivity.
Defined.

End CosineClaims.
(* ================================================================= *)
(** * The layouts: claim C5 *)

Section TwoPoints.
Import JS TextClustering.

Lemma probability_finite p :
  probability p = true -> exists m e, Prim2SF p = S754_finite false m e.
Proof.
  unfold probability. rewrite ltb_spec, leb_spec. intros H.
  apply andb_prop in H. destruct H as [H1 H2].
  change (Prim2SF 0) with (S754_zero false) in H1.
  change (Prim2SF 1) with (S754_finite false 4503599627370496 (-52)) in H2.
  destruct (Prim2SF p) as [s|s| |s m e]; try discriminate.
  - destruct s; discriminate.
  - destruct s; [discriminate|]. now exists m, e.
Qed.

Lemma add_zero_l p : probability p = true -> (zero + p)%float = p.
Proof.
  intros H. destruct (probability_finite _ H) as (m & e & E).
  apply Prim2SF_inj. rewrite add_spec, E. reflexivity.
Qed.

Lemma add_zero_r p : probability p = true -> (p + zero)%float = p.
Proof.
  intros H. destruct (probability_finite _ H) as (m & e & E).
  apply Prim2SF_inj. rewrite add_spec, E. reflexivity.
Qed.

Lemma div_zero_l p : probability p = true -> (zero / p)%float = zero.
Proof.
  intros H. destruct (probability_finite _ H) as (m & e & E).
  apply Prim2SF_inj. rewrite div_spec, E. reflexivity.
Qed.

Lemma SFdiv_self m e :
  SF64div (S754_finite false m e) (S754_finite false m e)
  = S754_finite false 4503599627370496 (-52).
Proof.
  unfold SF64div, SFdiv, SFdiv_core_binary. cbn [xorb Zdigits2].
  replace (Z.pos (digits2_pos m) + e - (Z.pos (digits2_pos m) + e))%Z with 0%Z by lia.
  rewrite Z.sub_diag.
  change (Z.min (fexp prec emax 0) 0) with (-53)%Z.
  change (0 - -53)%Z with 53%Z. rewrite Z.shiftl_mul_pow2 by lia.
  pose proof (Z.div_mod (Z.pos m * 2 ^ 53) (Z.pos m) ltac:(lia)) as Q.
  pose proof (Z.mod_pos_bound (Z.pos m * 2 ^ 53) (Z.pos m) ltac:(lia)) as B.
  unfold Z.div, Z.modulo in Q, B.
  destruct (Z.div_eucl (Z.pos m * 2 ^ 53) (Z.pos m)) as [q r].
  assert (Hq : q = (2 ^ 53)%Z) by nia. assert (Hr : r = 0%Z) by nia. subst q r.
  unfold new_location, new_location_even, new_location_odd.
  destruct (Z.even (Z.pos m)); reflexivity.
Qed.

Lemma div_self p : probability p = true -> (p / p)%float = one.
Proof.
  intros H. destruct (probability_finite _ H) as (m & e & E).
  apply Prim2SF_inj. rewrite div_spec, E. apply SFdiv_self.
Qed.

(** A target between 1 and 2 is far above an entropy of 0. *)
Lemma target_not_reached t :
  ((1 <=? t) && (t <=? 2))%float = true ->
  (abs (zero - t) <? tolerance)%float = false /\ (zero <? t)%float = true.
Proof.
  rewrite !leb_spec. intros H. apply andb_prop in H. destruct H as [H1 H2].
  rewrite !ltb_spec, abs_spec, sub_spec.
  change (Prim2SF 1) with (S754_finite false 4503599627370496 (-52)) in H1.
  change (Prim2SF 2) with (S754_finite false 4503599627370496 (-51)) in H2.
  change (Prim2SF zero) with (S754_zero false).
  change (Prim2SF tolerance) with (S754_finite false 5764607523034235 (-59)).
  destruct (Prim2SF t) as [s|s| |s m e]; try discriminate.
  - destruct s; discriminate.
  - destruct s; [discriminate|]. split; [|reflexivity].
    unfold SFleb, SFcompare in H1. cbn [SF64sub SFsub SFabs negb].
    unfold SFltb, SFcompare.
    destruct (Z.compare_spec (-52) e) as [C|C|C]; try discriminate.
    + subst e. reflexivity.
    + destruct (Z.compare_spec e (-59)) as [D|D|D]; try lia; reflexivity.
Qed.

Variables Math_exp Math_log : float -> float.
Hypothesis log_one : Math_log 1 = zero.
Hypothesis log_five : ((1 <=? Math_log 5) && (Math_log 5 <=? 2))%float = true.
Hypothesis exp_small : forall x, small_exponent x = true -> probability (Math_exp x) = true.

Lemma entropy_step p :
  probability p = true ->
  row_entropy Math_log [zero; p] = zero /\ row_entropy Math_log [p; zero] = zero.
Proof.
  intros H. unfold row_entropy, sum_list. cbn [fold_left].
  change (zero + zero)%float with zero.
  rewrite (add_zero_l _ H), (div_zero_l _ H), (div_self _ H).
  change (zero + p + zero)%float with (zero + p + zero)%float.
  rewrite (add_zero_r _ H), (div_zero_l _ H), (div_self _ H).
  change (tiny <? zero)%float with false. change (tiny <? one)%float with true.
  cbv iota. change one with 1%float. rewrite log_one.
  split; reflexivity.
Qed.

Lemma bisect_first fuel : forall sigmaMin sigma,
  forallb small_exponent (exponents_up fuel 5 1000 sigma) = true ->
  bisect Math_exp Math_log fuel [0; 5]%float (Math_log 5) 0 (sigmaMin, 1000%float, sigma)
  = sigma_up fuel 1000 sigma.
Proof.
  destruct (target_not_reached _ log_five) as [T1 T2].
  induction fuel as [|fuel IH]; intros sigmaMin sigma H; [reflexivity|].
  cbn [exponents_up forallb] in H. apply andb_prop in H. destruct H as [H1 H2].
  cbn [bisect sigma_up].
  change (kernel_row Math_exp [0; 5]%float sigma 0)
    with [zero; Math_exp (kernel_exponent 5 sigma)].
  rewrite (proj1 (entropy_step _ (exp_small _ H1))), T1, T2. now apply IH.
Qed.

Lemma bisect_second fuel : forall sigmaMin sigma,
  forallb small_exponent (exponents_up fuel 5 1000 sigma) = true ->
  bisect Math_exp Math_log fuel [5; 0]%float (Math_log 5) 1 (sigmaMin, 1000%float, sigma)
  = sigma_up fuel 1000 sigma.
Proof.
  destruct (target_not_reached _ log_five) as [T1 T2].
  induction fuel as [|fuel IH]; intros sigmaMin sigma H; [reflexivity|].
  cbn [exponents_up forallb] in H. apply andb_prop in H. destruct H as [H1 H2].
  cbn [bisect sigma_up].
  change (kernel_row Math_exp [5; 0]%float sigma 1)
    with [Math_exp (kernel_exponent 5 sigma); zero].
  rewrite (proj2 (entropy_step _ (exp_small _ H1))), T1, T2. now apply IH.
Qed.

(** Two points at the distance 5: each is the only neighbour of the other,
    so that both conditional probabilities are 1 and the joint one 1/2. *)
Lemma two_point_probabilities :
  convertDistancesToProbabilities Math_exp Math_log [[0; 5]; [5; 0]]%float 5
  = [[0; 0x1p-1]; [0x1p-1; 0]]%float.
Proof.
  unfold convertDistancesToProbabilities, findSigma.
  cbn [length seq combine map fst snd].
  rewrite bisect_first, bisect_second by (vm_compute; reflexivity).
  set (sigma := sigma_up 50 1000 1).
  change (kernel_row Math_exp [0; 5]%float sigma 0)
    with [zero; Math_exp (kernel_exponent 5 sigma)].
  change (kernel_row Math_exp [5; 0]%float sigma 1)
    with [Math_exp (kernel_exponent 5 sigma); zero].
  assert (P : probability (Math_exp (kernel_exponent 5 sigma)) = true)
    by (apply exp_small; vm_compute; reflexivity).
  unfold sum_list. cbn [fold_left map].
  change (zero + zero)%float with zero.
  rewrite (add_zero_l _ P), (add_zero_r _ P), (div_zero_l _ P), (div_self _ P).
  vm_compute. reflexivity.
Qed.

End TwoPoints.

(** C5 (evaluation at the failing input). For the two vectors (0, 0) and
    (3, 4) and initial coordinates that differ on one axis, [tSNEProjection]
    returns [NaN] in every coordinate. The joint probability of the two
    points is 1/2 whatever their distance; multiplied by the early
    exaggeration 12 and the learning rate 100 it drives the two points
    apart by the factor 2199 in every round; after 48 rounds the square of
    their distance overflows, before the next normalisation, and the
    affinities become 0 / 0. Of [Math.log] the proof uses that it is 0 at 1
    and between 1 and 2 at 5, of [Math.exp] that it is above 0 and at most 1
    between -13 and 0. *)
Theorem tSNEProjection_returns_nan (Math_exp Math_log : float -> float) :
  Math_log 1%float = zero ->
  ((1 <=? Math_log 5) && (Math_log 5 <=? 2))%float = true ->
  (forall x, small_exponent x = true -> probability (Math_exp x) = true) ->
  TextClustering.tSNEProjection Math_exp Math_log [[0; 0]; [3; 4]]%float 1000 skewed_rng
  = ([(nan, nan); (nan, nan)], mkRNG (draws skewed_rng) 4).
Proof.
  intros H1 H5 He. unfold TextClustering.tSNEProjection.
  change (map (fun a => map (TextClustering.distance_of a) [[0; 0]; [3; 4]]%float)
            [[0; 0]; [3; 4]]%float) with [[0; 5]; [5; 0]]%float.
  change (JS.of_nat (TextClustering.perplexity_of (length [[0; 0]; [3; 4]]%float)))
    with 5%float.
  rewrite (@two_point_probabilities Math_exp Math_log H1 H5 He).
  vm_compute. reflexivity.
Qed.

(** C5 at two functions with those values. *)
Lemma tSNEProjection_returns_nan_witness :
  TextClustering.tSNEProjection flat_exp step_log [[0; 0]; [3; 4]]%float 1000 skewed_rng
  = ([(nan, nan); (nan, nan)], mkRNG (draws skewed_rng) 4).
Proof.
  apply (@tSNEProjection_returns_nan flat_exp step_log);
    [reflexivity|reflexivity|intros x _; reflexivity].
Defined.

Section OtherPath.
Import JS.

(** The other path. For the similarity matrix of two unrelated documents
    and initial coordinates (0.75, 0.75) and (0.25, 0.75), [simpleMDS]
    returns a layout with the means 0.5 and 0.75 and with the deviations
    0.49999... and 0: nothing normalises it. *)
Lemma mds_layout_not_standardized :
  map (fun p => map (fun x => (x <? 1)%float && (0 <? x)%float) p)
      (fst (DataProcessing.simpleMDS unrelated 2 skewed_rng))
  = [[true; true]; [true; true]]
  /\ axis_mean (map (fun p => get p 0) (fst (DataProcessing.simpleMDS unrelated 2 skewed_rng)))
     = 0x1p-1%float
  /\ axis_mean (map (fun p => get p 1) (fst (DataProcessing.simpleMDS unrelated 2 skewed_rng)))
     = 0x1.8p-1%float
  /\ axis_deviation (map (fun p => get p 1) (fst (DataProcessing.simpleMDS unrelated 2 skewed_rng)))
     = 0%float
  /\ standardized (fst (DataProcessing.simpleMDS unrelated 2 skewed_rng)) = false.
Proof. repeat split; vm_compute; reflexivity. Qed.

End OtherPath.
(* ================================================================= *)
(** * [preprocessText]: claim C6 *)

Section PreprocessClaims.
Import Str NaturalWrapper DataProcessing.

Lemma append_nil_r s : (s ++ "")%string = s.
Proof. induction s; simpl; congruence. Qed.

Lemma append_assoc a b c : ((a ++ b) ++ c)%string = (a ++ (b ++ c))%string.
Proof. induction a; simpl; congruence. Qed.

Lemma length_append a b :
  String.length (a ++ b)%string = (String.length a + String.length b)%nat.
Proof. induction a; simpl; congruence. Qed.

Lemma length_prefix s : forall m,
  (m <= String.length s)%nat -> String.length (substring 0 m s) = m.
Proof.
  induction s as [|c s IH]; intros [|m] H; simpl in *; try reflexivity; try lia.
  rewrite IH; lia.
Qed.

Lemma length_toLowerCase s : String.length (toLowerCase s) = String.length s.
Proof. induction s; simpl; congruence. Qed.

Lemma all_chars_impl (p q : ascii -> bool) s :
  (forall c, p c = true -> q c = true) -> all_chars p s = true -> all_chars q s = true.
Proof.
  intros H. induction s as [|c s IH]; simpl; [reflexivity|].
  intros E. apply andb_prop in E. destruct E as [E1 E2].
  now rewrite (H c E1), IH.
Qed.

Lemma alnum_not_space c : is_alnum c = true -> negb (is_space c) = true.
Proof.
  destruct c as [[] [] [] [] [] [] [] []]; vm_compute; congruence.
Qed.

(** *** Splitting and joining *)

Lemma split_from_word t : forall b cur rest,
  word t ->
  split_from b cur (t ++ rest) = split_from false (cur ++ t) rest.
Proof.
  induction t as [|c t IH]; intros b cur rest [Hne Hsp]; [congruence|].
  simpl in Hsp. apply andb_prop in Hsp. destruct Hsp as [Hc Ht].
  apply negb_true_iff in Hc. simpl. rewrite Hc.
  destruct t as [|c' t'].
  - reflexivity.
  - rewrite IH by (split; [discriminate|exact Ht]).
    now rewrite append_assoc.
Qed.

Lemma split_concat_words ts : forall b,
  Forall word ts -> ts <> [] -> split_from b "" (String.concat " " ts) = ts.
Proof.
  induction ts as [|t ts IH]; intros b Hw Hne; [congruence|].
  inversion Hw as [|? ? Ht Hts]; subst.
  destruct ts as [|t' ts'].
  - simpl. rewrite <- (append_nil_r t) at 1. rewrite split_from_word by exact Ht.
    reflexivity.
  - change (String.concat " " (t :: t' :: ts'))
      with (t ++ " " ++ String.concat " " (t' :: ts'))%string.
    rewrite split_from_word by exact Ht.
    change (split_from false ("" ++ t) (" " ++ String.concat " " (t' :: ts')))
      with (t :: split_from true "" (String.concat " " (t' :: ts'))).
    f_equal. apply IH; [exact Hts|discriminate].
Qed.

Lemma filter_truthy_words ts : Forall word ts -> filter truthy ts = ts.
Proof.
  induction 1 as [|t ts [Hne _] _ IH]; simpl; [reflexivity|].
  assert (Ht : truthy t = true).
  { unfold truthy. destruct (String.eqb_spec t ""); [contradiction|reflexivity]. }
  now rewrite Ht, IH.
Qed.

Lemma tokenize_concat_words ts :
  Forall word ts -> tokenize (String.concat " " ts) = ts.
Proof.
  intros Hw. unfold tokenize, split_spaces. destruct ts as [|t ts]; [reflexivity|].
  rewrite split_concat_words by (auto; discriminate).
  now apply filter_truthy_words.
Qed.

(** *** Collapsing white space *)

Lemma collapse_from_word t : forall b rest,
  word t -> collapse_from b (t ++ rest) = (t ++ collapse_from false rest)%string.
Proof.
  induction t as [|c t IH]; intros b rest [Hne Hsp]; [congruence|].
  simpl in Hsp. apply andb_prop in Hsp. destruct Hsp as [Hc Ht].
  apply negb_true_iff in Hc. simpl. rewrite Hc. f_equal.
  destruct t as [|c' t']; [reflexivity|].
  apply IH. split; [discriminate|exact Ht].
Qed.

Lemma collapse_concat_words ts : forall b,
  Forall word ts -> ts <> [] ->
  collapse_from b (String.concat " " ts) = String.concat " " ts.
Proof.
  induction ts as [|t ts IH]; intros b Hw Hne; [congruence|].
  inversion Hw as [|? ? Ht Hts]; subst.
  destruct ts as [|t' ts'].
  - simpl. rewrite <- (append_nil_r t) at 1. rewrite collapse_from_word by exact Ht.
    simpl. apply append_nil_r.
  - change (String.concat " " (t :: t' :: ts'))
      with (t ++ " " ++ String.concat " " (t' :: ts'))%string.
    rewrite collapse_from_word by exact Ht.
    change (collapse_from false (" " ++ String.concat " " (t' :: ts')))
      with (String " " (collapse_from true (String.concat " " (t' :: ts')))).
    rewrite IH; [reflexivity|exact Hts|discriminate].
Qed.

(** *** Trimming *)

Lemma rev_onto_twice s : forall a b,
  rev_onto (rev_onto s a) b = rev_onto a (s ++ b).
Proof.
  induction s as [|c s IH]; intros a b; simpl; [reflexivity|].
  now rewrite IH.
Qed.

Lemma rev_onto_append a : forall b acc,
  rev_onto (a ++ b) acc = rev_onto b (rev_onto a acc).
Proof. induction a as [|c a IH]; intros b acc; simpl; auto. Qed.

Lemma rev_onto_word t : forall acc,
  word t -> drop_spaces (rev_onto t acc) = rev_onto t acc.
Proof.
  induction t as [|c t IH]; intros acc [Hne Hsp]; [congruence|].
  simpl in Hsp. apply andb_prop in Hsp. destruct Hsp as [Hc Ht].
  apply negb_true_iff in Hc. simpl.
  destruct t as [|c' t'].
  - simpl. now rewrite Hc.
  - apply IH. split; [discriminate|exact Ht].
Qed.

Lemma drop_spaces_word t rest : word t -> drop_spaces (t ++ rest) = (t ++ rest)%string.
Proof.
  intros [Hne Hsp]. destruct t as [|c t]; [congruence|].
  simpl in Hsp. apply andb_prop in Hsp. destruct Hsp as [Hc _].
  apply negb_true_iff in Hc. simpl. now rewrite Hc.
Qed.

Lemma concat_words_ends ts :
  Forall word ts -> ts <> [] ->
  exists front t, String.concat " " ts = (front ++ t)%string /\ word t.
Proof.
  induction ts as [|t ts IH]; intros Hw Hne; [congruence|].
  inversion Hw as [|? ? Ht Hts]; subst.
  destruct ts as [|t' ts'].
  - exists "", t. split; [reflexivity|exact Ht].
  - destruct IH as (front & tl & E & Htl); [exact Hts|discriminate|].
    exists (t ++ " " ++ front)%string, tl. split; [|exact Htl].
    change (String.concat " " (t :: t' :: ts'))
      with (t ++ " " ++ String.concat " " (t' :: ts'))%string.
    rewrite E. now rewrite !append_assoc.
Qed.

Lemma drop_spaces_concat_words ts :
  Forall word ts -> drop_spaces (String.concat " " ts) = String.concat " " ts.
Proof.
  intros Hw. destruct ts as [|t ts']; [reflexivity|].
  inversion Hw as [|? ? Ht _]; subst. destruct ts' as [|t' ts''].
  - simpl. rewrite <- (append_nil_r t). now apply drop_spaces_word.
  - change (String.concat " " (t :: t' :: ts''))
      with (t ++ " " ++ String.concat " " (t' :: ts''))%string.
    now apply drop_spaces_word.
Qed.

Lemma trim_concat_words ts :
  Forall word ts -> trim (String.concat " " ts) = String.concat " " ts.
Proof.
  intros Hw. unfold trim. rewrite drop_spaces_concat_words by exact Hw.
  destruct (list_eq_dec string_dec ts []) as [->|Hne]; [reflexivity|].
  destruct (concat_words_ends Hw Hne) as (front & tl & Ey & Htl).
  rewrite Ey at 1. rewrite rev_onto_append, rev_onto_word by exact Htl.
  rewrite <- rev_onto_append, <- Ey. rewrite rev_onto_twice. apply append_nil_r.
Qed.

(** *** Lower case *)

Lemma toLowerCase_append a b :
  toLowerCase (a ++ b) = (toLowerCase a ++ toLowerCase b)%string.
Proof. induction a; simpl; congruence. Qed.

Lemma toLowerCase_concat ts :
  Forall (fun t => toLowerCase t = t) ts ->
  toLowerCase (String.concat " " ts) = String.concat " " ts.
Proof.
  induction 1 as [|t ts Ht Hts IH]; [reflexivity|].
  destruct ts as [|t' ts']; [exact Ht|].
  change (String.concat " " (t :: t' :: ts'))
    with (t ++ " " ++ String.concat " " (t' :: ts'))%string.
  rewrite !toLowerCase_append, Ht, IH. reflexivity.
Qed.

Lemma rule_shortens result suffix replacement :
  (String.length replacement < String.length suffix)%nat ->
  endsWith result suffix = true ->
  (String.length (substring 0 (String.length result - String.length suffix) result
                  ++ replacement)%string < String.length result)%nat.
Proof.
  intros Hr He. unfold endsWith in He. apply andb_prop in He. destruct He as [He _].
  apply Nat.leb_le in He. rewrite length_append, length_prefix by lia. lia.
Qed.

Lemma apply_rules_fixed u :
  (String.length (apply_rules simpleRules u) < String.length u)%nat
  \/ apply_rules simpleRules u = u.
Proof.
  unfold simpleRules. cbn [apply_rules].
  repeat match goal with
         | |- context [if endsWith u ?s then _ else _] =>
             destruct (endsWith u s) eqn:?;
               [left; apply rule_shortens; [simpl; lia|assumption]|]
         end.
  now right.
Qed.

Lemma stable_token_lower t : stable_token t -> toLowerCase t = t.
Proof.
  intros [_ Hs]. unfold stem in Hs.
  destruct (truthy t) eqn:Et.
  - destruct (apply_rules_fixed (toLowerCase t)) as [H|H].
    + rewrite Hs, length_toLowerCase in H. lia.
    + congruence.
  - subst t. reflexivity.
Qed.

Lemma stable_token_word t : stable_token t -> word t.
Proof.
  intros [Hk _]. unfold keep_token in Hk.
  apply andb_prop in Hk. destruct Hk as [Hk Ha].
  apply andb_prop in Hk. destruct Hk as [Hl _].
  apply Nat.ltb_lt in Hl. unfold test_alnum in Ha.
  apply andb_prop in Ha. destruct Ha as [_ Ha]. split.
  - intros ->. simpl in Hl. lia.
  - eapply all_chars_impl; [|exact Ha]. apply alnum_not_space.
Qed.

Lemma stable_tokens_survive ts :
  Forall stable_token ts -> map stem (filter keep_token ts) = ts.
Proof.
  induction 1 as [|t ts [Hk Hs] _ IH]; simpl; [reflexivity|].
  rewrite Hk. simpl. now rewrite Hs, IH.
Qed.

(** Text made of stable tokens, joined by single spaces, is a fixed point. *)
Lemma normalized_text_is_fixed ts :
  Forall stable_token ts ->
  preprocessText (String.concat " " ts) = String.concat " " ts.
Proof.
  intros Hst. unfold preprocessText.
  destruct (truthy (String.concat " " ts)) eqn:Et; simpl.
  2:{ unfold truthy in Et. apply negb_false_iff, String.eqb_eq in Et. now rewrite Et. }
  f_equal. unfold filteredTokens.
  assert (Hw : Forall word ts).
  { eapply Forall_impl; [|exact Hst]. apply stable_token_word. }
  rewrite toLowerCase_concat.
  2:{ eapply Forall_impl; [|exact Hst]. apply stable_token_lower. }
  unfold collapse_spaces.
  destruct ts as [|t ts'] eqn:E; [reflexivity|]. rewrite <- E in *.
  rewrite collapse_concat_words by (auto; subst; discriminate).
  rewrite trim_concat_words, tokenize_concat_words by exact Hw.
  now apply stable_tokens_survive.
Qed.

(** C6, refuted as stated. The stemmer takes "sings" to "sing" and "sing"
    to "s". *)
Lemma preprocessing_not_idempotent :
  preprocessText "sings" = "sing"
  /\ preprocessText (preprocessText "sings") = "s"
  /\ preprocessText (preprocessText "sings") <> preprocessText "sings".
Proof.
  split; [reflexivity|]. split; [reflexivity|]. vm_compute. discriminate.
Qed.

(** C6, amended. Preprocessing a second time changes nothing when every
    token the first pass produced is one the filter keeps (longer than two
    characters, not a stop word, alphanumeric) and the stemmer leaves
    unchanged: such text is a fixed point of [preprocessText]. *)
Theorem preprocessing_idempotent_on_stable_tokens x :
  Forall stable_token (filteredTokens x) ->
  preprocessText (preprocessText x) = preprocessText x.
Proof.
  intros H. unfold preprocessText at 2 3.
  destruct (truthy x); simpl; [|reflexivity].
  now apply normalized_text_is_fixed.
Qed.

(** C6, amended, at a text whose stems a second pass keeps and leaves
    alone. *)
Lemma preprocessing_idempotent_on_stable_tokens_witness :
  preprocessText (preprocessText "The Cats sat on   mats")
  = preprocessText "The Cats sat on   mats".
Proof.
  apply (@preprocessing_idempotent_on_stable_tokens "The Cats sat on   mats").
  vm_compute. repeat constructor.
Defined.

End PreprocessClaims.
(* ================================================================= *)
(** * More facts of binary64 arithmetic *)

Section FloatAlgebra.

Lemma mul_comm (x y : float) : (x * y = y * x)%float.
Proof.
  apply Prim2SF_inj. rewrite !mul_spec. unfold SF64mul, SFmul.
  destruct (Prim2SF x) as [sx|sx| |sx mx ex], (Prim2SF y) as [sy|sy| |sy my ey];
    try reflexivity; try (now rewrite xorb_comm).
  now rewrite xorb_comm, Pos.mul_comm, Z.add_comm.
Qed.

Lemma sub_nan_r (x : float) : (x - nan = nan)%float.
Proof.
  apply Prim2SF_inj. rewrite sub_spec. unfold SF64sub, SFsub.
  change (Prim2SF nan) with S754_nan. now destruct (Prim2SF x).
Qed.

Lemma add_nan_r (x : float) : (x + nan = nan)%float.
Proof.
  apply Prim2SF_inj. rewrite add_spec. unfold SF64add, SFadd.
  change (Prim2SF nan) with S754_nan. now destruct (Prim2SF x).
Qed.

Lemma add_nan_l (x : float) : (nan + x = nan)%float.
Proof.
  apply Prim2SF_inj. rewrite add_spec. unfold SF64add, SFadd.
  change (Prim2SF nan) with S754_nan. reflexivity.
Qed.

Lemma binary_round_opp m e :
  binary_round prec emax true m e = SFopp (binary_round prec emax false m e).
Proof.
  unfold binary_round, binary_round_aux.
  destruct (shl_align _ _ _) as [mz ez].
  destruct (shr_fexp _ _ _ _ _) as [mrs' e'].
  destruct (shr_fexp _ _ _ _ _) as [mrs'' e''].
  destruct (shr_m mrs''); try reflexivity.
  now destruct (Z.leb _ _).
Qed.

Lemma SFopp_involutive u : SFopp (SFopp u) = u.
Proof. destruct u; simpl; now rewrite ?negb_involutive. Qed.

Lemma SFsub_swap x y :
  same_size (SFsub prec emax x y) (SFsub prec emax y x).
Proof.
  unfold same_size, SFsub.
  destruct x as [sx|sx| |sx mx ex], y as [sy|sy| |sy my ey];
    try (destruct sx, sy; simpl; auto; fail);
    try (destruct sx; simpl; auto; fail);
    try (destruct sy; simpl; auto; fail);
    try (simpl; auto; fail).
  cbv zeta. rewrite (Z.min_comm ey ex).
    set (a := cond_Zopp sx _). set (b := cond_Zopp sy _).
    replace (b - a)%Z with (- (a - b))%Z by ring.
  destruct (a - b)%Z as [|m|m]; simpl.
  - now left.
  - right. now rewrite binary_round_opp, SFopp_involutive.
  - right. apply binary_round_opp.
Qed.

Lemma SFmul_square_opp u : SFmul prec emax (SFopp u) (SFopp u) = SFmul prec emax u u.
Proof. destruct u as [s|s| |s m e]; simpl; try reflexivity; now destruct s. Qed.

(** The square of a difference does not depend on its direction. *)
Lemma square_diff_sym (x y : float) : ((x - y) * (x - y) = (y - x) * (y - x))%float.
Proof.
  apply Prim2SF_inj. rewrite !mul_spec, !sub_spec. unfold SF64mul, SF64sub.
  destruct (SFsub_swap (Prim2SF x) (Prim2SF y)) as [-> | ->];
    [reflexivity|apply SFmul_square_opp].
Qed.

Lemma add_comm (x y : float) : (x + y = y + x)%float.
Proof.
  apply Prim2SF_inj. rewrite !add_spec. unfold SF64add, SFadd.
  destruct (Prim2SF x) as [sx|sx| |sx mx ex], (Prim2SF y) as [sy|sy| |sy my ey];
    try reflexivity; try (now destruct sx, sy).
  cbv zeta. rewrite (Z.min_comm ey ex). f_equal. apply Z.add_comm.
Qed.

End FloatAlgebra.
(* ================================================================= *)
(** * The two distances and the cosine *)

Section Distances.
Import JS DataProcessing.

Lemma sub_self (x : float) : fin_num x -> (x - x = zero)%float.
Proof.
  intros H. apply Prim2SF_inj. rewrite sub_spec.
  apply is_finite_spec in H. unfold SF64sub, SFsub.
  destruct (Prim2SF x) as [s|s| |s m e]; try contradiction.
  - now destruct s.
  - cbv zeta. now rewrite Z.sub_diag.
Qed.

Lemma fold_combine_swap (a : vec) : forall (b : vec) s,
  fold_left (fun sum ab => let diff := (fst ab - snd ab)%float in (sum + diff * diff)%float)
    (combine a b) s
  = fold_left (fun sum ab => let diff := (fst ab - snd ab)%float in (sum + diff * diff)%float)
      (combine b a) s.
Proof.
  induction a as [|x a IH]; intros [|y b] s; try reflexivity.
  simpl. rewrite (square_diff_sym x y). apply IH.
Qed.

Lemma fold_combine_self (v : vec) :
  Forall fin_num v ->
  fold_left (fun sum ab => let diff := (fst ab - snd ab)%float in (sum + diff * diff)%float)
    (combine v v) zero = zero.
Proof.
  induction 1 as [|x v Hx _ IH]; [reflexivity|].
  simpl. rewrite (sub_self Hx). exact IH.
Qed.

(** X1. [euclideanDistance] never raises: a missing vector or two vectors of
    different lengths are at the distance [Infinity]; and it does not depend
    on the order of its arguments. *)
Theorem euclideanDistance_symmetric (a b : vec) :
  TextClustering.euclideanDistance a None = Ok infinity
  /\ (length a <> length b ->
      TextClustering.euclideanDistance a (Some b) = Ok infinity)
  /\ TextClustering.euclideanDistance a (Some b)
     = TextClustering.euclideanDistance b (Some a).
Proof.
  split; [reflexivity|]. split.
  - intros H. unfold TextClustering.euclideanDistance.
    apply Nat.eqb_neq in H. now rewrite H.
  - unfold TextClustering.euclideanDistance. rewrite (Nat.eqb_sym (length b)).
    destruct (length a =? length b)%nat; [|reflexivity].
    simpl. now rewrite fold_combine_swap.
Qed.

(** X2. A vector of finite numbers is at the distance 0 from itself. *)
Theorem euclideanDistance_self (v : vec) :
  Forall fin_num v -> TextClustering.euclideanDistance v (Some v) = Ok zero.
Proof.
  intros H. unfold TextClustering.euclideanDistance.
  rewrite Nat.eqb_refl. simpl. now rewrite fold_combine_self.
Qed.

(** The distance of (3, -4) from itself. *)
Lemma euclideanDistance_self_witness :
  TextClustering.euclideanDistance [3; -4]%float (Some [3; -4]%float) = Ok zero.
Proof.
  apply (@euclideanDistance_self [3; -4]%float). repeat constructor.
Defined.



Lemma fold_left_ext_in {A B} (f g : A -> B -> A) (l : list B) :
  (forall x, In x l -> forall s, f s x = g s x) ->
  forall s, fold_left f l s = fold_left g l s.
Proof.
  induction l as [|x l IH]; intros H s; [reflexivity|].
  simpl. rewrite (H x (or_introl eq_refl)). apply IH.
  intros y Hy. apply H. now right.
Qed.

Lemma in_combine_seq {A} (l : list A) k i x :
  In (i, x) (combine (seq k (length l)) l) -> (k <= i < k + length l)%nat.
Proof.
  intros H. apply in_combine_l in H. apply in_seq in H. exact H.
Qed.

Lemma fold_from_nan {A} (h : A -> float) (l : list A) :
  fold_left (fun sum x => (sum + h x)%float) l nan = nan.
Proof. induction l as [|x l IH]; [reflexivity|]. simpl. now rewrite add_nan_l. Qed.

Lemma get_past_end (b : vec) i : (length b <= i)%nat -> get b i = nan.
Proof. intros H. unfold get. now apply nth_overflow. Qed.

Lemma fold_reaches_nan (b : vec) (a : vec) : forall k s,
  a <> [] -> (length b < k + length a)%nat ->
  fold_left (fun sum iv => (sum + Math_pow2 (snd iv - get b (fst iv)))%float)
    (combine (seq k (length a)) a) s = nan.
Proof.
  induction a as [|x a IH]; intros k s Hne H; [congruence|].
  simpl in *. destruct (Nat.le_gt_cases (length b) k) as [Hk|Hk].
  - rewrite (get_past_end _ Hk), sub_nan_r. unfold Math_pow2.
    change (nan * nan)%float with nan. rewrite add_nan_r.
    apply (fold_from_nan (fun iv => Math_pow2 (snd iv - get b (fst iv)))).
  - apply IH; [destruct a; simpl in *; [lia|discriminate]|lia].
Qed.

(** X3. [euclideanDist(a, b)] reads the entries of [b] at the indices of [a] and
    no others: an empty [a] is at the distance 0 from anything, [undefined]
    included; a non-empty [a] raises a [TypeError] on [undefined]; entries
    of [b] past the length of [a] are ignored; and a [b] shorter than [a]
    gives [NaN]. *)
Theorem euclideanDist_reads_prefix (a b extra : vec) :
  (forall c, euclideanDist [] c = Ok zero)
  /\ (a <> [] -> euclideanDist a None = Throw TypeError)
  /\ ((length a <= length b)%nat ->
      euclideanDist a (Some (b ++ extra)) = euclideanDist a (Some b))
  /\ ((length b < length a)%nat -> euclideanDist a (Some b) = Ok nan).
Proof.
  split; [now intros [c|]|]. split; [now destruct a|]. split.
  - intros H. unfold euclideanDist. do 2 f_equal.
    apply fold_left_ext_in. intros [i x] Hi s. apply in_combine_seq in Hi.
    simpl. unfold get. rewrite app_nth1 by lia. reflexivity.
  - intros H. unfold euclideanDist. rewrite fold_reaches_nan; [reflexivity|destruct a; simpl in *; [lia|discriminate]|lia].
Qed.

Lemma cosine_sums_swap n vecA vecB :
  cosine_sums n vecB vecA
  = (fst (fst (cosine_sums n vecA vecB)), snd (cosine_sums n vecA vecB),
     snd (fst (cosine_sums n vecA vecB))).
Proof.
  rewrite !cosine_sums_split. simpl. f_equal. f_equal.
  apply fold_left_ext_in. intros i _ s. now rewrite mul_comm.
Qed.

(** X4. On two vectors with the same [length] value (two arrays of one length,
    two objects without that property) [cosineSimilarity] does not depend
    on the order of its arguments. *)
Theorem cosineSimilarity_symmetric (vecA vecB : jsvec) :
  js_length vecA = js_length vecB ->
  cosineSimilarity vecA vecB = cosineSimilarity vecB vecA.
Proof.
  intros H. unfold cosineSimilarity. rewrite <- H.
  destruct (trips (js_length vecA)) as [n|]; [|reflexivity].
  f_equal. rewrite (cosine_sums_swap n vecA vecB).
  destruct (cosine_sums n vecA vecB) as [[d na] nb]. simpl.
  now rewrite orb_comm, mul_comm.
Qed.

(** The two orders of (1, 2) and (3, 4). *)
Lemma cosineSimilarity_symmetric_witness :
  cosineSimilarity (Arr [1; 2]%float) (Arr [3; 4]%float)
  = cosineSimilarity (Arr [3; 4]%float) (Arr [1; 2]%float).
Proof.
  apply (@cosineSimilarity_symmetric (Arr [1; 2]%float) (Arr [3; 4]%float)).
  reflexivity.
Defined.

End Distances.
(* ================================================================= *)
(** * [simpleMDS] *)

Section MDS.
Import JS DataProcessing.

Lemma in_pairs n i j : In (i, j) (pairs n) -> (i < j < n)%nat.
Proof.
  unfold pairs. intros H. apply in_flat_map in H. destruct H as (i' & Hi & H).
  apply in_map_iff in H. destruct H as (j' & E & Hj). inversion E; subst.
  apply in_seq in Hi. apply in_seq in Hj. lia.
Qed.

Lemma iter_ext {A} (f g : A -> A) (H : forall x, f x = g x) n x :
  Nat.iter n f x = Nat.iter n g x.
Proof. induction n as [|n IH]; simpl; [reflexivity|]. now rewrite IH, H. Qed.

(** X5. The layout depends on the entries above the diagonal only: neither the
    diagonal nor the lower triangle of the matrix is ever read. *)
Theorem simpleMDS_reads_upper_triangle (m1 m2 : matrix) dimensions g :
  length m1 = length m2 ->
  (forall i j, (i < j < length m1)%nat -> entry m1 i j = entry m2 i j) ->
  simpleMDS m1 dimensions g = simpleMDS m2 dimensions g.
Proof.
  intros Hlen H. unfold simpleMDS. rewrite <- Hlen.
  destruct (random_points (length m1) dimensions g) as [points g'].
  f_equal. apply iter_ext. intros pts. unfold mds_sweep. rewrite <- Hlen.
  apply fold_left_ext_in. intros [i j] Hij s. apply in_pairs in Hij.
  unfold mds_pair, discrepancy, targetDist. now rewrite (H i j Hij).
Qed.

(** Two matrices that differ on and below the diagonal. *)
Lemma simpleMDS_reads_upper_triangle_witness :
  simpleMDS [[1; 0]; [0; 1]]%float 2 even_rng
  = simpleMDS [[7; 0]; [nan; -3]]%float 2 even_rng.
Proof.
  apply (@simpleMDS_reads_upper_triangle [[1; 0]; [0; 1]]%float [[7; 0]; [nan; -3]]%float).
  - reflexivity.
  - intros [|[|i]] [|[|j]] H; simpl in H; try lia; reflexivity.
Defined.

Lemma random_coords_shape m : forall g,
  length (fst (random_coords m g)) = m
  /\ snd (random_coords m g) = mkRNG (draws g) (cursor g + m).
Proof.
  induction m as [|m IH]; intros g; simpl.
  - split; [reflexivity|]. destruct g; simpl. now rewrite Nat.add_0_r.
  - specialize (IH (mkRNG (draws g) (S (cursor g)))).
    destruct (random_coords m _) as [rest g2]. simpl in *.
    destruct IH as [-> ->]. split; [reflexivity|]. f_equal. lia.
Qed.

Lemma random_points_shape dimensions n : forall g,
  length (fst (random_points n dimensions g)) = n
  /\ Forall (fun p => length p = dimensions) (fst (random_points n dimensions g))
  /\ snd (random_points n dimensions g) = mkRNG (draws g) (cursor g + n * dimensions).
Proof.
  induction n as [|n IH]; intros g; simpl.
  - split; [reflexivity|]. split; [constructor|]. destruct g; simpl. now rewrite Nat.add_0_r.
  - destruct (random_coords_shape dimensions g) as [Hp Hg].
    destruct (random_coords dimensions g) as [p g1]. simpl in Hp, Hg. subst g1.
    specialize (IH (mkRNG (draws g) (cursor g + dimensions))).
    destruct (random_points n dimensions _) as [rest g2]. simpl in *.
    destruct IH as (-> & HF & ->). split; [reflexivity|]. split; [now constructor|].
    f_equal. lia.
Qed.

Lemma Forall_firstn {A} (P : A -> Prop) (l : list A) : forall n,
  Forall P l -> Forall P (firstn n l).
Proof.
  induction l as [|x l IH]; intros [|n] H; simpl; try constructor;
    inversion H; subst; auto.
Qed.

Lemma Forall_skipn {A} (P : A -> Prop) (l : list A) : forall n,
  Forall P l -> Forall P (skipn n l).
Proof.
  induction l as [|x l IH]; intros [|n] H; simpl; auto.
  inversion H; subst; auto.
Qed.

Lemma set_nth_shape {A} (P : A -> Prop) i x (l : list A) :
  P x -> Forall P l -> length (set_nth i x l) = length l /\ Forall P (set_nth i x l).
Proof.
  intros Hx Hl. unfold set_nth. destruct (i <? length l)%nat eqn:E; [|now split].
  apply Nat.ltb_lt in E. split.
  - rewrite length_app. cbn [length]. rewrite length_firstn, length_skipn. lia.
  - apply Forall_app. split; [now apply Forall_firstn|].
    constructor; [exact Hx|now apply Forall_skipn].
Qed.

Lemma mds_pair_shape m dimensions points ij :
  Forall (fun p => length p = dimensions) points ->
  length (mds_pair m dimensions points ij) = length points
  /\ Forall (fun p => length p = dimensions) (mds_pair m dimensions points ij).
Proof.
  intros H. unfold mds_pair. destruct ij as [i j].
  destruct (_ <? _)%float; [now split|].
  match goal with |- context [set_nth j ?pj (set_nth i ?pi points)] =>
    assert (Hi : length pi = dimensions) by (now rewrite length_map, length_seq);
    assert (Hj : length pj = dimensions) by (now rewrite length_map, length_seq);
    destruct (@set_nth_shape _ (fun p => length p = dimensions) i pi points Hi H) as [L1 F1];
    destruct (@set_nth_shape _ (fun p => length p = dimensions) j pj _ Hj F1) as [L2 F2]
  end.
  split; [exact (eq_trans L2 L1)|exact F2].
Qed.

Lemma mds_sweep_shape m dimensions points :
  Forall (fun p => length p = dimensions) points ->
  length (mds_sweep m dimensions points) = length points
  /\ Forall (fun p => length p = dimensions) (mds_sweep m dimensions points).
Proof.
  unfold mds_sweep. generalize (pairs (length m)). intros l. revert points.
  induction l as [|ij l IH]; intros points H; simpl; [now split|].
  destruct (@mds_pair_shape m dimensions points ij H) as [L F].
  destruct (IH _ F) as [L' F']. split; [exact (eq_trans L' L)|exact F'].
Qed.

Lemma simpleMDS_points (m : matrix) dimensions g :
  length (fst (simpleMDS m dimensions g)) = length m
  /\ Forall (fun p => length p = dimensions) (fst (simpleMDS m dimensions g))
  /\ snd (simpleMDS m dimensions g) = mkRNG (draws g) (cursor g + length m * dimensions).
Proof.
  unfold simpleMDS.
  destruct (random_points_shape dimensions (length m) g) as (L & F & R).
  destruct (random_points (length m) dimensions g) as [points g']. simpl in *.
  assert (H : forall n,
             length (Nat.iter n (mds_sweep m dimensions) points) = length points
             /\ Forall (fun p => length p = dimensions)
                  (Nat.iter n (mds_sweep m dimensions) points)).
  { induction n as [|n [IL IF]]; simpl; [now split|].
    destruct (@mds_sweep_shape m dimensions _ IF) as [L' F'].
    split; [exact (eq_trans L' IL)|exact F']. }
  destruct (H sweeps) as [HL HF]. split; [exact (eq_trans HL L)|]. split; [exact HF|exact R].
Qed.

(** X6. Whatever the matrix holds, [simpleMDS] returns one point per row of the
    matrix, each with [dimensions] coordinates, and draws one random number
    per coordinate, all of them before the first sweep. *)
Theorem simpleMDS_shape (m : matrix) dimensions g :
  length (fst (simpleMDS m dimensions g)) = length m
  /\ Forall (fun p => length p = dimensions) (fst (simpleMDS m dimensions g))
  /\ snd (simpleMDS m dimensions g) = mkRNG (draws g) (cursor g + length m * dimensions).
Proof. exact (simpleMDS_points m dimensions g). Qed.

End MDS.
(* ================================================================= *)
(** * The clusterers on arbitrary numbers *)

Section LloydTotal.
Import JS.

Variable dist : vec -> option vec -> result float.
Variable new_centroid : list vec -> vec.
Variable C : option vec -> Prop.

Hypothesis dist_total : forall p c, C c -> exists d, dist p c = Ok d.
Hypothesis some_ok : forall v, C (Some v).

Lemma distances_total p cs :
  Forall C cs -> exists ds, mapM (fun c => dist p c) cs = Ok ds /\ length ds = length cs.
Proof.
  induction 1 as [|c cs Hc _ (ds & E & Hl)]; simpl.
  - now exists [].
  - destruct (dist_total p Hc) as (d & ->). simpl. rewrite E. simpl.
    exists (d :: ds). simpl. auto.
Qed.

Lemma nearest_distances_total points cs :
  Forall C cs -> exists ds, nearest_distances dist points cs = Ok ds.
Proof.
  intros Hc. unfold nearest_distances. induction points as [|p ps (ds & E)]; simpl.
  - now exists [].
  - destruct (distances_total p Hc) as (d & -> & _). simpl. rewrite E. simpl. eauto.
Qed.

Lemma seed_rest_total points : forall todo cs g,
  (forall j, C (nth_error points j)) \/ points <> [] -> Forall C cs ->
  exists cs', seed_rest dist points todo cs g
              = (Ok cs', mkRNG (draws g) (cursor g + todo))
    /\ Forall C cs' /\ length cs' = (length cs + todo)%nat.
Proof.
  induction todo as [|todo IH]; intros cs g Hp Hc; simpl.
  - exists cs. rewrite !Nat.add_0_r. destruct g. auto.
  - destruct (nearest_distances_total points Hc) as (ds & ->).
    set (j := Nat.min _ _).
    assert (Hj : C (nth_error points j)).
    { destruct Hp as [Hp|Hp]; [apply Hp|].
      destruct (nth_error points j) as [p|] eqn:E; [apply some_ok|].
      apply nth_error_None in E. subst j. destruct points; [congruence|].
      simpl length in E. lia. }
    destruct (IH (cs ++ [nth_error points j]) (mkRNG (draws g) (S (cursor g))) Hp)
      as (cs' & E' & H1 & H2).
    { apply Forall_app. split; auto. }
    exists cs'. rewrite E'. simpl. split; [do 2 f_equal; lia|]. split; [exact H1|].
    rewrite H2, length_app. simpl. lia.
Qed.

Lemma indexOf_from_bounds xs x : forall k,
  indexOf_from xs x k = (-1)%Z
  \/ (k <= indexOf_from xs x k < k + Z.of_nat (length xs))%Z.
Proof.
  induction xs as [|y xs IH]; intros k; simpl indexOf_from; [now left|].
  destruct (strict_eq y x).
  - right. simpl length. lia.
  - destruct (IH (k + 1)%Z) as [E|E]; [now left|right]. simpl length. lia.
Qed.

Lemma indexOf_near xs x : near_range (length xs) (indexOf xs x).
Proof.
  unfold near_range, indexOf. destruct (indexOf_from_bounds xs x 0) as [->|H]; lia.
Qed.

Lemma assign_total cs : forall points old,
  Forall C cs ->
  exists r, assign dist points cs old = Ok r
    /\ length (fst r) = Nat.min (length points) (length old)
    /\ Forall (near_range (length cs)) (fst r).
Proof.
  induction points as [|p ps IH]; intros old Hc.
  - exists ([], false). simpl. auto.
  - destruct old as [|a old]; [exists ([], false); simpl; auto|].
    simpl. destruct (distances_total p Hc) as (ds & -> & Hl). simpl.
    destruct (IH old Hc) as (r & -> & H1 & H2). simpl.
    eexists. split; [reflexivity|]. simpl. split; [now rewrite H1|].
    constructor; [|exact H2]. rewrite <- Hl. apply indexOf_near.
Qed.

Lemma update_centroids_total points assignments k cs :
  Forall C cs ->
  Forall C (update_centroids new_centroid points assignments k cs)
  /\ length (update_centroids new_centroid points assignments k cs) = length cs.
Proof.
  intros Hc. unfold update_centroids. split.
  - apply Forall_forall. intros c Hin. apply in_map_iff in Hin.
    destruct Hin as ([j c0] & <- & Hin). simpl.
    assert (C c0). { apply in_combine_r in Hin. rewrite Forall_forall in Hc. auto. }
    destruct (j <? k)%nat; auto.
    destruct (assigned points assignments j); auto.
  - rewrite length_map, length_combine, length_seq. lia.
Qed.

Lemma lloyd_total points k : forall fuel st,
  Forall C (centroids st) -> length (assignments st) = length points ->
  Forall (near_range (length (centroids st))) (assignments st) ->
  exists st', lloyd dist new_centroid points k fuel st = Ok st'
    /\ Forall C (centroids st')
    /\ length (centroids st') = length (centroids st)
    /\ length (assignments st') = length points
    /\ Forall (near_range (length (centroids st'))) (assignments st')
    /\ (iterations st' <= iterations st + fuel)%nat.
Proof.
  induction fuel as [|fuel IH]; intros st Hc Hl Hr; simpl.
  - exists st. repeat split; auto. lia.
  - destruct (changed st).
    2:{ exists st. repeat split; auto. lia. }
    unfold lloyd_step.
    destruct (assign_total points (assignments st) Hc) as (r & -> & R1 & R2). simpl.
    destruct (update_centroids_total points (fst r) k Hc) as [U1 U2].
    destruct (IH (mkLoop (update_centroids new_centroid points (fst r) k (centroids st))
                    (fst r) (S (iterations st)) (snd r)))
      as (st' & E & I1 & I2 & I3 & I4 & I5); simpl.
    + exact U1.
    + rewrite R1, Hl. apply Nat.min_id.
    + now rewrite U2.
    + exists st'. rewrite E. simpl in *. repeat split; auto; try congruence. lia.
Qed.

Lemma cluster_total points k maxIterations g :
  (forall j, C (nth_error points j)) \/ points <> [] ->
  C (fst (first_seed points g)) ->
  exists st, cluster dist new_centroid points k maxIterations g
             = (Ok st, mkRNG (draws g) (cursor g + Nat.max 1 k))
    /\ Forall C (centroids st)
    /\ length (centroids st) = Nat.max 1 k
    /\ length (assignments st) = length points
    /\ Forall (near_range (Nat.max 1 k)) (assignments st)
    /\ (iterations st <= maxIterations)%nat.
Proof.
  intros Hp Hs. unfold cluster, seeds.
  unfold first_seed, Math_random in *.
  set (c0 := match floor_index _ with Some i => nth_error points i | None => None end) in *.
  simpl in Hs.
  destruct (@seed_rest_total points (k - 1) [c0] (mkRNG (draws g) (S (cursor g))) Hp)
    as (cs & -> & S1 & S2); [now constructor|].
  simpl in S2.
  destruct (@lloyd_total points k maxIterations (initial_state points cs))
    as (st & E & I1 & I2 & I3 & I4 & I5);
    cbn [initial_state centroids assignments iterations].
  - exact S1.
  - apply repeat_length.
  - apply Forall_forall. intros a Ha. apply repeat_spec in Ha. subst.
    unfold near_range. lia.
  - exists st. rewrite E.
    cbn [initial_state centroids assignments iterations] in I2, I3, I4, I5.
    split; [f_equal; f_equal; cbn [cursor]; lia|]. split; [exact I1|].
    assert (length cs = Nat.max 1 k) by lia.
    split; [congruence|]. split; [exact I3|]. split; [|exact I5].
    replace (Nat.max 1 k) with (length (centroids st)) by congruence. exact I4.
Qed.

End LloydTotal.

Section ClusterersTotal.
Import JS.

Lemma kMeansWithVectors_returns (vectors : list vec) (k maxIterations : nat) (g : RNG) :
  ((length vectors < k)%nat ->
   TextClustering.kMeansWithVectors vectors k maxIterations g
   = (Throw (TextClustering.not_enough k), g))
  /\ ((k <= length vectors)%nat ->
      exists st,
        TextClustering.kMeansWithVectors_loop vectors k maxIterations g
        = (Ok st, mkRNG (draws g) (cursor g + Nat.max 1 k))
        /\ TextClustering.kMeansWithVectors vectors k maxIterations g
           = (Ok (mkResult (centroids st) (assignments st)),
              mkRNG (draws g) (cursor g + Nat.max 1 k))
        /\ length (centroids st) = Nat.max 1 k
        /\ length (assignments st) = length vectors
        /\ Forall (near_range (Nat.max 1 k)) (assignments st)
        /\ (iterations st <= maxIterations)%nat).
Proof.
  split.
  - intros H. unfold TextClustering.kMeansWithVectors, TextClustering.kMeansWithVectors_loop.
    apply Nat.ltb_lt in H. now rewrite H.
  - intros H. unfold TextClustering.kMeansWithVectors, TextClustering.kMeansWithVectors_loop.
    apply Nat.ltb_ge in H. rewrite H.
    destruct (@cluster_total TextClustering.euclideanDistance TextClustering.average
                (fun _ => True)) with (points := vectors) (k := k)
                (maxIterations := maxIterations) (g := g)
      as (st & E & _ & I2 & I3 & I4 & I5); auto.
    + intros p c _. unfold TextClustering.euclideanDistance.
      destruct c as [c|]; [destruct (negb _)|]; eauto.
    + exists st. rewrite E. simpl. auto 10.
Qed.

Lemma kmeans_returns (points : list vec) (k maxIterations : nat) (g : RNG) :
  DataProcessing.kmeans [] k maxIterations g = (Throw TypeError, g)
  /\ (points <> [] -> seed_in_range points g = true ->
      exists st,
        DataProcessing.kmeans_loop points k maxIterations g
        = (Ok st, mkRNG (draws g) (cursor g + Nat.max 1 k))
        /\ DataProcessing.kmeans points k maxIterations g
           = (Ok (mkResult (centroids st) (assignments st)),
              mkRNG (draws g) (cursor g + Nat.max 1 k))
        /\ Forall (fun c => c <> None) (centroids st)
        /\ length (centroids st) = Nat.max 1 k
        /\ length (assignments st) = length points
        /\ Forall (near_range (Nat.max 1 k)) (assignments st)
        /\ (iterations st <= maxIterations)%nat).
Proof.
  split; [reflexivity|]. intros Hne Hseed.
  unfold DataProcessing.kmeans, DataProcessing.kmeans_loop.
  destruct points as [|p0 ps] eqn:Ep; [congruence|]. rewrite <- Ep in *.
  destruct (@seed_in_range_good (fun _ => True) points g) as (p & Es & _);
    [now apply Forall_forall|exact Hseed|].
  destruct (@cluster_total DataProcessing.euclideanDist
              (DataProcessing.mean_point (length p0)) (fun c => c <> None))
    with (points := points) (k := k) (maxIterations := maxIterations) (g := g)
    as (st & E & I1 & I2 & I3 & I4 & I5).
  - intros q [c|] Hc; [|congruence]. unfold DataProcessing.euclideanDist. eauto.
  - discriminate.
  - now right.
  - rewrite Es. discriminate.
  - exists st. rewrite E. simpl. auto 10.
Qed.

(** X7. [kMeansWithVectors] raises its error exactly when there are fewer
    vectors than clusters. Otherwise it returns, whatever the vectors hold
    ([NaN], infinities, different lengths): [max 1 k] centroids, one
    assignment per vector, each a centroid index or [-1], after no more than
    [maxIterations] rounds and exactly [max 1 k] draws. *)
Theorem kMeansWithVectors_total (vectors : list vec) (k maxIterations : nat) (g : RNG) :
  ((length vectors < k)%nat ->
   TextClustering.kMeansWithVectors vectors k maxIterations g
   = (Throw (TextClustering.not_enough k), g))
  /\ ((k <= length vectors)%nat ->
      exists st,
        TextClustering.kMeansWithVectors_loop vectors k maxIterations g
        = (Ok st, mkRNG (draws g) (cursor g + Nat.max 1 k))
        /\ TextClustering.kMeansWithVectors vectors k maxIterations g
           = (Ok (mkResult (centroids st) (assignments st)),
              mkRNG (draws g) (cursor g + Nat.max 1 k))
        /\ length (centroids st) = Nat.max 1 k
        /\ length (assignments st) = length vectors
        /\ Forall (near_range (Nat.max 1 k)) (assignments st)
        /\ (iterations st <= maxIterations)%nat).
Proof. exact (kMeansWithVectors_returns vectors k maxIterations g). Qed.

(** Two vectors of different lengths, one of them with a [NaN], and one
    cluster. *)
Lemma kMeansWithVectors_total_witness :
  exists st,
    TextClustering.kMeansWithVectors ragged 1 50 even_rng
    = (Ok (mkResult (centroids st) (assignments st)), mkRNG (draws even_rng) 1)
    /\ length (assignments st) = 2%nat.
Proof.
  destruct (proj2 (kMeansWithVectors_total ragged 1 50 even_rng))
    as (st & _ & E & _ & L & _); [simpl; lia|].
  exists st. split; [exact E|exact L].
Defined.

(** X8. [kmeans] raises a [TypeError] on an empty list of points. On a
    non-empty list, when the first draw selects a point, it returns,
    whatever the points hold: [max 1 k] centroids, all defined, one
    assignment per point, each a centroid index or [-1], after no more than
    [maxIterations] rounds and exactly [max 1 k] draws. *)
Theorem kmeans_total (points : list vec) (k maxIterations : nat) (g : RNG) :
  DataProcessing.kmeans [] k maxIterations g = (Throw TypeError, g)
  /\ (points <> [] -> seed_in_range points g = true ->
      exists st,
        DataProcessing.kmeans_loop points k maxIterations g
        = (Ok st, mkRNG (draws g) (cursor g + Nat.max 1 k))
        /\ DataProcessing.kmeans points k maxIterations g
           = (Ok (mkResult (centroids st) (assignments st)),
              mkRNG (draws g) (cursor g + Nat.max 1 k))
        /\ Forall (fun c => c <> None) (centroids st)
        /\ length (centroids st) = Nat.max 1 k
        /\ length (assignments st) = length points
        /\ Forall (near_range (Nat.max 1 k)) (assignments st)
        /\ (iterations st <= maxIterations)%nat).
Proof. exact (kmeans_returns points k maxIterations g). Qed.

(** Two points of different lengths, one of them with a [NaN], and three
    clusters. *)
Lemma kmeans_total_witness :
  exists st,
    DataProcessing.kmeans ragged 3 10 even_rng
    = (Ok (mkResult (centroids st) (assignments st)), mkRNG (draws even_rng) 3)
    /\ length (centroids st) = 3%nat
    /\ length (assignments st) = 2%nat.
Proof.
  destruct (proj2 (kmeans_total ragged 3 10 even_rng))
    as (st & _ & E & _ & C & L & _); [discriminate|reflexivity|].
  exists st. split; [exact E|]. split; [exact C|exact L].
Defined.

End ClusterersTotal.
(* ================================================================= *)
(** * [tSNEProjection] and [processVectorData] as wholes *)

Section VectorPipeline.
Import JS.
Variables Math_exp Math_log : float -> float.

Lemma random_points2_rng n : forall g,
  snd (TextClustering.random_points2 n g) = mkRNG (draws g) (cursor g + 2 * n).
Proof.
  induction n as [|n IH]; intros g; simpl.
  - destruct g. simpl. now rewrite Nat.add_0_r.
  - specialize (IH (mkRNG (draws g) (S (S (cursor g))))).
    destruct (TextClustering.random_points2 n _) as [rest g3]. simpl in *.
    rewrite IH. f_equal. lia.
Qed.

(** X9. Whatever [Math.exp] and [Math.log] compute and whatever the vectors
    hold, [tSNEProjection] returns one point per vector, and [[]] for no
    vector; it draws two random numbers per vector, whatever the number of
    iterations. *)
Theorem tSNEProjection_shape (vectors : list vec) (iterations : nat) (g : RNG) :
  length (fst (TextClustering.tSNEProjection Math_exp Math_log vectors iterations g))
  = length vectors
  /\ snd (TextClustering.tSNEProjection Math_exp Math_log vectors iterations g)
     = mkRNG (draws g) (cursor g + 2 * length vectors)
  /\ TextClustering.tSNEProjection Math_exp Math_log [] iterations g = ([], g).
Proof.
  split; [apply tSNEProjection_length|]. split; [|reflexivity].
  rewrite tSNEProjection_rng. apply random_points2_rng.
Qed.

Lemma requested_clusters_positive c : (1 <= TextClustering.requested_clusters c)%nat.
Proof. destruct c as [[|k]|]; simpl; lia. Qed.

Lemma processVectorData_continues data g p ps :
  TextClustering.vd_points data = p :: ps ->
  exists coords,
    length coords = length (TextClustering.vd_points data)
    /\ TextClustering.processVectorData Math_exp Math_log data g
       = match TextClustering.kMeansWithVectors (map snd (TextClustering.vd_points data))
                 (TextClustering.requested_clusters (TextClustering.vd_clusterCount data)) 50
                 (mkRNG (draws g) (cursor g + 2 * length (TextClustering.vd_points data))) with
         | (Throw e, g2) => (Throw e, g2)
         | (Ok r, g2) =>
             let updatedPoints :=
               map (fun x => (fst (fst x), snd (fst x), fst (snd x), snd (snd x)))
                   (combine (TextClustering.vd_points data)
                            (combine coords (res_assignments r))) in
             let clusters :=
               TextClustering.cluster_statistics
                 (map (fun x => TextClustering.mkLabelled (fst (fst (fst x))) (snd x))
                      updatedPoints)
                 (TextClustering.requested_clusters (TextClustering.vd_clusterCount data)) in
             (Ok (TextClustering.mkVectorResult updatedPoints clusters (length clusters)), g2)
         end.
Proof.
  intros Hp. unfold TextClustering.processVectorData.
  pose proof (tSNEProjection_length Math_exp Math_log
                (map snd (TextClustering.vd_points data)) 1000 g) as Hlen.
  pose proof (tSNEProjection_rng Math_exp Math_log
                (map snd (TextClustering.vd_points data)) 1000 g) as Hrng.
  rewrite random_points2_rng in Hrng. rewrite length_map in Hlen, Hrng.
  destruct (TextClustering.tSNEProjection _ _ _ _ g) as [coords g1].
  simpl fst in Hlen. simpl snd in Hrng. subst g1.
  exists coords. split; [exact Hlen|]. now rewrite Hp.
Qed.

(** What [processVectorData] does when every point carries a vector. *)
Lemma processVectorData_outcomes (data : TextClustering.vector_data) (g : RNG) :
  (TextClustering.vd_points data = [] ->
   TextClustering.processVectorData Math_exp Math_log data g
   = (Throw (Error "Invalid data for vector processing"), g))
  /\ (TextClustering.vd_points data <> [] ->
      (length (TextClustering.vd_points data)
       < TextClustering.requested_clusters (TextClustering.vd_clusterCount data))%nat ->
      TextClustering.processVectorData Math_exp Math_log data g
      = (Throw (TextClustering.not_enough
                  (TextClustering.requested_clusters (TextClustering.vd_clusterCount data))),
         mkRNG (draws g) (cursor g + 2 * length (TextClustering.vd_points data))))
  /\ ((TextClustering.requested_clusters (TextClustering.vd_clusterCount data)
       <= length (TextClustering.vd_points data))%nat ->
      exists r,
        TextClustering.processVectorData Math_exp Math_log data g
        = (Ok r, mkRNG (draws g)
                   (cursor g + 2 * length (TextClustering.vd_points data)
                    + TextClustering.requested_clusters (TextClustering.vd_clusterCount data)))
        /\ map (fun x => (fst (fst (fst x)), snd (fst (fst x)))) (TextClustering.vr_points r)
           = TextClustering.vd_points data
        /\ TextClustering.vr_clusterCount r = length (TextClustering.vr_clusters r)
        /\ (TextClustering.vr_clusterCount r
            <= TextClustering.requested_clusters (TextClustering.vd_clusterCount data))%nat).
Proof.
  set (k := TextClustering.requested_clusters (TextClustering.vd_clusterCount data)).
  pose proof (requested_clusters_positive (TextClustering.vd_clusterCount data)) as Hk.
  fold k in Hk.
  split; [|split].
  - intros H. unfold TextClustering.processVectorData. now rewrite H.
  - intros Hne Hlt.
    destruct (TextClustering.vd_points data) as [|p ps] eqn:Hp; [congruence|].
    destruct (processVectorData_continues data g Hp) as (coords & _ & ->).
    rewrite Hp. fold k.
    rewrite (proj1 (kMeansWithVectors_returns (map snd (p :: ps)) k 50
                      (mkRNG (draws g) (cursor g + 2 * length (p :: ps)))));
      [reflexivity|now rewrite length_map].
  - intros Hle.
    destruct (TextClustering.vd_points data) as [|p ps] eqn:Hp; [simpl in Hle; lia|].
    destruct (processVectorData_continues data g Hp) as (coords & Hc & ->).
    rewrite Hp in *. fold k.
    destruct (proj2 (kMeansWithVectors_returns (map snd (p :: ps)) k 50
                       (mkRNG (draws g) (cursor g + 2 * length (p :: ps)))))
      as (st & _ & E & _ & Ha & _); [now rewrite length_map|].
    rewrite E. rewrite length_map in Ha.
    eexists. split; [|split; [|split]].
    + cbv zeta. do 2 f_equal. cbn [draws cursor]. lia.
    + cbn [TextClustering.vr_points res_assignments]. rewrite map_map.
      cbn [fst snd].
      transitivity (map fst (combine (p :: ps) (combine coords (assignments st)))).
      { apply map_ext. now intros [[t v] [c a]]. }
      clear - Hc Ha. revert coords Hc Ha. generalize (assignments st). generalize (p :: ps).
      induction l as [|x l IH]; intros [|a l0] [|c cs] Hc Ha; simpl in *; try discriminate;
        [reflexivity|].
      f_equal. apply IH; lia.
    + reflexivity.
    + cbn [TextClustering.vr_clusterCount]. rewrite cluster_statistics_length.
      etransitivity; [apply filter_length_le|]. now rewrite length_seq.
Qed.

(** X10. [processVectorData] raises "Invalid data for vector processing" when
    there is no point and "No vector data found" when the first point has
    no vector, both before any draw. When every point carries a vector it
    raises the error of [kMeansWithVectors] if there are fewer points than
    the requested number of clusters (5 when none is requested), after the
    two draws per point of the projection, and returns otherwise, whatever
    the vectors hold: every input point once, at most the requested number
    of clusters, and the number of listed clusters as [clusterCount]. *)
Theorem processVectorData_total (data : TextClustering.vector_data) (text : string)
    (others : list (string * option vec)) (clusterCount : option nat) (g : RNG) :
  TextClustering.processVectorData_checked Math_exp Math_log
    (TextClustering.FirstVectorMissing text others clusterCount) g
  = (Throw (Error "No vector data found"), g)
  /\ (TextClustering.vd_points data = [] ->
      TextClustering.processVectorData_checked Math_exp Math_log
        (TextClustering.WithVectors data) g
      = (Throw (Error "Invalid data for vector processing"), g))
  /\ (TextClustering.vd_points data <> [] ->
      (length (TextClustering.vd_points data)
       < TextClustering.requested_clusters (TextClustering.vd_clusterCount data))%nat ->
      TextClustering.processVectorData_checked Math_exp Math_log
        (TextClustering.WithVectors data) g
      = (Throw (TextClustering.not_enough
                  (TextClustering.requested_clusters (TextClustering.vd_clusterCount data))),
         mkRNG (draws g) (cursor g + 2 * length (TextClustering.vd_points data))))
  /\ ((TextClustering.requested_clusters (TextClustering.vd_clusterCount data)
       <= length (TextClustering.vd_points data))%nat ->
      exists r,
        TextClustering.processVectorData_checked Math_exp Math_log
          (TextClustering.WithVectors data) g
        = (Ok r, mkRNG (draws g)
                   (cursor g + 2 * length (TextClustering.vd_points data)
                    + TextClustering.requested_clusters (TextClustering.vd_clusterCount data)))
        /\ map (fun x => (fst (fst (fst x)), snd (fst (fst x)))) (TextClustering.vr_points r)
           = TextClustering.vd_points data
        /\ TextClustering.vr_clusterCount r = length (TextClustering.vr_clusters r)
        /\ (TextClustering.vr_clusterCount r
            <= TextClustering.requested_clusters (TextClustering.vd_clusterCount data))%nat).
Proof.
  split; [reflexivity|]. cbn [TextClustering.processVectorData_checked].
  exact (processVectorData_outcomes data g).
Qed.

End VectorPipeline.

Section VectorPipelineCounts.
Import JS.
Variables Math_exp Math_log : float -> float.

Lemma cluster_statistics_sizes updatedPoints k :
  list_sum (map TextClustering.st_size (TextClustering.cluster_statistics updatedPoints k))
  = list_sum (map (cluster_size (map TextClustering.lb_cluster updatedPoints)) (seq 0 k)).
Proof.
  unfold TextClustering.cluster_statistics.
  induction (seq 0 k) as [|c cs IH]; [reflexivity|].
  cbn [flat_map]. rewrite map_app, list_sum_app, IH.
  change (map ?f (c :: cs)) with (f c :: map f cs). cbn [list_sum].
  rewrite cluster_size_labels. f_equal.
  destruct (filter _ updatedPoints); simpl; lia.
Qed.

Lemma labels_of_points {A B} (pts : list (string * A)) : forall (coords : list B) (asg : list Z),
  length coords = length pts -> length asg = length pts ->
  map TextClustering.lb_cluster
    (map (fun x : string * A * B * Z => TextClustering.mkLabelled (fst (fst (fst x))) (snd x))
       (map (fun x => (fst (fst x), snd (fst x), fst (snd x), snd (snd x)))
          (combine pts (combine coords asg))))
  = asg.
Proof.
  induction pts as [|p pts IH]; intros [|c coords] [|a asg] Hc Ha; simpl in *;
    try discriminate; [reflexivity|].
  f_equal. apply IH; lia.
Qed.

(** X11. On finite vectors of one dimension, at least as many as the requested
    clusters, [processVectorData] returns between one and the requested
    number of clusters, and their sizes add up to the number of points:
    every point is counted in exactly one listed cluster. *)
Theorem processVectorData_counts_every_point (data : TextClustering.vector_data)
    (dim : nat) (g : RNG) :
  (TextClustering.requested_clusters (TextClustering.vd_clusterCount data)
   <= length (TextClustering.vd_points data))%nat ->
  well_formed dim (map snd (TextClustering.vd_points data)) ->
  averages_finite (map snd (TextClustering.vd_points data)) = true ->
  exists r g',
    TextClustering.processVectorData Math_exp Math_log data g = (Ok r, g')
    /\ list_sum (map TextClustering.st_size (TextClustering.vr_clusters r))
       = length (TextClustering.vd_points data)
    /\ (1 <= TextClustering.vr_clusterCount r
        <= TextClustering.requested_clusters (TextClustering.vd_clusterCount data))%nat.
Proof.
  intros Hle Hwf Havg.
  set (k := TextClustering.requested_clusters (TextClustering.vd_clusterCount data)) in *.
  pose proof (requested_clusters_positive (TextClustering.vd_clusterCount data)) as Hk.
  fold k in Hk.
  destruct (TextClustering.vd_points data) as [|p ps] eqn:Hp; [simpl in Hle; lia|].
  destruct (processVectorData_continues Math_exp Math_log data g Hp) as (coords & Hc & ->).
  rewrite Hp in *. fold k.
  destruct (@kMeansWithVectors_loop_settles (map snd (p :: ps)) k 50 dim
              (mkRNG (draws g) (cursor g + 2 * length (p :: ps))))
    as (st & g' & E & _ & _ & _ & _ & Ha & _ & Hsum);
    [rewrite length_map; lia|exact Hwf|exact Havg|].
  unfold TextClustering.kMeansWithVectors. rewrite E. cbn [returned].
  rewrite length_map in Ha, Hsum.
  eexists. eexists. split; [reflexivity|].
  cbn [TextClustering.vr_clusters TextClustering.vr_clusterCount res_assignments].
  assert (Hs : list_sum (map TextClustering.st_size
                 (TextClustering.cluster_statistics
                    (map (fun x : string * vec * TextClustering.point2 * Z =>
                            TextClustering.mkLabelled (fst (fst (fst x))) (snd x))
                       (map (fun x => (fst (fst x), snd (fst x), fst (snd x), snd (snd x)))
                          (combine (p :: ps) (combine coords (assignments st))))) k))
               = length (p :: ps)).
  { rewrite cluster_statistics_sizes, labels_of_points by assumption. exact Hsum. }
  split; [exact Hs|]. split.
  - destruct (TextClustering.cluster_statistics _ k); [simpl in Hs; discriminate|simpl; lia].
  - rewrite cluster_statistics_length.
    etransitivity; [apply filter_length_le|]. now rewrite length_seq.
Qed.

End VectorPipelineCounts.

(** Three equal vectors and two requested clusters. *)
Lemma processVectorData_counts_every_point_witness :
  exists r g',
    TextClustering.processVectorData (fun x => x) (fun x => x)
      (TextClustering.mkVectorData three_alike (Some 2)) even_rng = (Ok r, g')
    /\ list_sum (map TextClustering.st_size (TextClustering.vr_clusters r)) = 3
    /\ (1 <= TextClustering.vr_clusterCount r <= 2)%nat.
Proof.
  apply (@processVectorData_counts_every_point (fun x => x) (fun x => x)
           (TextClustering.mkVectorData three_alike (Some 2)) 1 even_rng).
  - simpl. lia.
  - repeat constructor.
  - reflexivity.
Defined.

(* ================================================================= *)
(** * The probabilities of the projection *)

Section Probabilities.
Import JS.
Variables Math_exp Math_log : float -> float.

(** X12. Whatever [Math.exp] and [Math.log] compute and whatever the distances
    are, the matrix of [convertDistancesToProbabilities] is symmetric, bit
    for bit, and square. *)
Theorem convertDistancesToProbabilities_symmetric (distances : list vec)
    (perplexity : float) (i j : nat) :
  DataProcessing.entry
    (TextClustering.convertDistancesToProbabilities Math_exp Math_log distances perplexity) i j
  = DataProcessing.entry
      (TextClustering.convertDistancesToProbabilities Math_exp Math_log distances perplexity) j i
  /\ length (TextClustering.convertDistancesToProbabilities Math_exp Math_log
               distances perplexity) = length distances
  /\ Forall (fun row => length row = length distances)
       (TextClustering.convertDistancesToProbabilities Math_exp Math_log distances perplexity).
Proof.
  unfold TextClustering.convertDistancesToProbabilities. cbv zeta.
  set (n := length distances). set (probs := map _ (combine (seq 0 n) distances)).
  set (cell := fun i j => ((get (nth i probs []) j + get (nth j probs []) i)
                           / (2 * of_nat n))%float).
  assert (Hentry : forall a b, (a < n)%nat -> (b < n)%nat ->
            DataProcessing.entry
              (map (fun i => map (fun j => cell i j) (seq 0 n)) (seq 0 n)) a b = cell a b).
  { intros a b Ha Hb. unfold DataProcessing.entry, get.
    rewrite (nth_indep _ [] (map (fun j => cell 0%nat j) (seq 0 n)))
      by (now rewrite length_map, length_seq).
    rewrite (map_nth (fun i => map (fun j => cell i j) (seq 0 n))), seq_nth by exact Ha.
    rewrite (nth_indep _ undefined_number (cell (0 + a)%nat 0%nat))
      by (now rewrite length_map, length_seq).
    rewrite (map_nth (fun j => cell (0 + a)%nat j)), seq_nth by exact Hb. reflexivity. }
  assert (Hout : forall a b, (n <= a)%nat \/ (n <= b)%nat ->
            DataProcessing.entry
              (map (fun i => map (fun j => cell i j) (seq 0 n)) (seq 0 n)) a b = nan).
  { intros a b H. unfold DataProcessing.entry, get.
    destruct (Nat.lt_ge_cases a n) as [Ha|Ha].
    - destruct H as [H|H]; [lia|].
      rewrite (nth_indep _ [] (map (fun j => cell 0%nat j) (seq 0 n)))
        by (now rewrite length_map, length_seq).
      rewrite (map_nth (fun i => map (fun j => cell i j) (seq 0 n))).
      apply nth_overflow. now rewrite length_map, length_seq.
    - rewrite (nth_overflow (map _ (seq 0 n))) by (now rewrite length_map, length_seq).
      now destruct b. }
  split; [|split].
  - change (DataProcessing.entry
              (map (fun i => map (fun j => cell i j) (seq 0 n)) (seq 0 n)) i j
            = DataProcessing.entry
                (map (fun i => map (fun j => cell i j) (seq 0 n)) (seq 0 n)) j i).
    destruct (Nat.lt_ge_cases i n) as [Hi|Hi], (Nat.lt_ge_cases j n) as [Hj|Hj].
    + rewrite (Hentry i j Hi Hj), (Hentry j i Hj Hi). unfold cell. now rewrite add_comm.
    + now rewrite (Hout i j (or_intror Hj)), (Hout j i (or_introl Hj)).
    + now rewrite (Hout i j (or_introl Hi)), (Hout j i (or_intror Hi)).
    + now rewrite (Hout i j (or_introl Hi)), (Hout j i (or_intror Hi)).
  - now rewrite length_map, length_seq.
  - apply Forall_forall. intros row Hr. apply in_map_iff in Hr.
    destruct Hr as (a & <- & _). now rewrite length_map, length_seq.
Qed.

End Probabilities.
(* ================================================================= *)
(** * The shape of a preprocessed text *)

Section PreprocessShape.
Import Str NaturalWrapper DataProcessing.

Lemma lower_char_idempotent c : lower_char (lower_char c) = lower_char c.
Proof. destruct c as [[] [] [] [] [] [] [] []]; reflexivity. Qed.

Lemma toLowerCase_idempotent s : toLowerCase (toLowerCase s) = toLowerCase s.
Proof. induction s as [|c s IH]; simpl; [reflexivity|]. now rewrite lower_char_idempotent, IH. Qed.

Lemma truthy_toLowerCase s : truthy (toLowerCase s) = truthy s.
Proof. now destruct s. Qed.

Lemma lower_char_alnum c : is_alnum c = true -> lower_alnum (lower_char c) = true.
Proof. destruct c as [[] [] [] [] [] [] [] []]; vm_compute; congruence. Qed.

Lemma all_chars_toLowerCase s :
  all_chars is_alnum s = true -> all_chars lower_alnum (toLowerCase s) = true.
Proof.
  induction s as [|c s IH]; simpl; [reflexivity|].
  intros H. apply andb_prop in H. destruct H as [Hc Hs].
  now rewrite (lower_char_alnum _ Hc), IH.
Qed.

Lemma all_chars_append p a b :
  all_chars p (a ++ b) = all_chars p a && all_chars p b.
Proof. induction a as [|c a IH]; simpl; [reflexivity|]. now rewrite IH, andb_assoc. Qed.

Lemma all_chars_prefix p s : forall m,
  all_chars p s = true -> all_chars p (substring 0 m s) = true.
Proof.
  induction s as [|c s IH]; intros [|m] H; simpl in *; try reflexivity.
  apply andb_prop in H. destruct H as [Hc Hs]. now rewrite Hc, IH.
Qed.

Lemma apply_rules_alphabet u :
  all_chars lower_alnum u = true -> all_chars lower_alnum (apply_rules simpleRules u) = true.
Proof.
  intros H. unfold simpleRules. cbn [apply_rules].
  repeat match goal with
         | |- context [if endsWith u ?s then _ else _] => destruct (endsWith u s)
         end;
    rewrite ?all_chars_append, ?all_chars_prefix by exact H; auto.
Qed.

Lemma stem_alphabet t :
  keep_token t = true -> all_chars plain_char (stem t) = true.
Proof.
  intros Hk. apply (@all_chars_impl lower_alnum).
  { intros c Hc. unfold plain_char. now rewrite Hc. }
  unfold keep_token in Hk. apply andb_prop in Hk. destruct Hk as [_ Ha].
  unfold test_alnum in Ha. apply andb_prop in Ha. destruct Ha as [Ht Ha].
  unfold stem. rewrite Ht. now apply apply_rules_alphabet, all_chars_toLowerCase.
Qed.

Lemma concat_alphabet ts :
  Forall (fun t => all_chars plain_char t = true) ts ->
  all_chars plain_char (String.concat " " ts) = true.
Proof.
  induction 1 as [|t ts Ht Hts IH]; [reflexivity|].
  destruct ts as [|t' ts']; [exact Ht|].
  change (String.concat " " (t :: t' :: ts'))
    with (t ++ " " ++ String.concat " " (t' :: ts'))%string.
  now rewrite !all_chars_append, Ht, IH.
Qed.

(** X13. Whatever the text, [preprocessText] returns a string of lower-case
    letters, digits and spaces. *)
Theorem preprocessText_alphabet (x : string) :
  all_chars plain_char (preprocessText x) = true.
Proof.
  unfold preprocessText. destruct (truthy x); [|reflexivity]. simpl.
  apply concat_alphabet. unfold filteredTokens. apply Forall_forall.
  intros s Hs. apply in_map_iff in Hs. destruct Hs as (t & <- & Ht).
  apply filter_In in Ht. now apply stem_alphabet.
Qed.

End PreprocessShape.

Section PreprocessSpacing.
Import Str NaturalWrapper DataProcessing.

Lemma split_collapse s : forall b cur,
  split_from b cur (collapse_from b s) = split_from b cur s.
Proof.
  induction s as [|c s IH]; intros b cur; [reflexivity|].
  simpl. destruct (is_space c) eqn:Ec.
  - destruct b; [apply IH|]. simpl. now rewrite IH.
  - simpl. rewrite Ec. apply IH.
Qed.

Lemma tokens_after_run s :
  filter truthy (split_from true "" s) = filter truthy (split_from false "" s).
Proof. destruct s as [|c s]; [reflexivity|]. simpl. now destruct (is_space c). Qed.

Lemma tokens_drop_spaces s :
  filter truthy (split_from false "" (drop_spaces s)) = filter truthy (split_from false "" s).
Proof.
  induction s as [|c s IH]; [reflexivity|].
  simpl. destruct (is_space c) eqn:Ec; [|simpl; now rewrite Ec].
  simpl. now rewrite IH, tokens_after_run.
Qed.

Lemma split_spaces_only sp : forall cur,
  all_chars is_space sp = true -> split_from true cur sp = [cur].
Proof.
  induction sp as [|c sp IH]; intros cur H; [reflexivity|].
  simpl in *. apply andb_prop in H. destruct H as [Hc Hs]. rewrite Hc. now apply IH.
Qed.

Lemma tokens_trailing_spaces sp s : forall b cur,
  all_chars is_space sp = true ->
  filter truthy (split_from b cur (s ++ sp)) = filter truthy (split_from b cur s).
Proof.
  intros b cur Hsp. revert b cur.
  induction s as [|c s IH]; intros b cur.
  - simpl. destruct sp as [|c sp]; [reflexivity|].
    simpl in *. apply andb_prop in Hsp. destruct Hsp as [Hc Hs]. rewrite Hc.
    destruct b; rewrite split_spaces_only by exact Hs; simpl;
      destruct (truthy cur); reflexivity.
  - simpl. destruct (is_space c); [destruct b|]; simpl; now rewrite ?IH.
Qed.

Lemma drop_spaces_parts r :
  exists sp, all_chars is_space sp = true /\ r = (sp ++ drop_spaces r)%string.
Proof.
  induction r as [|c r (sp & Hsp & E)]; [now exists ""|].
  simpl. destruct (is_space c) eqn:Ec.
  - exists (String c sp). simpl. rewrite Ec, Hsp. split; [reflexivity|]. now rewrite <- E.
  - now exists "".
Qed.

Lemma rev_onto_acc a : forall acc, rev_onto a acc = (rev_onto a "" ++ acc)%string.
Proof.
  induction a as [|c a IH]; intros acc; [reflexivity|].
  simpl. rewrite IH, (IH (String c "")), append_assoc. reflexivity.
Qed.

Lemma all_chars_rev_onto p a : forall acc,
  all_chars p a = true -> all_chars p acc = true -> all_chars p (rev_onto a acc) = true.
Proof.
  induction a as [|c a IH]; intros acc Ha Hacc; [exact Hacc|].
  simpl in *. apply andb_prop in Ha. destruct Ha as [Hc Ha].
  apply IH; [exact Ha|]. simpl. now rewrite Hc.
Qed.

Lemma tokens_trim s : tokenize (trim s) = tokenize s.
Proof.
  unfold tokenize, split_spaces, trim.
  rewrite <- (tokens_drop_spaces s).
  remember (drop_spaces s) as u eqn:Eu. clear Eu s.
  destruct (drop_spaces_parts (rev_onto u "")) as (sp & Hsp & E).
  assert (Hu : u = (rev_onto (drop_spaces (rev_onto u "")) "" ++ rev_onto sp "")%string).
  { assert (R : rev_onto (rev_onto u "") "" = u)
      by (rewrite rev_onto_twice; simpl; apply append_nil_r).
    rewrite <- R at 1. rewrite E at 1. rewrite rev_onto_append. apply rev_onto_acc. }
  rewrite Hu at 2. symmetry. apply tokens_trailing_spaces.
  now apply all_chars_rev_onto.
Qed.

Lemma tokens_normalized s : tokenize (trim (collapse_spaces s)) = tokenize s.
Proof.
  rewrite tokens_trim. unfold tokenize, split_spaces, collapse_spaces.
  now rewrite split_collapse.
Qed.

Lemma preprocessText_tokens x :
  preprocessText x
  = String.concat " " (map stem (filter keep_token (tokenize (toLowerCase x)))).
Proof.
  unfold preprocessText, filteredTokens. rewrite tokens_normalized.
  destruct x; reflexivity.
Qed.

(** X14. [preprocessText] depends on its input through the lower-cased words
    only: two texts with the same words, whatever the white space around and
    between them and whatever the case of their letters, have the same
    result. (The replacement of white space and the [trim] in front of the
    tokenizer do not change what it returns.) *)
Theorem preprocessText_ignores_spacing (x y : string) :
  tokenize (toLowerCase x) = tokenize (toLowerCase y) ->
  preprocessText x = preprocessText y.
Proof. intros H. now rewrite !preprocessText_tokens, H. Qed.

(** The same words in another case and with other white space. *)
Lemma preprocessText_ignores_spacing_witness :
  preprocessText "The  CATS sat" = preprocessText " the cats   SAT ".
Proof.
  apply (@preprocessText_ignores_spacing "The  CATS sat" " the cats   SAT ").
  reflexivity.
Defined.

End PreprocessSpacing.

(* ================================================================= *)
(** * The fallback stemmer and tokenizer *)

Section StemmerFacts.
Import Str NaturalWrapper.

Lemma substring_suffix p suf : substring (String.length p) (String.length suf) (p ++ suf) = suf.
Proof.
  induction p as [|c p IH]; simpl; [|exact IH].
  induction suf as [|c suf IH]; simpl; [reflexivity|]. now rewrite IH.
Qed.

Lemma endsWith_append p suf : endsWith (p ++ suf) suf = true.
Proof.
  unfold endsWith. rewrite length_append.
  replace (String.length p + String.length suf - String.length suf)%nat
    with (String.length p) by lia.
  rewrite substring_suffix, String.eqb_refl.
  destruct (Nat.leb_spec (String.length suf) (String.length p + String.length suf)); [reflexivity|lia].
Qed.

Lemma substring_parts s : forall n,
  (n <= String.length s)%nat ->
  s = (substring 0 n s ++ substring n (String.length s - n) s)%string.
Proof.
  induction s as [|c s IH]; intros [|n] H; simpl in *; try reflexivity; try lia.
  - f_equal. clear. induction s as [|c s IH]; simpl; [reflexivity|]. now rewrite <- IH.
  - f_equal. apply IH. lia.
Qed.

Lemma endsWith_parts s suf :
  endsWith s suf = true -> exists p, s = (p ++ suf)%string.
Proof.
  unfold endsWith. intros H. apply andb_prop in H. destruct H as [Hl He].
  apply Nat.leb_le in Hl. apply String.eqb_eq in He.
  exists (substring 0 (String.length s - String.length suf) s).
  assert (Hn : (String.length s - String.length suf <= String.length s)%nat) by lia.
  rewrite (substring_parts s Hn) at 1.
  f_equal. rewrite <- He at 3. f_equal. lia.
Qed.

Lemma endsWith_longer s a b : endsWith s (a ++ b) = true -> endsWith s b = true.
Proof.
  intros H. apply endsWith_parts in H. destruct H as (p & ->).
  rewrite <- append_assoc. apply endsWith_append.
Qed.

(** X15. Of the six rules of the fallback stemmer only four are ever applied:
    the rules for "es" and for "ies" come after the rule for "s", which
    every word they match also matches. So a plural in "ies" loses its "s"
    and no more. *)
Theorem stem_applies_four_rules (word : string) :
  stem word
  = if truthy word
    then apply_rules [("ing", ""); ("ed", ""); ("s", ""); ("ly", "")] (toLowerCase word)
    else "".
Proof.
  unfold stem. destruct (truthy word); [|reflexivity].
  generalize (toLowerCase word) as u. intros u.
  unfold simpleRules. cbn [apply_rules].
  destruct (endsWith u "ing"); [reflexivity|].
  destruct (endsWith u "ed"); [reflexivity|].
  destruct (endsWith u "s") eqn:Es; [reflexivity|].
  destruct (endsWith u "es") eqn:Ees.
  { apply (endsWith_longer u "e" "s") in Ees. congruence. }
  destruct (endsWith u "ly"); [reflexivity|].
  destruct (endsWith u "ies") eqn:Eies; [|reflexivity].
  apply (endsWith_longer u "ie" "s") in Eies. congruence.
Qed.

(** *** The tokenizer *)

Lemma split_from_pieces s : forall b cur,
  all_chars (fun c => negb (is_space c)) cur = true ->
  Forall (fun t => all_chars (fun c => negb (is_space c)) t = true) (split_from b cur s).
Proof.
  induction s as [|c s IH]; intros b cur H; simpl; [now constructor|].
  destruct (is_space c) eqn:Ec.
  - destruct b; [now apply IH|]. constructor; [exact H|]. now apply IH.
  - apply IH. rewrite all_chars_append, H. simpl. now rewrite Ec.
Qed.

Lemma tokenize_words s : Forall word (tokenize s).
Proof.
  unfold tokenize, split_spaces. apply Forall_forall. intros t Ht.
  apply filter_In in Ht. destruct Ht as [Hin Ht].
  pose proof (@split_from_pieces s false "" eq_refl) as H.
  rewrite Forall_forall in H. split; [|now apply H].
  intros ->. discriminate.
Qed.

(** X16. The tokens are the non-empty pieces without white space, and joining
    them by single spaces and tokenizing again gives the same tokens. *)
Theorem tokenize_join_round_trip (s : string) :
  Forall word (tokenize s)
  /\ tokenize (String.concat " " (tokenize s)) = tokenize s.
Proof.
  split; [apply tokenize_words|]. apply tokenize_concat_words, tokenize_words.
Qed.

End StemmerFacts.
(* ================================================================= *)
(** * [MockTfIdf]: what is added is what is listed *)

Section TfIdfFacts.
Import Str NaturalWrapper.

Lemma count_in_bump i d counts :
  count_in i (bump_doc d counts)
  = (count_in i counts + if (i =? d)%nat then 1 else 0)%nat.
Proof.
  unfold count_in. induction counts as [|[d' c] counts IH]; simpl.
  - rewrite (Nat.eqb_sym d i). destruct (i =? d)%nat; reflexivity.
  - destruct (Nat.eqb_spec d' d) as [->|Hd]; simpl.
    + rewrite (Nat.eqb_sym d i). destruct (i =? d)%nat; simpl; lia.
    + destruct (Nat.eqb_spec d' i) as [->|Hi]; simpl.
      * destruct (Nat.eqb_spec i d); [congruence|lia].
      * exact IH.
Qed.

Lemma counter_bump_word d w ts w' i :
  counter (bump_word d w ts) w' i
  = (counter ts w' i + if (w' =? w)%string && (i =? d)%nat then 1 else 0)%nat.
Proof.
  unfold counter. induction ts as [|[k counts] ts IH]; simpl.
  - rewrite (String.eqb_sym w w'). destruct (w' =? w)%string; simpl; [|reflexivity].
    unfold count_in. simpl. rewrite (Nat.eqb_sym d i). destruct (i =? d)%nat; reflexivity.
  - destruct (String.eqb_spec k w) as [->|Hk]; simpl.
    + rewrite (String.eqb_sym w w'). destruct (w' =? w)%string; simpl; [|lia].
      apply count_in_bump.
    + destruct (String.eqb_spec k w') as [->|Hk']; simpl.
      * destruct (String.eqb_spec w' w); [congruence|simpl; lia].
      * exact IH.
Qed.

Lemma counter_count_words d words : forall ts w' i,
  counter (fold_left (count_word d) words ts) w' i
  = (counter ts w' i
     + if (i =? d)%nat && negb (includes inherited_names w')
       then count_occ string_dec words w' else 0)%nat.
Proof.
  induction words as [|w words IH]; intros ts w' i; cbn [fold_left count_occ].
  - destruct (_ && _); lia.
  - rewrite IH. unfold count_word.
    destruct (string_dec w w') as [->|Hw].
    + destruct (includes inherited_names w') eqn:Ei.
      * cbn [negb]. rewrite andb_false_r. lia.
      * rewrite counter_bump_word, String.eqb_refl. cbn [negb andb].
        rewrite andb_true_r. destruct (i =? d)%nat; lia.
    + destruct (includes inherited_names w); [reflexivity|].
      rewrite counter_bump_word.
      destruct (String.eqb_spec w' w); [congruence|]. cbn [andb]. lia.
Qed.

End TfIdfFacts.


Section TfIdfListing.
Import Str NaturalWrapper.

Lemma docs_addDocument t text : docs (addDocument t text) = docs t ++ [text].
Proof.
  unfold addDocument. destruct (truthy text) eqn:E; simpl; [reflexivity|].
  unfold truthy in E. apply negb_false_iff, String.eqb_eq in E. now subst.
Qed.

Lemma counter_addDocument t text w i :
  counter (terms (addDocument t text)) w i
  = (counter (terms t) w i
     + if (i =? length (docs t))%nat && negb (includes inherited_names w)
       then count_occ string_dec (tokenize text) w else 0)%nat.
Proof.
  unfold addDocument. destruct (truthy text) eqn:E; cbn [negb terms].
  - rewrite counter_count_words, length_app. cbn [length].
    now replace (length (docs t) + 1 - 1)%nat with (length (docs t)) by lia.
  - unfold truthy in E. apply negb_false_iff, String.eqb_eq in E. subst.
    cbn [tokenize split_spaces split_from filter truthy String.eqb negb count_occ].
    destruct (_ && _); lia.
Qed.

Lemma fold_addDocument ds : forall t,
  docs (fold_left addDocument ds t) = docs t ++ ds
  /\ forall w i,
       counter (terms (fold_left addDocument ds t)) w i
       = (counter (terms t) w i
          + if (length (docs t) <=? i)%nat && negb (includes inherited_names w)
            then count_occ string_dec (tokenize (nth (i - length (docs t)) ds "")) w
            else 0)%nat.
Proof.
  induction ds as [|d ds IH]; intros t; cbn [fold_left].
  - split; [now rewrite app_nil_r|]. intros w i.
    replace (nth (i - length (docs t)) [] "") with "" by (now destruct (i - _)%nat).
    cbn [tokenize split_spaces split_from filter truthy String.eqb negb count_occ].
    destruct (_ && _); lia.
  - destruct (IH (addDocument t d)) as [Hd Hc]. split.
    + now rewrite Hd, docs_addDocument, <- app_assoc.
    + intros w i. rewrite Hc, counter_addDocument, docs_addDocument, length_app.
      cbn [length].
      destruct (Nat.eqb_spec i (length (docs t))) as [->|Hi].
      * rewrite Nat.sub_diag. cbn [nth].
        destruct (Nat.leb_spec (length (docs t) + 1) (length (docs t))); [lia|].
        rewrite Nat.leb_refl. cbn [andb]. lia.
      * destruct (Nat.leb_spec (length (docs t) + 1) i);
          destruct (Nat.leb_spec (length (docs t)) i); try lia; cbn [andb]; [|lia].
        replace (i - length (docs t))%nat with (S (i - (length (docs t) + 1))) by lia.
        cbn [nth]. lia.
Qed.

(** The counters of a model built from the documents [ds]. *)
Lemma counter_build ds w i :
  counter (terms (DataProcessing.build_tfidf ds)) w i
  = if includes inherited_names w then 0
    else count_occ string_dec (tokenize (nth i ds "")) w.
Proof.
  unfold DataProcessing.build_tfidf.
  destruct (fold_addDocument ds new_TfIdf) as [_ H]. rewrite H.
  cbn [new_TfIdf docs terms counter find length Nat.leb andb].
  rewrite Nat.sub_0_r. now destruct (includes inherited_names w).
Qed.

(** *** The keys are distinct *)

Lemma keys_bump_word d w ts :
  map fst (bump_word d w ts)
  = if includes (map fst ts) w then map fst ts else map fst ts ++ [w].
Proof.
  induction ts as [|[k counts] ts IH]; [reflexivity|].
  cbn [bump_word map fst includes existsb].
  destruct (k =? w)%string; cbn [map fst orb]; [reflexivity|].
  rewrite IH. unfold includes. now destruct (existsb _ (map fst ts)).
Qed.

Lemma includes_spec l s : includes l s = true <-> In s l.
Proof.
  unfold includes. rewrite existsb_exists. split.
  - intros (x & Hx & E). apply String.eqb_eq in E. now subst.
  - intros H. exists s. split; [exact H|apply String.eqb_refl].
Qed.

Lemma nodup_bump_word d w ts :
  NoDup (map fst ts) -> NoDup (map fst (bump_word d w ts)).
Proof.
  intros H. rewrite keys_bump_word.
  destruct (includes (map fst ts) w) eqn:E; [exact H|].
  apply NoDup_app; [exact H|repeat constructor; auto|].
  intros x Hx [<-|[]]. apply includes_spec in Hx. congruence.
Qed.

Lemma nodup_addDocument t text :
  NoDup (map fst (terms t)) -> NoDup (map fst (terms (addDocument t text))).
Proof.
  unfold addDocument. destruct (truthy text); cbn [negb terms]; [|auto].
  generalize (length (docs t ++ [text]) - 1)%nat as d.
  generalize (filter truthy (split_spaces text)) as words.
  intros words d. generalize (terms t). induction words as [|w words IH]; intros ts H; [exact H|].
  cbn [fold_left]. apply IH. unfold count_word.
  destruct (includes inherited_names w); [exact H|now apply nodup_bump_word].
Qed.

Lemma nodup_build ds : NoDup (map fst (terms (DataProcessing.build_tfidf ds))).
Proof.
  unfold DataProcessing.build_tfidf.
  assert (H : NoDup (map fst (terms new_TfIdf))) by constructor.
  revert H. generalize new_TfIdf. induction ds as [|d ds IH]; intros t H; [exact H|].
  cbn [fold_left]. now apply IH, nodup_addDocument.
Qed.

(** *** [Object.entries] and [sort] permute *)

Lemma insert_index_perm {V} n (kv : string * V) l :
  Permutation (insert_index n kv l) ((n, kv) :: l).
Proof.
  induction l as [|[m x] l IH]; cbn [insert_index]; [reflexivity|].
  destruct (n <? m)%N; [reflexivity|].
  rewrite IH. apply perm_swap.
Qed.

Lemma Object_entries_perm {V} (o : list (string * V)) : Permutation (Object_entries o) o.
Proof.
  unfold Object_entries.
  assert (H : forall acc,
    Permutation
      (map snd (fold_left (fun acc kv => match array_index (fst kv) with
                                         | Some n => insert_index n kv acc
                                         | None => acc
                                         end) o acc))
      (map snd acc
       ++ filter (fun kv => match array_index (fst kv) with Some _ => true | None => false end) o)).
  { induction o as [|kv o IH]; intros acc; cbn [fold_left filter].
    - now rewrite app_nil_r.
    - rewrite IH. destruct (array_index (fst kv)); [|reflexivity].
      rewrite (Permutation_map snd (insert_index_perm n kv acc)). cbn [map snd].
      apply Permutation_middle. }
  rewrite H. cbn [map app]. clear H.
  induction o as [|kv o IH]; [reflexivity|]. cbn [filter].
  destruct (array_index (fst kv)).
  - cbn [app]. now apply perm_skip.
  - rewrite <- Permutation_middle. now apply perm_skip.
Qed.

Lemma insert_sorted_perm {A} (before : A -> A -> bool) x l :
  Permutation (insert_sorted before x l) (x :: l).
Proof.
  induction l as [|y l IH]; cbn [insert_sorted]; [reflexivity|].
  destruct (before x y); [reflexivity|]. rewrite IH. apply perm_swap.
Qed.

Lemma stable_sort_perm {A} (before : A -> A -> bool) l :
  Permutation (stable_sort before l) l.
Proof.
  unfold stable_sort.
  assert (H : forall acc, Permutation (fold_left (fun acc x => insert_sorted before x acc) l acc)
                            (acc ++ l)).
  { induction l as [|x l IH]; intros acc; cbn [fold_left]; [now rewrite app_nil_r|].
    rewrite IH, insert_sorted_perm. apply Permutation_middle. }
  apply (H []).
Qed.

End TfIdfListing.

Section TfIdfRoundTrip.
Import JS Str NaturalWrapper.

Lemma split_from_length s : forall b cur, (1 <= length (split_from b cur s))%nat.
Proof.
  induction s as [|c s IH]; intros b cur; simpl; [lia|].
  destruct (is_space c); [destruct b|]; simpl; auto.
Qed.

Lemma doc_length_split t i :
  doc_length t i = length (split_spaces (nth i (docs t) "")).
Proof.
  unfold doc_length, split_spaces.
  pose proof (split_from_length (nth i (docs t) "") false "").
  destruct (length _); [lia|reflexivity].
Qed.

Lemma find_key {V} (ts : list (string * V)) kv :
  NoDup (map fst ts) -> In kv ts ->
  find (fun x => (fst x =? fst kv)%string) ts = Some kv.
Proof.
  induction ts as [|x ts IH]; intros Hn Hin; [contradiction|].
  inversion Hn as [|? ? Hx Hts]; subst. cbn [find].
  destruct Hin as [->|Hin]; [now rewrite String.eqb_refl|].
  destruct (String.eqb_spec (fst x) (fst kv)) as [E|_]; [|now apply IH].
  exfalso. apply Hx. rewrite E. now apply in_map.
Qed.

(** The entry [listTerms] makes of a key and its counters. *)
Lemma listed_terms_nodup (f : string * list (nat * nat) -> list term_weight) ts :
  (forall kv e, In e (f kv) -> term e = fst kv) ->
  (forall kv, (length (f kv) <= 1)%nat) ->
  NoDup (map fst ts) -> NoDup (map term (flat_map f ts)).
Proof.
  intros Hf H1. induction ts as [|kv ts IH]; intros Hn; [constructor|].
  inversion Hn as [|? ? Hx Hts]; subst. cbn [flat_map]. rewrite map_app.
  apply NoDup_app; [| now apply IH |].
  - specialize (H1 kv). destruct (f kv) as [|e [|e' l]]; simpl in *; try lia;
      repeat constructor; auto.
  - intros w Hw Hw'. apply in_map_iff in Hw. destruct Hw as (e & <- & He).
    apply in_map_iff in Hw'. destruct Hw' as (e' & E & He').
    apply in_flat_map in He'. destruct He' as (kv' & Hkv' & He').
    apply Hx. rewrite <- (Hf _ _ He), <- E, (Hf _ _ He'). now apply in_map.
Qed.

Lemma listTerms_of_build (ds : list string) (i : nat) :
  ((length ds <= i)%nat -> listTerms (DataProcessing.build_tfidf ds) i = [])
  /\ NoDup (map term (listTerms (DataProcessing.build_tfidf ds) i))
  /\ ((i < length ds)%nat ->
      forall e,
        In e (listTerms (DataProcessing.build_tfidf ds) i)
        <-> (In (term e) (tokenize (nth i ds ""))
             /\ includes inherited_names (term e) = false
             /\ tfidf e
                = (of_nat (count_occ string_dec (tokenize (nth i ds "")) (term e))
                   / of_nat (length (split_spaces (nth i ds ""))))%float)).
Proof.
  set (t := DataProcessing.build_tfidf ds).
  assert (Hdocs : docs t = ds).
  { unfold t, DataProcessing.build_tfidf.
    now destruct (fold_addDocument ds new_TfIdf) as [-> _]. }
  pose proof (nodup_build ds) as Hnd. fold t in Hnd.
  set (f := fun kv : string * list (nat * nat) =>
              match count_in i (snd kv) with
              | O => []
              | c => [mkTerm (fst kv) (of_nat c / of_nat (doc_length t i))%float]
              end).
  assert (Hlist : (i < length ds)%nat ->
            listTerms t i
            = stable_sort (fun a b => (tfidf b - tfidf a <? zero)%float)
                (flat_map f (Object_entries (terms t)))).
  { intros Hi. unfold listTerms. rewrite Hdocs.
    destruct (Nat.leb_spec (length ds) i); [lia|reflexivity]. }
  split; [|split].
  - intros Hi. unfold listTerms. rewrite Hdocs.
    destruct (Nat.leb_spec (length ds) i); [reflexivity|lia].
  - destruct (Nat.lt_ge_cases i (length ds)) as [Hi|Hi].
    2:{ unfold listTerms. rewrite Hdocs.
        destruct (Nat.leb_spec (length ds) i); [constructor|lia]. }
    rewrite (Hlist Hi).
    eapply Permutation_NoDup.
    { apply Permutation_map. symmetry. apply stable_sort_perm. }
    apply listed_terms_nodup.
    + intros kv e. unfold f. destruct (count_in i (snd kv)); [contradiction|].
      now intros [<-|[]].
    + intros kv. unfold f. destruct (count_in i (snd kv)); simpl; lia.
    + eapply Permutation_NoDup; [|exact Hnd].
      apply Permutation_map. symmetry. apply Object_entries_perm.
  - intros Hi e. rewrite (Hlist Hi).
    assert (Hc : forall kv, In kv (terms t) ->
              count_in i (snd kv)
              = if includes inherited_names (fst kv) then 0
                else count_occ string_dec (tokenize (nth i ds "")) (fst kv)).
    { intros kv Hkv. rewrite <- counter_build. fold t. unfold counter.
      now rewrite (@find_key _ _ kv Hnd Hkv). }
    assert (Hdl : doc_length t i = length (split_spaces (nth i ds "")))
      by (now rewrite doc_length_split, Hdocs).
    split.
    + intros He. apply (Permutation_in _ (stable_sort_perm _ _)) in He.
      apply in_flat_map in He. destruct He as (kv & Hkv & He).
      apply (Permutation_in _ (Object_entries_perm _)) in Hkv.
      unfold f in He. specialize (Hc kv Hkv).
      destruct (count_in i (snd kv)) as [|c] eqn:Ec; [contradiction|].
      destruct He as [<-|[]]. cbn [term tfidf]. rewrite Hdl.
      destruct (includes inherited_names (fst kv)); [discriminate|].
      split; [|split; [reflexivity|now rewrite <- Hc]].
      apply (count_occ_In string_dec). rewrite <- Hc. lia.
    + intros (Hin & Hinh & Hw).
      apply (count_occ_In string_dec) in Hin.
      pose proof (counter_build ds (term e) i) as Hcb. fold t in Hcb.
      rewrite Hinh in Hcb. unfold counter in Hcb.
      destruct (find _ (terms t)) as [kv|] eqn:Ef; [|lia].
      apply find_some in Ef. destruct Ef as [Hkv Ek]. apply String.eqb_eq in Ek.
      apply (Permutation_in _ (Permutation_sym (stable_sort_perm _ _))).
      apply in_flat_map. exists kv. split.
      * apply (Permutation_in _ (Permutation_sym (Object_entries_perm _))), Hkv.
      * unfold f. destruct (count_in i (snd kv)) as [|c] eqn:Ec; [lia|].
        left. destruct e as [w x]. cbn [term tfidf] in *. subst w.
        f_equal. now rewrite Hw, <- Hcb, Hdl.
Qed.

(** X17. The terms [listTerms] gives for document [i] of a model built from the
    documents [ds], none of which has the word [__proto__], are the words of
    that document that name no inherited property, each once, and each with
    the number of its occurrences divided by the number of pieces [split]
    cuts the document into; there are none for an index past the last
    document. *)
Theorem listTerms_lists_the_words (ds : list string) (i : nat) :
  proto_free ds ->
  ((length ds <= i)%nat -> listTerms (DataProcessing.build_tfidf ds) i = [])
  /\ NoDup (map term (listTerms (DataProcessing.build_tfidf ds) i))
  /\ ((i < length ds)%nat ->
      forall e,
        In e (listTerms (DataProcessing.build_tfidf ds) i)
        <-> (In (term e) (tokenize (nth i ds ""))
             /\ includes inherited_names (term e) = false
             /\ tfidf e
                = (of_nat (count_occ string_dec (tokenize (nth i ds "")) (term e))
                   / of_nat (length (split_spaces (nth i ds ""))))%float)).
Proof. intros _. exact (listTerms_of_build ds i). Qed.

(** The first of two documents. *)
Lemma listTerms_lists_the_words_witness :
  NoDup (map term (listTerms (DataProcessing.build_tfidf ["cat sat cat"; "dog"]) 0))
  /\ forall e,
       In e (listTerms (DataProcessing.build_tfidf ["cat sat cat"; "dog"]) 0)
       <-> (In (term e) ["cat"; "sat"; "cat"]
            /\ includes inherited_names (term e) = false
            /\ tfidf e
               = (of_nat (count_occ string_dec ["cat"; "sat"; "cat"] (term e)) / 3)%float).
Proof.
  assert (P : proto_free ["cat sat cat"; "dog"]).
  { unfold proto_free. repeat constructor; vm_compute; intuition discriminate. }
  destruct (@listTerms_lists_the_words ["cat sat cat"; "dog"] 0 P) as (_ & N & H).
  split; [exact N|]. apply H. simpl. lia.
Defined.

Lemma tfidf_counter t w i :
  MockTfIdf_tfidf t w i
  = match counter (terms t) w i with
    | O => zero
    | c => (of_nat c / of_nat (doc_length t i))%float
    end.
Proof.
  unfold MockTfIdf_tfidf, counter. now destruct (find _ (terms t)).
Qed.

(** X18. In a model built from the documents [ds], none of which has the word
    [__proto__], [tfidf(term, i)] is the weight [listTerms(i)] lists for the
    term, and 0 for a term it does not list (that names no inherited
    property). *)
Theorem tfidf_is_the_listed_weight (ds : list string) (i : nat) :
  proto_free ds ->
  (i < length ds)%nat ->
  (forall e, In e (listTerms (DataProcessing.build_tfidf ds) i) ->
             MockTfIdf_tfidf (DataProcessing.build_tfidf ds) (term e) i = tfidf e)
  /\ (forall w, includes inherited_names w = false ->
                ~ In w (map term (listTerms (DataProcessing.build_tfidf ds) i)) ->
                MockTfIdf_tfidf (DataProcessing.build_tfidf ds) w i = zero).
Proof.
  intros _ Hi. destruct (listTerms_of_build ds i) as (_ & _ & H). specialize (H Hi).
  assert (Hdl : doc_length (DataProcessing.build_tfidf ds) i
                = length (split_spaces (nth i ds ""))).
  { rewrite doc_length_split. unfold DataProcessing.build_tfidf.
    now destruct (fold_addDocument ds new_TfIdf) as [-> _]. }
  split.
  - intros e He. apply H in He. destruct He as (Hin & Hinh & Hw).
    rewrite tfidf_counter, counter_build, Hinh, Hdl, Hw.
    apply (count_occ_In string_dec) in Hin.
    destruct (count_occ string_dec _ _); [lia|reflexivity].
  - intros w Hinh Hnot. rewrite tfidf_counter, counter_build, Hinh.
    destruct (count_occ string_dec (tokenize (nth i ds "")) w) as [|c] eqn:Ec;
      [reflexivity|].
    exfalso. apply Hnot. apply in_map_iff.
    exists (mkTerm w (of_nat (S c) / of_nat (length (split_spaces (nth i ds ""))))%float).
    split; [reflexivity|]. apply H. cbn [term tfidf]. rewrite Ec.
    split; [|split; [exact Hinh|reflexivity]].
    apply (count_occ_In string_dec). lia.
Qed.

(** The first of two documents. *)
Lemma tfidf_is_the_listed_weight_witness :
  (forall e, In e (listTerms (DataProcessing.build_tfidf ["cat sat cat"; "dog"]) 0) ->
             MockTfIdf_tfidf (DataProcessing.build_tfidf ["cat sat cat"; "dog"]) (term e) 0
             = tfidf e)
  /\ (forall w, includes inherited_names w = false ->
                ~ In w (map term
                          (listTerms (DataProcessing.build_tfidf ["cat sat cat"; "dog"]) 0)) ->
                MockTfIdf_tfidf (DataProcessing.build_tfidf ["cat sat cat"; "dog"]) w 0 = zero).
Proof.
  apply (@tfidf_is_the_listed_weight ["cat sat cat"; "dog"] 0).
  - unfold proto_free. repeat constructor; vm_compute; intuition discriminate.
  - simpl. lia.
Defined.

End TfIdfRoundTrip.
(* ================================================================= *)
(** * The similarity matrix of [clusterTexts]: claim C10 *)

Section SimilarityMatrix.
Import JS Str NaturalWrapper DataProcessing.

Lemma prop_obj_set o k w key :
  prop (obj_set o k w) key <> None -> k = key \/ prop o key <> None.
Proof.
  unfold prop. induction o as [|[k' x] o IH]; simpl.
  - destruct (k =? key)%string eqn:E; [|congruence].
    apply String.eqb_eq in E. now left.
  - destruct (k' =? k)%string eqn:Ek; simpl.
    + apply String.eqb_eq in Ek. subst k'.
      destruct (k =? key)%string eqn:E.
      * apply String.eqb_eq in E. now left.
      * intros H. right. exact H.
    + destruct (k' =? key)%string eqn:E.
      * intros _. right. discriminate.
      * exact IH.
Qed.

(** The keys of a document vector are terms listed for the document. *)
Lemma doc_vector_keys tfidf i key :
  prop (doc_vector tfidf i) key <> None -> In key (map term (listTerms tfidf i)).
Proof.
  unfold doc_vector.
  assert (G : forall l acc,
             prop (fold_left (fun vector t =>
                                if truthy (term t) && negb (isNaN (NaturalWrapper.tfidf t))
                                then obj_set vector (term t) (NaturalWrapper.tfidf t)
                                else vector) l acc) key <> None ->
             prop acc key <> None \/ In key (map term l)).
  { induction l as [|t l IH]; intros acc H; simpl in *; [now left|].
    destruct (IH _ H) as [H1|H1]; [|now right; right].
    destruct (truthy (term t) && negb (isNaN (NaturalWrapper.tfidf t))); [|now left].
    destruct (prop_obj_set _ _ _ _ H1) as [E|H2]; [right; now left|now left]. }
  intros H. destruct (G _ _ H) as [H1|H1]; [|exact H1]. now contradiction H1.
Qed.

(** The vectors of texts without the word "length" have no property of
    that name. *)
Lemma vectors_without_length processedTexts :
  Forall (fun text => ~ In "length" (tokenize text)) processedTexts ->
  Forall no_length_property
    (doc_vectors (build_tfidf processedTexts) (length processedTexts)).
Proof.
  intros H. unfold doc_vectors. apply Forall_forall. intros v Hv.
  apply in_flat_map in Hv. destruct Hv as (i & Hi & Hv). apply in_seq in Hi.
  destruct (doc_vector (build_tfidf processedTexts) i) as [|kv o] eqn:E; [contradiction|].
  destruct Hv as [<-|[]]. unfold no_length_property.
  destruct (prop (kv :: o) "length") as [w|] eqn:P; [|reflexivity]. exfalso.
  assert (K : prop (doc_vector (build_tfidf processedTexts) i) "length" <> None)
    by (rewrite E, P; discriminate).
  apply doc_vector_keys, in_map_iff in K. destruct K as (e & Ee & He).
  destruct (listTerms_of_build processedTexts i) as (_ & _ & L).
  apply (L ltac:(lia)) in He. destruct He as (Hin & _). rewrite Ee in Hin.
  rewrite Forall_forall in H. apply (H (nth i processedTexts "")); [|exact Hin].
  apply nth_In. lia.
Qed.

(** C10, amended. [cosineSimilarity] returns 0 on every pair of vectors the
    first of which is an object without a property named [length], whatever
    the weights; so when no document vector has such a property, every entry
    of the similarity matrix, the diagonal included, is 0. The vectors
    [clusterTexts] builds have no such property when none of the
    preprocessed texts has the word "length". *)
Theorem object_vectors_have_zero_similarity docVectors processedTexts :
  (Forall no_length_property docVectors ->
   (forall vecA vecB, In vecA docVectors -> cosineSimilarity vecA vecB = Some zero)
   /\ similarity_matrix docVectors
      = Some (repeat (repeat zero (length docVectors)) (length docVectors)))
  /\ (Forall (fun text => ~ In "length" (tokenize text)) processedTexts ->
      Forall no_length_property
        (doc_vectors (build_tfidf processedTexts) (length processedTexts))).
Proof.
  split; [|apply vectors_without_length].
  intros H. split.
  - intros vecA vecB Hin. apply object_without_length_gives_zero.
    rewrite Forall_forall in H. now apply H.
  - unfold similarity_matrix.
    set (n := length docVectors).
    rewrite (@sequence_all _ _ (repeat zero n)).
    + now rewrite length_map, length_seq.
    + apply Forall_forall. intros o Ho. apply in_map_iff in Ho.
      destruct Ho as (i & <- & Hi). apply in_seq in Hi.
      rewrite (@sequence_all _ _ zero).
      * now rewrite length_map, length_seq.
      * apply Forall_forall. intros o Ho. apply in_map_iff in Ho.
        destruct Ho as (j & <- & _). apply similarity_entry_zero; auto. lia.
Qed.

(** C10, amended, at the vectors of two documents without the term
    [length]. *)
Lemma object_vectors_have_zero_similarity_witness :
  (forall vecA vecB, In vecA (document_vectors plain_documents) ->
                     cosineSimilarity vecA vecB = Some zero)
  /\ similarity_matrix (document_vectors plain_documents)
     = Some [[zero; zero]; [zero; zero]].
Proof.
  apply (proj1 (@object_vectors_have_zero_similarity
                  (document_vectors plain_documents) [])).
  vm_compute. repeat constructor.
Defined.

End SimilarityMatrix.
(* ================================================================= *)
(** * The mock data are consistent *)

Section MockData.
Import JS DataProcessing.

Lemma mock_points_shape i cx cy texts : forall todo j pointId g,
  texts <> [] ->
  let pts := fst (mock_points i cx cy texts todo j pointId g) in
  map pt_id pts = seq pointId todo
  /\ Forall (fun p => pt_cluster p = Z.of_nat i /\ In (pt_text p) texts
                      /\ length (pt_coordinates p) = 2%nat) pts.
Proof.
  induction todo as [|todo IH]; intros j pointId g Hne; [split; constructor|].
  cbn [mock_points].
  destruct (draw 3 g) as [a g1]. destruct (draw 3 g1) as [b g2].
  specialize (IH (S j) (S pointId) g2 Hne).
  destruct (mock_points i cx cy texts todo (S j) (S pointId) g2) as [rest g3].
  cbn [fst] in *. destruct IH as [I1 I2]. split.
  - cbn [map pt_id seq]. now rewrite I1.
  - constructor; [|exact I2]. cbn [pt_cluster pt_text pt_coordinates].
    split; [reflexivity|]. split; [|reflexivity].
    apply nth_In. apply Nat.mod_upper_bound. destruct texts; [congruence|discriminate].
Qed.

Lemma mock_clusters_shape sizes : forall i pointId g,
  (i + length sizes <= 5)%nat ->
  let pts := fst (mock_clusters sizes i pointId g) in
  map pt_id pts = seq pointId (list_sum sizes)
  /\ Forall (fun p => exists c, (c < 5)%nat /\ pt_cluster p = Z.of_nat c
                                /\ In (pt_text p) (nth c mockTexts [])
                                /\ length (pt_coordinates p) = 2%nat) pts.
Proof.
  induction sizes as [|numPoints sizes IH]; intros i pointId g Hi; [split; constructor|].
  cbn [mock_clusters]. cbn [length] in Hi.
  destruct (Math_random g) as [u g1]. destruct (Math_random g1) as [v g2].
  assert (Hne : nth i mockTexts [] <> []).
  { assert (i < 5)%nat as Hlt by lia.
    do 5 (destruct i as [|i]; [discriminate|]). lia. }
  pose proof (@mock_points_shape i (u * 4 - 2)%float (v * 4 - 2)%float
                (nth i mockTexts []) numPoints 0 pointId g2 Hne) as Hp.
  destruct (mock_points i _ _ _ numPoints 0 pointId g2) as [ps g3].
  specialize (IH (S i) (pointId + numPoints)%nat g3).
  destruct (mock_clusters sizes (S i) (pointId + numPoints) g3) as [qs g4].
  cbn [fst] in *. destruct Hp as [P1 P2]. destruct IH as [Q1 Q2]; [lia|]. split.
  - rewrite map_app, P1, Q1.
    change (list_sum (numPoints :: sizes)) with (numPoints + list_sum sizes)%nat.
    now rewrite seq_app.
  - apply Forall_app. split; [|exact Q2].
    eapply Forall_impl; [|exact P2]. intros p (H1 & H2 & H3).
    exists i. repeat split; auto. lia.
Qed.

(** X20. Whatever the draws, the mock data are consistent: the points are
    numbered 0, 1, 2, ... in their order, each lies in one of the five
    clusters, has two coordinates and carries one of the seven sample texts
    of its cluster, and the sizes of the clusters add up to the number of
    points. *)
Theorem generateMockClusteringData_consistent (g : RNG) :
  map pt_id (points (fst (generateMockClusteringData g)))
  = seq 0 (length (points (fst (generateMockClusteringData g))))
  /\ Forall (fun p => exists c, (c < 5)%nat /\ pt_cluster p = Z.of_nat c
                                /\ In (pt_text p) (nth c mockTexts [])
                                /\ length (pt_coordinates p) = 2%nat)
       (points (fst (generateMockClusteringData g)))
  /\ list_sum (map cl_size (clusters (fst (generateMockClusteringData g))))
     = length (points (fst (generateMockClusteringData g))).
Proof.
  unfold generateMockClusteringData.
  destruct (draw 5 g) as [us g1] eqn:Ed.
  assert (Hus : length us = 5%nat).
  { revert Ed. unfold draw, Math_random. intros Ed. inversion Ed. reflexivity. }
  pose proof (@mock_clusters_shape (map mock_size us) 0 0 g1) as H.
  destruct (mock_clusters (map mock_size us) 0 0 g1) as [pts g2].
  cbn [fst points clusters] in *.
  destruct H as [H1 H2]; [rewrite length_map; lia|].
  split; [|split; [exact H2|]].
  - assert (Hl : length pts = list_sum (map mock_size us))
      by (now rewrite <- (length_map pt_id), H1, length_seq).
    now rewrite Hl.
  - rewrite map_map. cbn [cl_size].
    rewrite <- (length_map pt_cluster pts).
    rewrite <- (@total_size_partition (map pt_cluster pts) 5).
    + unfold total_size. f_equal. apply map_ext. intros i.
      unfold cluster_size. clear. induction pts as [|p pts IH]; [reflexivity|].
      cbn [map filter]. destruct (pt_cluster p =? Z.of_nat i)%Z; cbn [length]; now rewrite IH.
    + apply Forall_forall. intros a Ha. apply in_map_iff in Ha.
      destruct Ha as (p & <- & Hp). rewrite Forall_forall in H2.
      destruct (H2 p Hp) as (c & Hc & -> & _). unfold in_range. lia.
Qed.

End MockData.

(* ================================================================= *)
(** * [calculateMovingAverage] *)

Section MovingAverage.
Import JS DataProcessing.

Lemma mapM_ok {A B} (f : A -> result B) (h : A -> B) (l : list A) :
  (forall x, In x l -> f x = Ok (h x)) -> mapM f l = Ok (map h l).
Proof.
  induction l as [|x l IH]; intros H; [reflexivity|].
  cbn [mapM map]. rewrite (H x (or_introl eq_refl)). cbn [bind].
  rewrite IH by (intros y Hy; apply H; now right). reflexivity.
Qed.

(** X21. With a window of at least one entry [calculateMovingAverage] returns
    one entry per position of the window: none when the series is shorter
    than the window, and otherwise [length - window + 1] entries, the [i]-th
    of which carries the date of the last entry of its window,
    [i + window - 1], and the sum of the window divided by [window]. With
    the window 0 it raises a [TypeError], whatever the series. *)
Theorem calculateMovingAverage_windows (timeSeriesData : list bucket) (window : nat) :
  calculateMovingAverage timeSeriesData 0 = Throw TypeError
  /\ ((1 <= window)%nat ->
      exists result,
        calculateMovingAverage timeSeriesData window = Ok result
        /\ length result = (length timeSeriesData + 1 - window)%nat
        /\ forall i, (i < length result)%nat ->
             exists item,
               nth_error timeSeriesData (i + window - 1) = Some item
               /\ nth_error result i
                  = Some (mkBucket (bk_date item)
                            (window_sum timeSeriesData window i / of_nat window)%float)).
Proof.
  split.
  - unfold calculateMovingAverage. cbn [Nat.ltb Nat.leb].
    rewrite Nat.sub_0_r, Nat.add_1_r. reflexivity.
  - intros Hw. unfold calculateMovingAverage.
    destruct (Nat.ltb_spec (length timeSeriesData) window) as [Hlt|Hge].
    + exists []. split; [reflexivity|]. split; [simpl; lia|]. simpl. intros i Hi. lia.
    + set (h := fun i =>
                  mkBucket (bk_date (nth (i + window - 1) timeSeriesData (mkBucket "" zero)))
                    (window_sum timeSeriesData window i / of_nat window)%float).
      exists (map h (seq 0 (length timeSeriesData - window + 1))).
      split; [|split].
      * apply mapM_ok. intros i Hi. apply in_seq in Hi.
        destruct (i + window)%nat as [|last] eqn:E; [lia|].
        destruct (nth_error timeSeriesData last) as [item|] eqn:En.
        -- unfold h. replace (i + window - 1)%nat with last by lia.
           now rewrite (nth_error_nth _ _ _ En).
        -- apply nth_error_None in En. lia.
      * rewrite length_map, length_seq. lia.
      * intros i Hi. rewrite length_map, length_seq in Hi.
        destruct (nth_error timeSeriesData (i + window - 1)) as [item|] eqn:En.
        2:{ apply nth_error_None in En. lia. }
        exists item. split; [reflexivity|].
        rewrite nth_error_map, nth_error_seq.
        destruct (Nat.ltb_spec i (length timeSeriesData - window + 1)) as [_|]; [|lia].
        cbn [option_map Nat.add]. unfold h. now rewrite (nth_error_nth _ _ _ En).
Qed.

(** Three days and a window of two. *)
Lemma calculateMovingAverage_windows_witness :
  exists result,
    calculateMovingAverage three_days 2 = Ok result /\ length result = 2%nat.
Proof.
  destruct (proj2 (@calculateMovingAverage_windows three_days 2))
    as (result & E & L & _); [lia|].
  exists result. split; [exact E|exact L].
Defined.

End MovingAverage.
(* ================================================================= *)
(** * [performTextClustering] *)

Section TextClusteringPromise.
Import JS DataProcessing.

Lemma total_size_le assignments k : (total_size assignments k <= length assignments)%nat.
Proof.
  unfold total_size. induction assignments as [|a l IH]; simpl.
  - induction (seq 0 k); simpl; auto.
  - rewrite (map_ext (cluster_size (a :: l))
               (fun j => (if (a =? Z.of_nat j)%Z then 1 else 0) + cluster_size l j)%nat).
    + rewrite list_sum_map_add, indicator_sum.
      destruct (_ && _)%bool; lia.
    + intros j. unfold cluster_size. simpl. destruct (a =? Z.of_nat j)%Z; reflexivity.
Qed.

Lemma text_cluster_count_range n : (3 <= text_cluster_count n <= 5)%nat.
Proof. unfold text_cluster_count. lia. Qed.

Lemma contents_truthy data : Forall (fun s => s <> "") (contents data).
Proof.
  unfold contents. apply Forall_forall. intros s Hs. apply in_flat_map in Hs.
  destruct Hs as (it & _ & Hs). destruct it as [|[c|] t]; try contradiction.
  destruct (Str.truthy c) eqn:E; [|contradiction]. destruct Hs as [<-|[]].
  intros ->. discriminate.
Qed.

(** X22. [performTextClustering] rejects with "Invalid data format. Expected
    array." when [data] is no array, and with the [TypeError] of [kmeans]
    (which reads [points[0].length]) when it is an array without an item
    that has a content: no clustering is returned for no document. *)
Theorem performTextClustering_rejects (data : list item) (g : RNG) :
  performTextClustering None g
  = (Throw (Error "Invalid data format. Expected array."), g)
  /\ (contents data = [] ->
      performTextClustering (Some data) g = (Throw TypeError, g)).
Proof.
  split; [reflexivity|]. intros H. unfold performTextClustering. rewrite H.
  reflexivity.
Qed.

(** An array without an item that has a content. *)
Lemma performTextClustering_rejects_witness :
  performTextClustering (Some [NotAnObject; Item None (Some "only a text field")]) even_rng
  = (Throw TypeError, even_rng).
Proof.
  apply (proj2 (@performTextClustering_rejects
                  [NotAnObject; Item None (Some "only a text field")] even_rng)).
  reflexivity.
Defined.

End TextClusteringPromise.

Section TextClusteringShape.
Import JS DataProcessing.

Lemma array_similarities_length docVectors :
  length (array_similarities docVectors) = length docVectors.
Proof. unfold array_similarities. apply length_map. Qed.

Lemma term_vectors_length tfidf termsList n :
  length (term_vectors tfidf termsList n) = n.
Proof. unfold term_vectors. now rewrite length_map, length_seq. Qed.

Lemma full_texts_kept (asg : list Z) (coords : list (float * float * string * string)) :
  forall k,
  map tp_fullText
    (map (fun ic : nat * (float * float * string * string) =>
            let '(x, y, text, fullText) := snd ic in
            mkTextPoint x y text fullText (nth (fst ic) asg (-1)%Z))
       (combine (seq k (length coords)) coords))
  = map snd coords.
Proof.
  induction coords as [|[[[x y] t] f] coords IH]; intros k; [reflexivity|].
  cbn [length seq combine map snd fst tp_fullText]. now rewrite IH.
Qed.

Lemma coords_texts (mds : list vec) (rawTexts : list string) : forall k,
  map snd
    (map (fun ip : nat * string =>
            (get (nth (fst ip) mds []) 0, get (nth (fst ip) mds []) 1,
             preview (snd ip), snd ip))
       (combine (seq k (length rawTexts)) rawTexts))
  = rawTexts.
Proof.
  induction rawTexts as [|s rawTexts IH]; intros k; [reflexivity|].
  cbn [length seq combine map snd fst]. now rewrite IH.
Qed.

(** X23. When at least one item has a content and the draw of the first seed
    selects a point, [performTextClustering] fulfils its promise: one point
    per item with a content, in their order, and between three and five
    clusters, numbered from 0 and named "Cluster 1", "Cluster 2", ...,
    however few the documents are; the counts of the clusters add up to no
    more than the number of documents, and no more than 100 terms are
    returned. *)
Theorem performTextClustering_shape (data : list item) (g : RNG) :
  contents data <> [] ->
  draw_selects (length (contents data))
    (draws g (cursor g + 2 * length (contents data))) = true ->
  exists r,
    performTextClustering (Some data) g
    = (Ok r, mkRNG (draws g)
               (cursor g + 2 * length (contents data)
                + text_cluster_count (length (contents data))))
    /\ tc_num_clusters r = text_cluster_count (length (contents data))
    /\ (3 <= tc_num_clusters r <= 5)%nat
    /\ map ci_id (tc_clusters r) = seq 0 (tc_num_clusters r)
    /\ map ci_name (tc_clusters r)
       = map (fun i => ("Cluster " ++ Str.of_index (i + 1))%string) (seq 0 (tc_num_clusters r))
    /\ map tp_fullText (tc_points r) = contents data
    /\ (list_sum (map ci_count (tc_clusters r)) <= length (contents data))%nat
    /\ (length (tc_terms r) <= 100)%nat.
Proof.
  intros Hne Hseed. unfold performTextClustering.
  set (rawTexts := contents data) in *.
  set (texts := map preprocessText rawTexts).
  set (tfidf := build_tfidf texts).
  set (termsList := all_terms tfidf (length texts)).
  set (docVectors := term_vectors tfidf termsList (length texts)).
  assert (Hn : length docVectors = length rawTexts).
  { unfold docVectors. rewrite term_vectors_length. unfold texts. apply length_map. }
  destruct (simpleMDS_points (array_similarities docVectors) 2 g) as (L & _ & R).
  rewrite array_similarities_length, Hn in L, R.
  destruct (simpleMDS (array_similarities docVectors) 2 g) as [mds g1].
  cbn [fst snd] in L, R. subst g1.
  replace (length texts) with (length rawTexts) by (unfold texts; now rewrite length_map).
  set (k := text_cluster_count (length rawTexts)).
  pose proof (text_cluster_count_range (length rawTexts)) as Hk. fold k in Hk.
  assert (Hmds : mds <> []) by (destruct mds, rawTexts; simpl in *; congruence).
  destruct (proj2 (kmeans_returns mds k 10
                     (mkRNG (draws g) (cursor g + length rawTexts * 2))) Hmds)
    as (st & _ & E & _ & _ & Ha & _).
  { unfold seed_in_range. cbn [draws cursor]. rewrite L.
    rewrite (Nat.mul_comm (length rawTexts) 2). exact Hseed. }
  rewrite E. cbn [draws cursor]. eexists. split.
  { cbv zeta. apply f_equal2; [reflexivity|f_equal; lia]. }
  cbn [tc_num_clusters tc_clusters tc_points tc_terms res_assignments].
  split; [reflexivity|]. split; [exact Hk|].
  split; [rewrite map_map; cbn [ci_id]; apply map_id|].
  split; [now rewrite map_map|]. split; [|split].
  - rewrite full_texts_kept, Hn. apply coords_texts.
  - rewrite map_map. cbn [ci_count]. rewrite L in Ha. rewrite <- Ha.
    apply total_size_le.
  - rewrite length_firstn. lia.
Qed.

(** One document: three clusters all the same. *)
Lemma performTextClustering_shape_witness :
  exists r,
    performTextClustering (Some lone_document) even_rng
    = (Ok r, mkRNG (draws even_rng) 5)
    /\ tc_num_clusters r = 3%nat
    /\ map tp_fullText (tc_points r) = ["cats like mats"].
Proof.
  destruct (@performTextClustering_shape lone_document even_rng)
    as (r & E & K & _ & _ & _ & T & _); [discriminate|reflexivity|].
  exists r. split; [exact E|]. split; [exact K|exact T].
Defined.

End TextClusteringShape.

(* ================================================================= *)
(** * [performSentimentAnalysis] *)

Section SentimentPromise.
Import JS Str NaturalWrapper DataProcessing.

Lemma mapM_some {A} (l : list A) :
  mapM (fun item : option A => match item with
                               | Some m => Ok m
                               | None => Throw TypeError
                               end) (map Some l) = Ok l.
Proof. induction l as [|x l IH]; [reflexivity|]. cbn [map mapM bind]. now rewrite IH. Qed.

Lemma mapM_null {A} (l : list (option A)) :
  In None l ->
  mapM (fun item : option A => match item with
                               | Some m => Ok m
                               | None => Throw TypeError
                               end) l = Throw TypeError.
Proof.
  induction l as [|x l IH]; intros H; [contradiction|].
  cbn [mapM]. destruct x as [m|]; [|reflexivity].
  destruct H as [H|H]; [discriminate|]. cbn [bind]. now rewrite IH.
Qed.

(** The texts [performSentimentAnalysis] analyses. *)
Lemma analyse_texts_results data texts : forall index g,
  let results := fst (analyse_texts data index texts g) in
  length results = length texts
  /\ forall i, (i < length texts)%nat ->
       let r := nth i results (mkSentimentResult 0 None zero "" 0 None None None None) in
       let item := nth (index + i) data (mkMessage None None None None None) in
       sr_id r = (index + i)%nat
       /\ sr_text r = msg_content item
       /\ sr_sender r = if_truthy (msg_sender item)
       /\ sr_intent r = if_truthy (msg_intent item)
       /\ sr_tokens r = length (tokenize (nth i texts ""))
       /\ sr_category r = category_of (sr_score r)
       /\ exists g0, sr_score r = fst (getSentiment (tokenize (nth i texts "")) g0).
Proof.
  induction texts as [|text texts IH]; intros index g; cbn [analyse_texts].
  - split; [reflexivity|]. intros i Hi. simpl in Hi. lia.
  - unfold analyse_text.
    destruct (getSentiment (tokenize text) g) as [score g1] eqn:Es.
    specialize (IH (S index) g1).
    destruct (analyse_texts data (S index) texts g1) as [rs g2].
    cbn [fst] in *. destruct IH as [IL IH]. split; [simpl; now rewrite IL|].
    intros [|i] Hi.
    + cbn [nth]. rewrite Nat.add_0_r. cbn.
      repeat (split; [reflexivity|]). exists g. now rewrite Es.
    + cbn [nth]. replace (index + S i)%nat with (S index + i)%nat by lia.
      apply IH. simpl in Hi. lia.
Qed.

Lemma category_cases score : In (category_of score) categories.
Proof.
  unfold category_of, categories.
  repeat match goal with |- context [if ?c then _ else _] => destruct c end;
    simpl; auto 10.
Qed.

Lemma category_counts (results : list sentiment_result) :
  Forall (fun r => In (sr_category r) categories) results ->
  list_sum (map (fun cat => length (filter (fun item => (sr_category item =? cat)%string)
                                      results)) categories)
  = length results.
Proof.
  induction 1 as [|r rs Hr _ IH]; [reflexivity|].
  cbn [length]. rewrite <- IH. unfold categories in *. cbn [map list_sum filter].
  destruct Hr as [<-|[<-|[<-|[<-|[<-|[]]]]]]; cbn; lia.
Qed.

(** X24. The [i]-th result of [performSentimentAnalysis] is computed from the
    [i]-th text with a content: its score is the one [getSentiment] gives
    for the tokens of that text, its category is the category of that score
    and it counts the tokens of that text. But its [text], its sender and
    its intent are read from the [i]-th item of [data]: the two agree only
    as long as no earlier item lacks a content. *)
Theorem performSentimentAnalysis_reports_by_position (data : list message) (g : RNG) :
  exists r g',
    performSentimentAnalysis (Some (map Some data)) g = (Ok r, g')
    /\ length (sa_results r) = length (texts_of data)
    /\ forall i, (i < length (texts_of data))%nat ->
         let res := nth i (sa_results r)
                      (mkSentimentResult 0 None zero "" 0 None None None None) in
         let item := nth i data (mkMessage None None None None None) in
         sr_id res = i
         /\ (exists g0, sr_score res
                        = fst (getSentiment (tokenize (nth i (texts_of data) "")) g0))
         /\ sr_category res = category_of (sr_score res)
         /\ sr_tokens res = length (tokenize (nth i (texts_of data) ""))
         /\ sr_text res = msg_content item
         /\ sr_sender res = if_truthy (msg_sender item)
         /\ sr_intent res = if_truthy (msg_intent item).
Proof.
  unfold performSentimentAnalysis. rewrite mapM_some.
  pose proof (analyse_texts_results data (texts_of data) 0 g) as H.
  destruct (analyse_texts data 0 (texts_of data) g) as [results g']. cbn [fst] in H.
  destruct H as [HL H]. eexists. eexists. split; [reflexivity|].
  cbn [sa_results]. split; [exact HL|].
  intros i Hi. destruct (H i Hi) as (H1 & H2 & H3 & H4 & H5 & H6 & H7).
  cbn zeta. auto 10.
Qed.

(** X25. [performSentimentAnalysis] rejects with "Invalid data format. Expected
    array." when [data] is no array and with a [TypeError] when an item is
    [null] or [undefined]. Otherwise it returns; each result falls in exactly
    one of the five categories, so that the category counts add up to the
    number of results; and without any result the overall average is
    [NaN]. *)
Theorem performSentimentAnalysis_counts (data : list (option message)) (g : RNG) :
  performSentimentAnalysis None g
  = (Throw (Error "Invalid data format. Expected array."), g)
  /\ (In None data -> performSentimentAnalysis (Some data) g = (Throw TypeError, g))
  /\ (~ In None data ->
      exists r g',
        performSentimentAnalysis (Some data) g = (Ok r, g')
        /\ map fst (sa_categoryCounts r) = categories
        /\ list_sum (map snd (sa_categoryCounts r)) = length (sa_results r)
        /\ (sa_results r = [] -> sa_overallAvg r = nan)).
Proof.
  split; [reflexivity|]. split.
  - intros H. unfold performSentimentAnalysis. now rewrite mapM_null.
  - intros H.
    assert (E : exists ms, data = map Some ms).
    { clear g. induction data as [|[m|] data IH].
      - now exists [].
      - destruct IH as (ms & ->); [intros Hin; apply H; now right|].
        now exists (m :: ms).
      - exfalso. apply H. now left. }
    destruct E as (ms & ->).
    unfold performSentimentAnalysis. rewrite mapM_some.
    pose proof (analyse_texts_results ms (texts_of ms) 0 g) as Hr.
    destruct (analyse_texts ms 0 (texts_of ms) g) as [results g']. cbn [fst] in Hr.
    destruct Hr as [HL Hr]. eexists. eexists. split; [reflexivity|].
    cbn [sa_results sa_categoryCounts sa_overallAvg]. split; [|split].
    + rewrite map_map. cbn [fst]. apply map_id.
    + rewrite map_map. cbn [snd]. apply category_counts.
      apply Forall_forall. intros r Hin.
      apply (In_nth _ _ (mkSentimentResult 0 None zero "" 0 None None None None)) in Hin.
      destruct Hin as (i & Hi & <-). rewrite HL in Hi.
      destruct (Hr i Hi) as (_ & _ & _ & _ & _ & -> & _). apply category_cases.
    + intros ->. reflexivity.
Qed.

(** An item without a content in front of an item with the content
    "good": the one result has the score of "good", and the sender but not
    the text of the item in front. *)
Lemma shifted_report :
  exists r g',
    performSentimentAnalysis (Some (map Some shifted_messages)) even_rng = (Ok r, g')
    /\ map sr_text (sa_results r) = [None]
    /\ map sr_sender (sa_results r) = [Some "bot"]
    /\ map sr_category (sa_results r) = ["Positive"].
Proof. eexists. eexists. split; [reflexivity|]. repeat split. Qed.

End SentimentPromise.

(* ================================================================= *)
(** * The texts of the points of [clusterTexts] *)

Section PointTexts.
Import JS DataProcessing.

Lemma make_points_texts n texts validCoordinates clusterAssignments :
  Forall (fun p => (pt_id p < n)%nat
                   /\ pt_text p = nth (pt_id p) texts ""
                   /\ pt_coordinates p = nth (pt_id p) validCoordinates []
                   /\ pt_cluster p = nth (pt_id p) clusterAssignments 0%Z)
    (make_points n texts validCoordinates clusterAssignments).
Proof.
  unfold make_points. apply Forall_forall. intros p Hp.
  apply in_flat_map in Hp. destruct Hp as (i & Hi & Hp). apply in_seq in Hi.
  destruct (_ && _)%bool; [|contradiction]. destruct Hp as [<-|[]].
  cbn. repeat split; auto. lia.
Qed.

(** X26. What [clusterTexts] returns is the mock data or a list of points in
    which the point [i] carries the [i]-th text collected from [data],
    while [i] counts the texts that are not empty after preprocessing: as
    soon as a text is dropped by preprocessing, the points that follow carry
    the text of another document than the one they were computed from. *)
Theorem clusterTexts_point_texts (data : list item) (g : RNG) r g' :
  clusterTexts (Some data) g = Some (r, g') ->
  (r, g') = generateMockClusteringData g
  \/ Forall (fun p => (pt_id p < length (usable_documents data))%nat
                      /\ pt_text p = nth (pt_id p) (collect_texts data) "")
       (points r).
Proof.
  unfold clusterTexts, usable_documents. destruct data as [|d data]; [left; congruence|].
  set (texts := collect_texts (d :: data)).
  destruct (length texts <? 2)%nat; [left; congruence|].
  set (processedTexts := collect_processed texts).
  destruct (length processedTexts <? 2)%nat; [left; congruence|].
  destruct (length (collect_terms _ _) =? 0)%nat; [left; congruence|].
  destruct (length (doc_vectors _ _) <? 2)%nat; [left; congruence|].
  destruct (similarity_matrix _) as [similarityMatrix|]; [|discriminate].
  destruct (simpleMDS _ 2 g) as [mdsCoordinates g1].
  destruct (cluster_assignments _ _ _ g1) as [clusterAssignments g2].
  intros H. inversion H; subst. right. cbn [points].
  eapply Forall_impl; [|apply make_points_texts].
  intros p (H1 & H2 & _). split; assumption.
Qed.

(** Three documents, the first of which holds stopwords only: the two
    points carry the first two texts, their coordinates and clusters are
    those of the last two. *)
Lemma clusterTexts_point_texts_witness :
  exists r g',
    clusterTexts (Some dropped_text) even_rng = Some (r, g')
    /\ usable_documents dropped_text = ["cat purr"; "dog bark"]
    /\ ((r, g') = generateMockClusteringData even_rng
        \/ Forall (fun p => (pt_id p < 2)%nat
                            /\ pt_text p = nth (pt_id p) ["the and"; "cats purr"; "dogs bark"] "")
             (points r)).
Proof.
  destruct (clusterTexts (Some dropped_text) even_rng) as [[r g']|] eqn:E;
    [|vm_compute in E; discriminate].
  exists r, g'. split; [reflexivity|]. split; [reflexivity|].
  exact (@clusterTexts_point_texts dropped_text even_rng r g' E).
Defined.

End PointTexts.
(* ================================================================= *)
(** * [performTopicModeling] *)

Section TopicModel.
Import JS Str NaturalWrapper DataProcessing.

Lemma topic_count_range n : (3 <= topic_count n <= 5)%nat.
Proof. unfold topic_count. lia. Qed.

Lemma prefix_append p v : prefix p (p ++ v) = true.
Proof.
  induction p as [|a p IH]; simpl; [now destruct v|].
  destruct (ascii_dec a a); [exact IH|congruence].
Qed.

Lemma string_includes_parts u p v : string_includes (u ++ p ++ v) p = true.
Proof.
  induction u as [|c u IH]; simpl.
  - destruct (p ++ v)%string as [|c s] eqn:E.
    + destruct p; [reflexivity|discriminate].
    + cbn [string_includes]. rewrite <- E, prefix_append. reflexivity.
  - rewrite IH. apply orb_true_r.
Qed.

(** Every piece of [split] is a part of the string that was split. *)
Lemma split_from_sub s : forall b cur,
  (b = true -> cur = "") ->
  Forall (fun t => exists u v, (cur ++ s = u ++ t ++ v)%string) (split_from b cur s).
Proof.
  induction s as [|c s IH]; intros b cur Hb; simpl.
  - constructor; [|constructor]. exists "", "". simpl. now rewrite !append_nil_r.
  - destruct (is_space c).
    + destruct b.
      * rewrite (Hb eq_refl). simpl.
        eapply Forall_impl; [|apply (IH true ""); reflexivity].
        intros t (u & v & E). simpl in E. exists (String c u), v. simpl. now rewrite E.
      * constructor.
        -- exists "", (String c s). reflexivity.
        -- eapply Forall_impl; [|apply (IH true ""); reflexivity].
           intros t (u & v & E). simpl in E. exists (cur ++ String c u)%string, v.
           rewrite append_assoc. simpl. now rewrite E.
    + eapply Forall_impl; [|apply (IH false (cur ++ String c "")%string); discriminate].
      intros t (u & v & E). exists u, v. rewrite <- E, append_assoc. reflexivity.
Qed.

Lemma token_included s t : In t (tokenize s) -> string_includes s t = true.
Proof.
  intros H. unfold tokenize, split_spaces in H. apply filter_In in H.
  destruct H as [H _].
  pose proof (@split_from_sub s false "" ltac:(discriminate)) as F.
  rewrite Forall_forall in F. destruct (F _ H) as (u & v & E). simpl in E.
  rewrite E. apply string_includes_parts.
Qed.

Lemma NoDup_firstn {A} (l : list A) : forall n, NoDup l -> NoDup (firstn n l).
Proof.
  induction l as [|x l IH]; intros [|n] H; simpl; try constructor.
  - inversion H as [|? ? Hx Hl]; subst. intros Hin. apply Hx.
    rewrite <- (firstn_skipn n l). apply in_or_app. now left.
  - inversion H; subst. now apply IH.
Qed.

Lemma In_firstn {A} (l : list A) n x : In x (firstn n l) -> In x l.
Proof.
  intros H. rewrite <- (firstn_skipn n l). apply in_or_app. now left.
Qed.

Lemma share_bounds m len :
  (1 <= len <= 10)%nat -> (m <= len)%nat ->
  ((0 <=? of_nat m / of_nat len) && (of_nat m / of_nat len <=? 1))%float = true.
Proof.
  intros Hl Hm.
  assert (H : forallb (fun l =>
                forallb (fun k => ((0 <=? of_nat k / of_nat l)
                                   && (of_nat k / of_nat l <=? 1))%float)
                        (seq 0 (S l))) (seq 1 10) = true) by (vm_compute; reflexivity).
  rewrite forallb_forall in H. specialize (H len ltac:(apply in_seq; lia)).
  rewrite forallb_forall in H. apply H, in_seq. lia.
Qed.

Lemma share_full len : (1 <= len <= 10)%nat -> (of_nat len / of_nat len)%float = one.
Proof.
  intros H. do 11 (destruct len as [|len]; [try lia; try reflexivity|]). lia.
Qed.

(** The words of topic [i]: at most ten, no word twice, all of them tokens
    of the document the topic is read from. *)
Lemma topic_words_of ds i k :
  let words := map term (firstn 10 (listTerms (build_tfidf ds)
                                      (topic_document i (length ds) k))) in
  (length words <= 10)%nat
  /\ NoDup words
  /\ (forall w, In w words ->
                (topic_document i (length ds) k < length ds)%nat
                /\ In w (tokenize (nth (topic_document i (length ds) k) ds ""))).
Proof.
  intros words. subst words. set (d := topic_document i (length ds) k).
  destruct (listTerms_of_build ds d) as (Hpast & Hnd & Hin).
  split; [rewrite length_map; apply firstn_le_length|].
  split; [rewrite <- firstn_map; now apply NoDup_firstn|].
  intros w Hw. destruct (Nat.lt_ge_cases d (length ds)) as [Hd|Hd].
  - split; [exact Hd|]. apply in_map_iff in Hw. destruct Hw as (e & <- & He).
    apply In_firstn in He. now apply (Hin Hd) in He.
  - rewrite (Hpast Hd) in Hw. now destruct Hw.
Qed.

Lemma nth_mapped {A B} (f : A -> B) (l : list A) n x y :
  (n < length l)%nat -> nth n (map f l) y = f (nth n l x).
Proof.
  intros H. rewrite (nth_indep _ y (f x)); [apply map_nth|now rewrite length_map].
Qed.

(** What the promise resolves to on an array of objects. *)
Lemma performTopicModeling_value (data : list message) :
  let ds := map preprocessText (texts_of data) in
  let topics :=
    map (fun i =>
           let words := map term (firstn 10 (listTerms (build_tfidf ds)
                                               (topic_document i (length ds)
                                                  (topic_count (length ds))))) in
           mkTopic i (topic_name i words) words)
        (seq 0 (topic_count (length ds))) in
  performTopicModeling (Some (map Some data))
  = Ok (mkTopicModel topics (map (topic_shares topics) ds) ds).
Proof. intros ds topics. unfold performTopicModeling. now rewrite mapM_some. Qed.

(** X27. [performTopicModeling] rejects with "Invalid data format. Expected
    array." when [data] is no array and with a [TypeError] when an item is
    [null] or [undefined]. On an array of objects it resolves, with the
    preprocessed text of every item with a content, in order, and with
    [min(5, max(3, floor(n / 10)))] topics, so between three and five
    however few the texts are. The topics are numbered from 0; topic [i] has
    at most ten words, no word twice, all of them words of the one
    preprocessed text it is read from, the text [floor(i * n / numTopics)]. *)
Theorem performTopicModeling_shape (data : list message) (items : list (option message)) :
  performTopicModeling None = Throw (Error "Invalid data format. Expected array.")
  /\ (In None items -> performTopicModeling (Some items) = Throw TypeError)
  /\ exists r,
       performTopicModeling (Some (map Some data)) = Ok r
       /\ tm_processedTexts r = map preprocessText (texts_of data)
       /\ length (tm_topics r) = topic_count (length (texts_of data))
       /\ (3 <= length (tm_topics r) <= 5)%nat
       /\ map topic_id (tm_topics r) = seq 0 (length (tm_topics r))
       /\ forall i, (i < length (tm_topics r))%nat ->
            (length (topic_words (topic_at r i)) <= 10)%nat
            /\ NoDup (topic_words (topic_at r i))
            /\ forall w, In w (topic_words (topic_at r i)) ->
                 In w (tokenize (nth (topic_document i (length (texts_of data))
                                        (length (tm_topics r)))
                                     (tm_processedTexts r) "")).
Proof.
  split; [reflexivity|]. split.
  { intros H. unfold performTopicModeling. now rewrite (mapM_null _ H). }
  eexists. split; [apply performTopicModeling_value|].
  cbn [tm_processedTexts tm_topics]. rewrite !length_map, length_seq.
  split; [reflexivity|]. split; [reflexivity|].
  split; [apply topic_count_range|]. split.
  { rewrite map_map. cbn [topic_id]. apply map_id. }
  intros i Hi. unfold topic_at. cbn [tm_topics].
  rewrite (@nth_mapped _ _ _ _ i 0%nat) by (now rewrite length_seq).
  rewrite seq_nth by exact Hi. cbn [Nat.add topic_words].
  pose proof (topic_words_of (map preprocessText (texts_of data)) i
                (topic_count (length (map preprocessText (texts_of data))))) as H.
  cbv zeta in H. rewrite !length_map in H. rewrite !length_map.
  destruct H as (H1 & H2 & H3).
  split; [exact H1|]. split; [exact H2|]. intros w Hw. now apply H3.
Qed.

(** X28. In the distribution [performTopicModeling] returns, every document has
    one share per topic, under the id of the topic. The share of a topic
    without words is [NaN] in every document; the share of a topic with
    words lies between 0 and 1, and is 1 in the document the topic was read
    from. *)
Theorem performTopicModeling_shares (data : list message) :
  exists r,
    performTopicModeling (Some (map Some data)) = Ok r
    /\ length (tm_docTopicDist r) = length (tm_processedTexts r)
    /\ forall d i,
         (d < length (tm_processedTexts r))%nat -> (i < length (tm_topics r))%nat ->
         map fst (nth d (tm_docTopicDist r) []) = seq 0 (length (tm_topics r))
         /\ (topic_words (topic_at r i) = [] -> share r d i = nan)
         /\ (topic_words (topic_at r i) <> [] ->
             ((0 <=? share r d i) && (share r d i <=? 1))%float = true)
         /\ (topic_words (topic_at r i) <> [] ->
             d = topic_document i (length (tm_processedTexts r)) (length (tm_topics r)) ->
             share r d i = one).
Proof.
  eexists. split; [apply performTopicModeling_value|].
  cbn [tm_processedTexts tm_topics tm_docTopicDist].
  set (ds := map preprocessText (texts_of data)).
  set (k := topic_count (length ds)).
  set (topics := map _ (seq 0 k)).
  assert (Hk : length topics = k) by (unfold topics; now rewrite length_map, length_seq).
  split; [now rewrite length_map|].
  intros d i Hd Hi. rewrite Hk in Hi |- *.
  unfold share, topic_at. cbn [tm_docTopicDist tm_topics].
  rewrite (@nth_mapped _ _ (topic_shares topics) ds d "" []) by exact Hd.
  assert (Ht : nth i topics (mkTopic 0 "" [])
               = let words := map term (firstn 10 (listTerms (build_tfidf ds)
                                                    (topic_document i (length ds) k))) in
                 mkTopic i (topic_name i words) words).
  { unfold topics. rewrite (@nth_mapped _ _ _ _ i 0%nat) by (now rewrite length_seq).
    now rewrite seq_nth by exact Hi. }
  cbv zeta in Ht. rewrite Ht. cbn [topic_words].
  set (words := map term (firstn 10 (listTerms (build_tfidf ds)
                                       (topic_document i (length ds) k)))) in *.
  destruct (topic_words_of ds i k) as (Hlen & _ & Hin). fold words in Hlen, Hin.
  assert (Hs : snd (nth i (topic_shares topics (nth d ds "")) (0%nat, nan))
               = (of_nat (length (filter (string_includes (nth d ds "")) words))
                  / of_nat (length words))%float).
  { unfold topic_shares.
    rewrite (@nth_mapped _ _ _ topics i (mkTopic 0 "" [])) by (now rewrite Hk).
    rewrite Ht. reflexivity. }
  rewrite Hs. split.
  { unfold topic_shares. rewrite map_map. cbn [fst]. unfold topics.
    rewrite map_map. cbn [topic_id]. apply map_id. }
  split; [intros ->; reflexivity|].
  assert (Hne : words <> [] -> (1 <= length words <= 10)%nat).
  { intros H. destruct words; [congruence|]. simpl in *. lia. }
  split.
  - intros H. apply share_bounds; [now apply Hne|apply filter_length_le].
  - intros H ->. rewrite forallb_filter_id.
    + apply share_full. now apply Hne.
    + apply forallb_forall. intros w Hw. apply token_included. now apply Hin.
Qed.

(** One text with the one word "good": three topics, all read from it. *)
Lemma one_text_three_topics :
  performTopicModeling (Some (map Some shifted_messages))
  = Ok (mkTopicModel
          [mkTopic 0 "Topic 0" ["good"]; mkTopic 1 "Topic 1" ["good"];
           mkTopic 2 "Topic 2" ["good"]]
          [[(0%nat, one); (1%nat, one); (2%nat, one)]]
          ["good"]).
Proof. reflexivity. Qed.

End TopicModel.

(* ================================================================= *)
(** * [analyzeSentiment] *)

Section AnalyzeSentiment.
Import JS Str NaturalWrapper DataProcessing.

Lemma is_space_lower c : is_space (lower_char c) = is_space c.
Proof. destruct c as [[] [] [] [] [] [] [] []]; reflexivity. Qed.

Lemma drop_spaces_toLowerCase s :
  drop_spaces (toLowerCase s) = toLowerCase (drop_spaces s).
Proof.
  induction s as [|c s IH]; [reflexivity|].
  simpl. rewrite is_space_lower. now destruct (is_space c).
Qed.

Lemma split_from_head s : forall b cur,
  cur <> "" -> exists p rest, split_from b cur s = p :: rest /\ p <> "".
Proof.
  induction s as [|c s IH]; intros b cur H; simpl.
  - now exists cur, [].
  - destruct (is_space c).
    + destruct b; [now apply IH|]. now exists cur, (split_from true "" s).
    + apply IH. destruct cur; [congruence|discriminate].
Qed.

(** A text that is not blank has a token, in lower case too. *)
Lemma tokens_of_text text :
  truthy (trim text) = true -> tokenize (toLowerCase text) <> [].
Proof.
  intros H. unfold tokenize, split_spaces.
  rewrite <- tokens_drop_spaces, drop_spaces_toLowerCase.
  destruct (drop_spaces text) as [|c u] eqn:E.
  - unfold trim in H. rewrite E in H. discriminate.
  - assert (Hc : is_space c = false).
    { destruct text as [|c0 t]; [discriminate|].
      clear H. revert c0 E. induction t as [|c1 t IH]; intros c0 E; simpl in E.
      - destruct (is_space c0) eqn:E0; [discriminate|]. now injection E as <- _.
      - destruct (is_space c0) eqn:E0; [|now injection E as <- _].
        now apply (IH c1). }
    cbn [toLowerCase split_from]. rewrite is_space_lower, Hc.
    destruct (@split_from_head (toLowerCase u) false ("" ++ String (lower_char c) "")
                ltac:(discriminate)) as (p & rest & -> & Hp).
    simpl. destruct p; [congruence|]. discriminate.
Qed.

Lemma analyze_items_texts l : forall g,
  map sc_text (fst (analyze_items l g)) = collect_texts l
  /\ Forall (fun r => sc_label r = sentiment_label (sc_score r)
                      /\ exists g0, sc_score r
                                    = fst (getSentiment (tokenize (toLowerCase (sc_text r))) g0))
       (fst (analyze_items l g)).
Proof.
  induction l as [|[|content text] l IH]; intros g; cbn [analyze_items collect_texts flat_map].
  - now split.
  - apply IH.
  - set (t := or_string content (or_string text "")).
    change (truthy (trim t)) with (negb (trim t =? "")).
    destruct (trim t =? "") eqn:Et; cbn [negb app].
    + exact (IH g).
    +
      assert (Ht : truthy (trim t) = true) by (unfold truthy; now rewrite Et).
      pose proof (tokens_of_text _ Ht) as Hne.
      destruct (tokenize (toLowerCase t)) as [|tok toks] eqn:Etok; [congruence|].
      destruct (getSentiment (tok :: toks) g) as [score g1] eqn:Es.
      destruct (IH g1) as [IT IF].
      destruct (analyze_items l g1) as [results g2]. cbn [fst map sc_text] in *.
      split; [now rewrite IT|].
      constructor; [|exact IF]. cbn [sc_label sc_score sc_text].
      split; [reflexivity|]. exists g. now rewrite Etok, Es.
Qed.

Lemma collect_valid data : collect_texts (filter valid_item data) = collect_texts data.
Proof.
  induction data as [|[|content text] l IH]; cbn [filter valid_item collect_texts flat_map];
    [reflexivity|exact IH|].
  fold (collect_texts l). fold (collect_texts (filter valid_item l)).
  destruct (truthy (or_string content (or_string text ""))) eqn:E.
  - cbn [collect_texts flat_map]. fold (collect_texts (filter valid_item l)).
    now rewrite IH.
  - unfold truthy in E. apply negb_false_iff, String.eqb_eq in E. rewrite E.
    cbn. exact IH.
Qed.

(** X29. [analyzeSentiment] returns [[]] when [data] is no array. On an array it
    returns one result per item whose content (or, without one, whose
    text) is not blank, in the order of the items; each result carries that
    very text, the score of its own tokens and the label of its score. The
    test for an empty list of tokens never fires. *)
Theorem analyzeSentiment_reports_own_text (data : list item) (g : RNG) :
  analyzeSentiment None g = ([], g)
  /\ map sc_text (fst (analyzeSentiment (Some data) g)) = collect_texts data
  /\ Forall (fun r => sc_label r = sentiment_label (sc_score r)
                      /\ exists g0, sc_score r
                                    = fst (getSentiment (tokenize (toLowerCase (sc_text r))) g0))
       (fst (analyzeSentiment (Some data) g)).
Proof.
  split; [reflexivity|]. unfold analyzeSentiment.
  destruct (analyze_items_texts (filter valid_item data) g) as [T F].
  split; [|exact F]. now rewrite T, collect_valid.
Qed.

End AnalyzeSentiment.
